(** * TweetFilter AI: the rating pipeline

  A shallow embedding of the rating pipeline of the TweetFilter AI
  userscript: score extraction, the retry loop with its rate limiter and
  backoff, the completion transport, the streaming decoder and the per-tweet
  processing coordinator.

  Two source files are embedded.  [TweetFilter-AI.user.js] is the bundled
  userscript (modules [config.js], [api.js], [ratingEngine.js], [ui.js]);
  the second file is the stand-alone [api.js] that adds streaming.  Where
  the two disagree the definitions live in [Module Bundle] and
  [Module Api]. *)

From Stdlib Require Import ZArith Lia Ascii String List Bool DecimalString.
From stdpp Require Import gmap strings list.

Local Open Scope Z_scope.
Set Warnings "-register-all,-clear-no-such-hyp".

(** ** JavaScript strings

  A JavaScript string is a sequence of UTF-16 code units.  The embedding
  keeps the code units below 256, which is all the protocol text of the
  pipeline (rating tokens, event framing, handles) is made of. *)

Module JsString.

(** [\d] of a regular expression without the [u] flag: the code units 48 to
    57, each with the digit it writes. *)
Definition digit_of (c : ascii) : option Z :=
  let n := Z.of_N (N_of_ascii c) in
  if (48 <=? n) && (n <=? 57) then Some (n - 48) else None.

Definition is_digit (c : ascii) : bool :=
  match digit_of c with Some _ => true | None => false end.

(** [\s], and the characters [String.prototype.trim] strips: TAB, LF, VT,
    FF, CR (9 to 13), SPACE (32) and NBSP (160) are the white space code
    units below 256. *)
Definition is_space (c : ascii) : bool :=
  let n := Z.of_N (N_of_ascii c) in
  ((9 <=? n) && (n <=? 13)) || (n =? 32) || (n =? 160).

Fixpoint all_digits (s : string) : bool :=
  match s with
  | "" => true
  | String c r => is_digit c && all_digits r
  end.

Definition starts_with_digit (s : string) : bool :=
  match s with
  | "" => false
  | String c _ => is_digit c
  end.

(** The longest run of digits at the head of [s]: what a greedy [\d*]
    consumes. *)
Fixpoint take_digits (s : string) : string :=
  match s with
  | "" => ""
  | String c r => if is_digit c then String c (take_digits r) else ""
  end.

(** [strip_prefix p s] is [Some r] when [s = p ++ r]. *)
Fixpoint strip_prefix (p s : string) : option string :=
  match p, s with
  | "", _ => Some s
  | String a p', String b s' =>
      if Ascii.eqb a b then strip_prefix p' s' else None
  | String _ _, "" => None
  end.

(** [s.startsWith(p)] *)
Definition startsWith (s p : string) : bool :=
  match strip_prefix p s with Some _ => true | None => false end.

(** [s.substring(n)] for [0 <= n]: the string without its first [n] code
    units (empty when [n] exceeds the length). *)
Fixpoint substring_from (n : nat) (s : string) : string :=
  match n, s with
  | O, _ => s
  | S n', String _ r => substring_from n' r
  | S _, "" => ""
  end.

(** [s.trim() === ''] *)
Fixpoint trim_is_empty (s : string) : bool :=
  match s with
  | "" => true
  | String c r => is_space c && trim_is_empty r
  end.

(** [s.split("\n")], kept as an accumulator loop over the code units. *)
Fixpoint split_lines_go (cur : string) (s : string) : list string :=
  match s with
  | "" => [String.rev cur]
  | String c r =>
      if Ascii.eqb c "010"
      then String.rev cur :: split_lines_go "" r
      else split_lines_go (String c cur) r
  end.

Definition split_lines (s : string) : list string := split_lines_go "" s.

(** [s.includes(p)] *)
Fixpoint includes (s p : string) : bool :=
  startsWith s p ||
  match s with
  | "" => false
  | String _ r => includes r p
  end.

(** [c.toLowerCase()] on a code unit below 256: A-Z, and the Latin-1
    capitals 192-222 without the multiplication sign 215. *)
Definition lower_char (c : ascii) : ascii :=
  let n := nat_of_ascii c in
  if ((65 <=? n)%nat && (n <=? 90)%nat)
     || ((192 <=? n)%nat && (n <=? 222)%nat && negb (n =? 215)%nat)
  then ascii_of_nat (n + 32) else c.

Fixpoint toLowerCase (s : string) : string :=
  match s with
  | "" => ""
  | String c r => String (lower_char c) (toLowerCase r)
  end.

Fixpoint trim_start (s : string) : string :=
  match s with
  | "" => ""
  | String c r => if is_space c then trim_start r else s
  end.

(** [s.trim()] *)
Definition trim (s : string) : string :=
  String.rev (trim_start (String.rev (trim_start s))).

(** The value of a decimal numeral, most significant digit first: the
    reference against which [parseInt] is checked. *)
Fixpoint decimal_value (s : string) : Z :=
  match s with
  | "" => 0
  | String c r =>
      match digit_of c with
      | Some v => v * 10 ^ Z.of_nat (String.length r) + decimal_value r
      | None => 0
      end
  end.

(** [parseInt(s, 10)] on a string of digits: the digits are folded left to
    right.  ([parseInt] also skips leading white space and a sign and yields
    NaN without a digit; the pipeline applies it to the digits a [(\d+)]
    group captured, where none of this arises.)  The result is the
    mathematical integer.  JavaScript returns the Number nearest to it, which
    is that integer as long as it is at most 2^53 and another one beyond
    (9007199254740993 reads as 9007199254740992): what is proved of a score
    is proved of digits whose integer [is_exact]. *)
Fixpoint parse_digits (acc : Z) (s : string) : Z :=
  match s with
  | "" => acc
  | String c r =>
      match digit_of c with
      | Some v => parse_digits (10 * acc + v) r
      | None => acc
      end
  end.

Definition parseInt10 (s : string) : Z := parse_digits 0 s.

(** The integers a Number holds exactly, every one of them up to 2^53 either
    way.  Such an integer is also printed by [toString] as its decimal
    numeral and read back by [parseInt] as itself, which is how a score
    travels through [dataset.sloppinessScore]. *)
Definition is_exact (n : Z) : bool := (- 2 ^ 53 <=? n) && (n <=? 2 ^ 53).

End JsString.

(** ** The regular expressions of the score token *)

Module ScoreExtractor.
Import JsString.

(** A regular expression of the shape [HEAD(\d+)] tried at the start of
    [s]: [head] consumes the fixed part, the group takes the longest run of
    digits, which must not be empty.  Nothing follows the group, so there is
    nothing to backtrack into. *)
Definition match_here (head : string -> option string) (s : string)
  : option string :=
  match head s with
  | Some r =>
      match take_digits r with
      | "" => None
      | d => Some d
      end
  | None => None
  end.

(** [s.match(re)] without the [g] flag: the leftmost position where [re]
    matches; the result is the text of group 1. *)
Fixpoint search (head : string -> option string) (s : string)
  : option string :=
  match match_here head s with
  | Some d => Some d
  | None =>
      match s with
      | "" => None
      | String _ r => search head r
      end
  end.

End ScoreExtractor.

(** ** JavaScript values

    The values [JSON.parse] produces, with [undefined] for what a property
    access yields when the property is absent.  Numbers are kept as integers:
    no decision of the pipeline reads a parsed number. *)

Module JsValue.
Import JsString.

Inductive json : Type :=
| JUndefined
| JNull
| JBool (b : bool)
| JNum (n : Z)
| JStr (s : string)
| JArr (xs : list json)
| JObj (fields : list (string * json)).

(** The outcome of evaluating an expression: a value, or a thrown exception
    with its message. *)
Inductive completion (A : Type) : Type :=
| Normal (a : A)
| Throw (msg : string).
Arguments Normal {A} a.
Arguments Throw {A} msg.

#[global] Instance completion_ret : MRet completion := fun A a => Normal a.

#[global] Instance completion_bind : MBind completion := fun A B k c =>
  match c with
  | Normal a => k a
  | Throw m => Throw m
  end.

(** The text of the TypeError an engine raises when a property of
    [null] or [undefined] is read; the wording is the engine's own. *)
Definition type_error : string := "TypeError".

(** [ToBoolean].  (NaN does not occur in parsed JSON.) *)
Definition truthy (v : json) : bool :=
  match v with
  | JUndefined | JNull => false
  | JBool b => b
  | JNum n => negb (n =? 0)
  | JStr s => negb (String.eqb s "")
  | JArr _ | JObj _ => true
  end.

Fixpoint lookup_field (k : string) (fs : list (string * json)) : json :=
  match fs with
  | [] => JUndefined
  | (k', v) :: r => if String.eqb k k' then v else lookup_field k r
  end.

Fixpoint lookup_field_or_throw (k : string) (fs : list (string * json))
  : completion json :=
  match fs with
  | [] => Throw "SyntaxError"
  | (k', v) :: r => if String.eqb k k' then Normal v else lookup_field_or_throw k r
  end.

(** [v.k] for the property names the pipeline reads ([content], [choices],
    [message], [delta], [native_finish_reason]): none of them is defined on a
    prototype, so only an object can answer with something else than
    [undefined]; reading a property of [null] or [undefined] throws. *)
Definition get_prop (v : json) (k : string) : completion json :=
  match v with
  | JUndefined | JNull => Throw type_error
  | JObj fs => Normal (lookup_field k fs)
  | _ => Normal JUndefined
  end.

(** [v[0]] *)
Definition get_index0 (v : json) : completion json :=
  match v with
  | JUndefined | JNull => Throw type_error
  | JArr xs => Normal (match xs with x :: _ => x | [] => JUndefined end)
  | JStr s =>
      Normal (match s with String c _ => JStr (String c "") | "" => JUndefined end)
  | JObj fs => Normal (lookup_field "0" fs)
  | _ => Normal JUndefined
  end.

(** [v?.k] and [v?.[0]] *)
Definition opt_prop (v : json) (k : string) : json :=
  match get_prop v k with Normal x => x | Throw _ => JUndefined end.

Definition opt_index0 (v : json) : json :=
  match get_index0 v with Normal x => x | Throw _ => JUndefined end.

(** The decimal numeral of an integer. *)
Definition string_of_Z (n : Z) : string :=
  NilEmpty.string_of_int (Z.to_int n).

(** [ToString], as string concatenation and [==] apply it.  An array prints
    its elements separated by commas, with [null] and [undefined] elements
    printed empty. *)
Fixpoint js_toString (v : json) : string :=
  match v with
  | JUndefined => "undefined"
  | JNull => "null"
  | JBool true => "true"
  | JBool false => "false"
  | JNum n => string_of_Z n
  | JStr s => s
  | JArr xs =>
      (fix join (l : list json) : string :=
         match l with
         | [] => ""
         | x :: r =>
             let sx := match x with
                       | JUndefined | JNull => ""
                       | _ => js_toString x
                       end in
             match r with
             | [] => sx
             | _ :: _ => sx +:+ "," +:+ join r
             end
         end) xs
  | JObj _ => "[object Object]"
  end.

(** [v == "SAFETY"]: a string compares by its text and an array or object by
    its [ToString]; a number or boolean is compared with [ToNumber("SAFETY")],
    which is NaN, and [null] and [undefined] equal only each other. *)
Definition loose_eq_SAFETY (v : json) : bool :=
  match v with
  | JStr _ | JArr _ | JObj _ => String.eqb (js_toString v) "SAFETY"
  | _ => false
  end.

(** [v === ""] *)
Definition is_empty_string (v : json) : bool :=
  match v with
  | JStr s => String.eqb s ""
  | _ => false
  end.

End JsValue.

(** ** Completion transport: [getCompletion]

    The function is the same text in both source files. *)

Module Transport.
Import JsString JsValue.

Record CompletionResult := {
  error : bool;
  message : string;
  data : json
}.

(** What [JSON.parse] does with a text is a capability of the host. *)
Class JsonParser := JSON_parse : string -> completion json.

(** What the HTTP client reports for one request. *)
Inductive NetOutcome :=
| Load (status : Z) (responseText : string)
| NetError (err : string)
| NetTimeout.

Section getCompletion.
Context `{!JsonParser}.

(** The calls of [resolve] the [try] block of [onload] makes, in order, for a
    2xx response. *)
Definition onload_try (responseText : string)
  : completion (list CompletionResult) :=
  d ← JSON_parse responseText;
  c ← get_prop d "content";
  first ←
    (if is_empty_string c then
       choices ← get_prop d "choices";
       choice ← get_index0 choices;
       reason ← get_prop choice "native_finish_reason";
       Normal
         [ {| error := true;
              message := "No content returned" +:+
                         (if loose_eq_SAFETY reason
                          then " (SAFETY FILTER)" else "");
              data := d |} ]
     else Normal []);
  Normal (first ++ [ {| error := false;
                        message := "Request successful";
                        data := d |} ]).

Definition onload (status : Z) (responseText : string)
  : list CompletionResult :=
  if (200 <=? status) && (status <? 300) then
    match onload_try responseText with
    | Normal rs => rs
    | Throw m =>
        [ {| error := true;
             message := "Failed to parse response: " +:+ m;
             data := JNull |} ]
    end
  else
    [ {| error := true;
         message := "Request failed with status " +:+ string_of_Z status
                    +:+ ": " +:+ responseText;
         data := JNull |} ].

(** The promise takes the value of the first [resolve]; later calls have no
    effect.  Every handler resolves at least once. *)
Definition settle (rs : list CompletionResult) : CompletionResult :=
  match rs with
  | r :: _ => r
  | [] => {| error := true; message := ""; data := JNull |}
  end.

Definition getCompletion (timeout : Z) (o : NetOutcome) : CompletionResult :=
  match o with
  | Load status responseText => settle (onload status responseText)
  | NetError err =>
      {| error := true; message := "Request error: " +:+ err; data := JNull |}
  | NetTimeout =>
      {| error := true;
         message := "Request timed out after " +:+ string_of_Z timeout +:+ "ms";
         data := JNull |}
  end.

End getCompletion.

(** [result.data?.choices?.[0]?.message?.content] *)
Definition message_content (result : CompletionResult) : json :=
  opt_prop (opt_prop (opt_index0 (opt_prop (data result) "choices")) "message")
           "content".

End Transport.

(** ** The page: module-level state of [config.js] and the rendered tweets *)

Module Page.
Import JsString JsValue.

Definition PROCESSING_DELAY_MS : Z := 500.
Definition API_CALL_DELAY_MS : Z := 250.
Definition MAX_RETRIES : nat := 3.

(** An entry of [tweetIDRatingCache].  [streaming] and [timestamp] are
    written by the streaming path only. *)
Record CacheEntry := {
  tweetContent : string;
  score : Z;
  description : string;
  streaming : option bool;
  timestamp : option Z
}.

(** The values [dataset.ratingStatus] takes. *)
Inductive Status :=
| Pending | Rated | Errored | Cached | Blacklisted | Streaming.

(** The class [setScoreIndicator] leaves on the indicator element. *)
Inductive IndicatorClass :=
| pending_rating | rated_rating | error_rating | cached_rating
| blacklisted_rating.

Inductive IndicatorText :=
| Hourglass
| Warning
| ScoreText (score : option Z).

(** The [.score-indicator] element of an article. *)
Record Indicator := {
  ind_class : IndicatorClass;
  ind_text : IndicatorText;
  ind_description : string
}.

(** [tweetArticle.dataset].  [sloppinessScore] holds the decimal numeral of a
    score; it is kept as the number it prints.  The code writes
    [score.toString()] and reads the attribute back with [parseInt]: an
    integer that [is_exact] comes back as itself.  (From 10^21 on [toString]
    prints an exponent form, of which [parseInt] reads the leading digits
    only; what is proved of the score an article shows is proved of exact
    ones.) *)
Record Dataset := {
  sloppinessScore : option Z;
  blacklisted : bool;
  ratingStatus : option Status;
  ratingDescription : option string;
  cachedRating : bool
}.

(** A rendered [article] element.  [tweetId] is what [getTweetID] reads off
    its permalink, [userHandles] what [getUserHandles] collects (the targets
    of the links under the user name, without their leading slash), [hidden]
    whether the enclosing cell has [display: none].

    The code calls [getTweetID] anew wherever it needs the ID.  For an
    article with a permalink every call returns the same ID, which is the
    field here.  For an article without one each call makes up a new ID
    ([Dom.getTweetID]); the field then stands for the ID of one call only,
    and what is proved across two calls is proved of an article whose ID
    [getTweetID] returns at every call. *)
Record Article := {
  tweetId : string;
  userHandles : list string;
  dataset : Dataset;
  indicator : option Indicator;
  hidden : bool
}.

(** A pending [setTimeout] of [scheduleTweetProcessing]: the closure holds the
    element and the tweet ID. *)
Record Timer := {
  fire_at : Z;
  timer_el : nat;
  timer_tweetId : string
}.

(** What the pipeline does towards the network, in order. *)
Inductive Event :=
| EvRateWait (ms : Z)
| EvDispatch (tweet : string) (attempt : nat)
| EvBackoff (attempt : nat) (ms : Z).

Definition is_dispatch (e : Event) : bool :=
  match e with EvDispatch _ _ => true | _ => false end.

Definition is_backoff (e : Event) : bool :=
  match e with EvBackoff _ _ => true | _ => false end.

Definition is_rate_wait (e : Event) : bool :=
  match e with EvRateWait _ => true | _ => false end.

(** The requests and backoff sleeps of a trace, without the waits of the
    rate limiter. *)
Definition wire (tr : list Event) : list Event :=
  List.filter (fun e => negb (is_rate_wait e)) tr.

(** [n] attempts in a row that each end in a backoff, from attempt [first]
    on: a request, then a sleep of the square of the attempt's number, in
    seconds. *)
Definition failed_rounds (tweet : string) (first n : nat) : list Event :=
  flat_map
    (fun i => [EvDispatch tweet i;
               EvBackoff i (Z.of_nat i * Z.of_nat i * 1000)])
    (seq first n).

(** Stored preferences ([GM_getValue]); the pipeline only reads them. *)
Record Settings := {
  blacklistedHandles : list string;
  apiKey : string;
  filterThreshold : Z
}.

(** The shared mutable state: the in-flight set, the result cache and its
    persisted copy, the rate limiter's time stamp, the elements of the
    document (by identity), the timers, and the clock [Date.now()] reads. *)
Record World := {
  settings : Settings;
  processedTweets : gset string;
  tweetIDRatingCache : gmap string CacheEntry;
  storedRatings : gmap string CacheEntry;
  lastAPICallTime : Z;
  pendingRequests : Z;
  clock : Z;
  articles : gmap nat Article;
  timers : list Timer;
  trace : list Event
}.

Definition set_processedTweets (s : gset string) (w : World) : World :=
  {| settings := settings w; processedTweets := s;
     tweetIDRatingCache := tweetIDRatingCache w;
     storedRatings := storedRatings w; lastAPICallTime := lastAPICallTime w;
     pendingRequests := pendingRequests w; clock := clock w;
     articles := articles w; timers := timers w; trace := trace w |}.

Definition set_cache (c : gmap string CacheEntry) (w : World) : World :=
  {| settings := settings w; processedTweets := processedTweets w;
     tweetIDRatingCache := c;
     storedRatings := storedRatings w; lastAPICallTime := lastAPICallTime w;
     pendingRequests := pendingRequests w; clock := clock w;
     articles := articles w; timers := timers w; trace := trace w |}.

Definition set_storedRatings (c : gmap string CacheEntry) (w : World)
  : World :=
  {| settings := settings w; processedTweets := processedTweets w;
     tweetIDRatingCache := tweetIDRatingCache w;
     storedRatings := c; lastAPICallTime := lastAPICallTime w;
     pendingRequests := pendingRequests w; clock := clock w;
     articles := articles w; timers := timers w; trace := trace w |}.

Definition set_lastAPICallTime (t : Z) (w : World) : World :=
  {| settings := settings w; processedTweets := processedTweets w;
     tweetIDRatingCache := tweetIDRatingCache w;
     storedRatings := storedRatings w; lastAPICallTime := t;
     pendingRequests := pendingRequests w; clock := clock w;
     articles := articles w; timers := timers w; trace := trace w |}.

Definition set_pendingRequests (n : Z) (w : World) : World :=
  {| settings := settings w; processedTweets := processedTweets w;
     tweetIDRatingCache := tweetIDRatingCache w;
     storedRatings := storedRatings w; lastAPICallTime := lastAPICallTime w;
     pendingRequests := n; clock := clock w;
     articles := articles w; timers := timers w; trace := trace w |}.

Definition set_clock (t : Z) (w : World) : World :=
  {| settings := settings w; processedTweets := processedTweets w;
     tweetIDRatingCache := tweetIDRatingCache w;
     storedRatings := storedRatings w; lastAPICallTime := lastAPICallTime w;
     pendingRequests := pendingRequests w; clock := t;
     articles := articles w; timers := timers w; trace := trace w |}.

Definition set_articles (a : gmap nat Article) (w : World) : World :=
  {| settings := settings w; processedTweets := processedTweets w;
     tweetIDRatingCache := tweetIDRatingCache w;
     storedRatings := storedRatings w; lastAPICallTime := lastAPICallTime w;
     pendingRequests := pendingRequests w; clock := clock w;
     articles := a; timers := timers w; trace := trace w |}.

Definition set_timers (t : list Timer) (w : World) : World :=
  {| settings := settings w; processedTweets := processedTweets w;
     tweetIDRatingCache := tweetIDRatingCache w;
     storedRatings := storedRatings w; lastAPICallTime := lastAPICallTime w;
     pendingRequests := pendingRequests w; clock := clock w;
     articles := articles w; timers := t; trace := trace w |}.

Definition set_trace (t : list Event) (w : World) : World :=
  {| settings := settings w; processedTweets := processedTweets w;
     tweetIDRatingCache := tweetIDRatingCache w;
     storedRatings := storedRatings w; lastAPICallTime := lastAPICallTime w;
     pendingRequests := pendingRequests w; clock := clock w;
     articles := articles w; timers := timers w; trace := t |}.

Definition log (e : Event) (w : World) : World :=
  set_trace (trace w ++ [e]) w.

(** [await new Promise(resolve => setTimeout(resolve, ms))]: the caller
    resumes [ms] later. *)
Definition sleep (ms : Z) (w : World) : World :=
  set_clock (clock w + ms) w.

(** The rate limiter at the head of every attempt, in both source files:
<<
  const now = Date.now();
  const timeElapsed = now - lastAPICallTime;
  if (timeElapsed < API_CALL_DELAY_MS) {
      await new Promise(resolve => setTimeout(resolve, API_CALL_DELAY_MS - timeElapsed));
  }
  lastAPICallTime = now;
>>
    [now] is read before the wait and stored after it. *)
Definition rate_limit (w : World) : World :=
  let now := clock w in
  let timeElapsed := now - lastAPICallTime w in
  let w1 :=
    if timeElapsed <? API_CALL_DELAY_MS
    then sleep (API_CALL_DELAY_MS - timeElapsed)
           (log (EvRateWait (API_CALL_DELAY_MS - timeElapsed)) w)
    else w in
  set_lastAPICallTime now w1.

(** A caller reaches the rate limiter when the clock reads [t]; it is
    released, and its request goes out, when the clock reads [clock] of the
    result. *)
Definition acquire_at (t : Z) (w : World) : World :=
  rate_limit (set_clock t w).

(** The release times of callers that reach the limiter one after the other,
    at the times [arrivals]: each caller arrives after the caller before it
    has been released.  (A caller that arrives while another one waits reads
    the time stamp the waiting one has not written yet; such overlapping
    callers are outside this function.) *)
Fixpoint grants (arrivals : list Z) (w : World) : list Z :=
  match arrivals with
  | [] => []
  | t :: rest => clock (acquire_at t w) :: grants rest (acquire_at t w)
  end.

(** [Math.pow(attempt, 2) * 1000] *)
Definition backoffDelay (attempt : nat) : Z :=
  Z.of_nat attempt ^ 2 * 1000.

(** [saveTweetRatings]: the cache is written to the key-value store.  (The
    counters it refreshes in the settings panel are not modelled.) *)
Definition saveTweetRatings (w : World) : World :=
  set_storedRatings (tweetIDRatingCache w) w.

End Page.

(** ** [api.js] with streaming *)

Module Api.
Import JsString JsValue ScoreExtractor Transport Page.

(** *** Score extraction *)

(** [/SCORE_(\d+)/] *)
Definition head_SCORE (s : string) : option string :=
  strip_prefix "SCORE_" s.

(** [content.match(/SCORE_(\d+)/)], group 1 *)
Definition scoreMatch (content : string) : option string :=
  search head_SCORE content.

(** [scoreMatch ? parseInt(scoreMatch[1], 10) : null] *)
Definition score_of_content (content : string) : option Z :=
  parseInt10 <$> scoreMatch content.

(** *** The streaming decoder: [getCompletionStreaming] *)

(** The three callbacks and what they are handed.  [timedOut] is absent
    ([false] here) on a completion that is not the inactivity timer's. *)
Inductive Callback :=
| OnChunk (chunk : json) (content : string) (data : json)
| OnComplete (content fullResponse : string) (data : json) (timedOut : bool)
| OnError (message : string).

(** The variables [onloadstart] closes over.  [streamTimeout] is the instant
    the pending inactivity timer is due, [reading] says that [processStream]
    is in its loop, suspended in [await reader.read()].  [calls] records the
    callbacks made so far with the time of each. *)
Record Decoder := {
  fullResponse : string;
  content : string;
  responseObj : json;
  streamComplete : bool;
  streamTimeout : option Z;
  reading : bool;
  emptyChunksCount : nat;
  calls : list (Z * Callback)
}.

Definition STREAM_INACTIVITY_MS : Z := 10000.

Definition emit (now : Z) (c : Callback) (d : Decoder) : Decoder :=
  {| fullResponse := fullResponse d; content := content d;
     responseObj := responseObj d; streamComplete := streamComplete d;
     streamTimeout := streamTimeout d; reading := reading d;
     emptyChunksCount := emptyChunksCount d;
     calls := calls d ++ [(now, c)] |}.

Definition set_streamTimeout (t : option Z) (d : Decoder) : Decoder :=
  {| fullResponse := fullResponse d; content := content d;
     responseObj := responseObj d; streamComplete := streamComplete d;
     streamTimeout := t; reading := reading d;
     emptyChunksCount := emptyChunksCount d; calls := calls d |}.

Definition set_streamComplete (b : bool) (d : Decoder) : Decoder :=
  {| fullResponse := fullResponse d; content := content d;
     responseObj := responseObj d; streamComplete := b;
     streamTimeout := streamTimeout d; reading := reading d;
     emptyChunksCount := emptyChunksCount d; calls := calls d |}.

Definition set_reading (b : bool) (d : Decoder) : Decoder :=
  {| fullResponse := fullResponse d; content := content d;
     responseObj := responseObj d; streamComplete := streamComplete d;
     streamTimeout := streamTimeout d; reading := b;
     emptyChunksCount := emptyChunksCount d; calls := calls d |}.

Definition set_emptyChunksCount (n : nat) (d : Decoder) : Decoder :=
  {| fullResponse := fullResponse d; content := content d;
     responseObj := responseObj d; streamComplete := streamComplete d;
     streamTimeout := streamTimeout d; reading := reading d;
     emptyChunksCount := n; calls := calls d |}.

Definition set_fullResponse (s : string) (d : Decoder) : Decoder :=
  {| fullResponse := s; content := content d;
     responseObj := responseObj d; streamComplete := streamComplete d;
     streamTimeout := streamTimeout d; reading := reading d;
     emptyChunksCount := emptyChunksCount d; calls := calls d |}.

Definition set_content (s : string) (d : Decoder) : Decoder :=
  {| fullResponse := fullResponse d; content := s;
     responseObj := responseObj d; streamComplete := streamComplete d;
     streamTimeout := streamTimeout d; reading := reading d;
     emptyChunksCount := emptyChunksCount d; calls := calls d |}.

Definition set_responseObj (j : json) (d : Decoder) : Decoder :=
  {| fullResponse := fullResponse d; content := content d;
     responseObj := j; streamComplete := streamComplete d;
     streamTimeout := streamTimeout d; reading := reading d;
     emptyChunksCount := emptyChunksCount d; calls := calls d |}.

(** [resetStreamTimeout]: the pending timer is replaced by one due a full
    window from now. *)
Definition resetStreamTimeout (now : Z) (d : Decoder) : Decoder :=
  set_streamTimeout (Some (now + STREAM_INACTIVITY_MS)) d.

(** The body of the inactivity timer. *)
Definition timer_fires (now : Z) (d : Decoder) : Decoder :=
  let d := set_streamTimeout None d in
  if streamComplete d then d
  else
    emit now (OnComplete (content d) (fullResponse d) (responseObj d) true)
      (set_streamComplete true d).

(** [parsed.choices && parsed.choices[0] && parsed.choices[0].delta], and then
    [parsed.choices[0].delta.content || ""]: the delta of an event, [None]
    when the guard is falsy. *)
Definition delta_of (parsed : json) : completion (option json) :=
  choices ← get_prop parsed "choices";
  if negb (truthy choices) then Normal None else
  choice ← get_index0 choices;
  if negb (truthy choice) then Normal None else
  delta ← get_prop choice "delta";
  if negb (truthy delta) then Normal None else
  c ← get_prop delta "content";
  Normal (Some (if truthy c then c else JStr "")).

Section Decoder.
Context `{!JsonParser}.

(** One line of a chunk.  The boolean is [true] when the line is the
    [[DONE]] sentinel, which sets [isDone] and leaves the [for] loop.  An
    exception inside the inner [try] is logged and the line is skipped, with
    [responseObj] already assigned when the parse itself succeeded. *)
Definition process_line (now : Z) (line : string) (d : Decoder)
  : Decoder * bool :=
  if startsWith line "data: " then
    let data := substring_from 6 line in
    if String.eqb data "[DONE]" then (d, true)
    else
      match JSON_parse data with
      | Throw _ => (d, false)
      | Normal parsed =>
          let d := set_responseObj parsed d in
          match delta_of parsed with
          | Normal (Some delta) =>
              let d := set_content (content d +:+ js_toString delta) d in
              (emit now (OnChunk delta (content d) parsed) d, false)
          | Normal None | Throw _ => (d, false)
          end
      end
  else (d, false).

Fixpoint process_lines (now : Z) (lines : list string) (d : Decoder)
  : Decoder * bool :=
  match lines with
  | [] => (d, false)
  | line :: rest =>
      let '(d, done) := process_line now line d in
      if done then (d, true) else process_lines now rest d
  end.

(** What follows the [while] loop. *)
Definition finish (now : Z) (d : Decoder) : Decoder :=
  let d := set_reading false d in
  if streamComplete d then d
  else
    let d := set_streamTimeout None (set_streamComplete true d) in
    emit now (OnComplete (content d) (fullResponse d) (responseObj d) false) d.

(** The loop condition [!isDone && !streamComplete], evaluated after an
    iteration. *)
Definition loop_check (now : Z) (isDone : bool) (d : Decoder) : Decoder :=
  if isDone || streamComplete d then finish now d else d.

(** What [reader.read()] settles to. *)
Inductive ReadResult :=
| ReadChunk (chunk : string)
| ReadDone
| ReadFail (err : string).

(** One iteration of the loop, resumed by the read settling. *)
Definition on_read (now : Z) (r : ReadResult) (d : Decoder) : Decoder :=
  if negb (reading d) then d else
  match r with
  | ReadDone => finish now d
  | ReadChunk chunk =>
      let d := resetStreamTimeout now d in
      if trim_is_empty chunk then
        let d := set_emptyChunksCount (S (emptyChunksCount d)) d in
        if (3 <=? emptyChunksCount d)%nat then finish now d
        else loop_check now false d
      else
        let d := set_emptyChunksCount 0 d in
        let d := set_fullResponse (fullResponse d +:+ chunk) d in
        let '(d, done) := process_lines now (split_lines chunk) d in
        loop_check now done d
  | ReadFail err =>
      let d := set_reading false (set_streamTimeout None d) in
      if streamComplete d then d
      else
        emit now (OnError ("Stream processing error: " +:+ err))
          (set_streamComplete true d)
  end.

(** What reaches the decoder from outside: a settled read, or one of the
    request's own [onerror] and [ontimeout] handlers, which call [onError]
    without looking at [streamComplete]. *)
Inductive StreamInput :=
| Read (r : ReadResult)
| XhrError (err : string)
| XhrTimeout.

Definition is_read (i : StreamInput) : bool :=
  match i with Read _ => true | _ => false end.

(** Time passes up to [now]: the inactivity timer runs if it is due.  (A
    timer due at the very instant of an input runs before it.) *)
Definition advance_to (now : Z) (d : Decoder) : Decoder :=
  match streamTimeout d with
  | Some due => if due <=? now then timer_fires due d else d
  | None => d
  end.

Definition step (timeout : Z) (d : Decoder) (e : Z * StreamInput) : Decoder :=
  let '(now, i) := e in
  let d := advance_to now d in
  match i with
  | Read r => on_read now r d
  | XhrError err => emit now (OnError ("Request error: " +:+ err)) d
  | XhrTimeout =>
      emit now (OnError ("Request timed out after " +:+ string_of_Z timeout
                         +:+ "ms")) d
  end.

(** [onloadstart] at time [t0]: [processStream] arms the timer and suspends
    in its first read. *)
Definition onloadstart (t0 : Z) : Decoder :=
  resetStreamTimeout t0
    {| fullResponse := ""; content := ""; responseObj := JNull;
       streamComplete := false; streamTimeout := None; reading := true;
       emptyChunksCount := 0; calls := [] |}.

(** The decoder fed the timed inputs [evs], in order of time. *)
Definition run (timeout t0 : Z) (evs : list (Z * StreamInput)) : Decoder :=
  fold_left (step timeout) evs (onloadstart t0).

(** The decoder as it stands at time [t]: the inputs up to [t] have arrived
    and the timer has run if it was due by then. *)
Definition run_until (timeout t0 : Z) (evs : list (Z * StreamInput)) (t : Z)
  : Decoder :=
  advance_to t (run timeout t0 (filter (fun e => bool_decide (e.1 <= t)) evs)).

(** Nothing more arrives: a timer still pending runs when it is due. *)
Definition quiesce (d : Decoder) : Decoder :=
  match streamTimeout d with
  | Some due => timer_fires due d
  | None => d
  end.

End Decoder.

(** The time of the latest chunk among the inputs, or the time the stream
    opened when there is none. *)
Definition last_chunk_time (t0 : Z) (evs : list (Z * StreamInput)) : Z :=
  fold_left
    (fun t e => match e.2 with Read (ReadChunk _) => e.1 | _ => t end)
    evs t0.

Definition is_chunk_call (c : Callback) : bool :=
  match c with OnChunk _ _ _ => true | _ => false end.

(** The completion and error callbacks of a log. *)
Definition terminals (cs : list (Z * Callback)) : list (Z * Callback) :=
  List.filter (fun c => negb (is_chunk_call c.2)) cs.

(** A chunk that carries the end-of-stream sentinel on a line of its own. *)
Definition has_sentinel (chunk : string) : bool :=
  negb (trim_is_empty chunk)
  && existsb (fun line => String.eqb line "data: [DONE]") (split_lines chunk).

(** A response that arrives as the chunks [cs], each with its time. *)
Definition chunk_reads (cs : list (Z * string)) : list (Z * StreamInput) :=
  map (fun c => (c.1, Read (ReadChunk c.2))) cs.

(** Every chunk arrives less than a full inactivity window after the one
    before it, the first one after the opening of the stream at [t0]. *)
Fixpoint within_window (t0 : Z) (cs : list (Z * string)) : Prop :=
  match cs with
  | [] => True
  | c :: rest =>
      t0 <= c.1 < t0 + STREAM_INACTIVITY_MS ∧ within_window c.1 rest
  end.

(** The deltas handed to [onChunk], in order, and their concatenation. *)
Definition deltas (cs : list (Z * Callback)) : list json :=
  omap (fun c => match c.2 with OnChunk delta _ _ => Some delta | _ => None end)
       cs.

Definition concat_deltas (ds : list json) : string :=
  foldr (fun delta acc => js_toString delta +:+ acc) "" ds.

(** [d'] continues [d] by chunk callbacks only, each delta appended to the
    accumulator; the flags and the timer are as they were. *)
Definition chunks_only (d d' : Decoder) : Prop :=
  streamComplete d' = streamComplete d ∧ reading d' = reading d
  ∧ streamTimeout d' = streamTimeout d
  ∧ emptyChunksCount d' = emptyChunksCount d
  ∧ fullResponse d' = fullResponse d
  ∧ ∃ new, calls d' = calls d ++ new
           ∧ Forall (fun c => is_chunk_call c.2 = true) new
           ∧ content d' = content d +:+ concat_deltas (deltas new).

(** The stream is open: no completion yet, [processStream] is waiting for a
    read, the inactivity timer is due a full window after [t_last], only
    chunk callbacks have been made, and the accumulator is the concatenation
    of their deltas. *)
Definition open_at (d : Decoder) (t_last : Z) : Prop :=
  streamComplete d = false ∧ reading d = true
  ∧ streamTimeout d = Some (t_last + STREAM_INACTIVITY_MS)
  ∧ Forall (fun c => is_chunk_call c.2 = true) (calls d)
  ∧ content d = concat_deltas (deltas (calls d)).

(** The stream was completed by the loop itself (sentinel, end of the
    transport or blank chunks), not by the timer: the log is chunk callbacks
    followed by one completion that carries the concatenation of their
    deltas, and the decoder is at rest. *)
Definition completed_normally (d : Decoder) : Prop :=
  streamComplete d = true ∧ reading d = false ∧ streamTimeout d = None
  ∧ ∃ pre t fr dta,
      calls d = pre ++ [(t, OnComplete (concat_deltas (deltas pre)) fr dta
                            false)]
      ∧ Forall (fun c => is_chunk_call c.2 = true) pre.

(** When the inactivity timer is due after the inputs [evs]: a full window
    after the latest chunk, or after the opening of the stream. *)
Definition inactivity_due (t0 : Z) (evs : list (Z * StreamInput)) : Z :=
  last_chunk_time t0 evs + STREAM_INACTIVITY_MS.

(** The completion the timer makes at time [due] from the decoder [d]: what
    has accumulated so far, marked as timed out. *)
Definition timeout_completion (d : Decoder) (due : Z) : Z * Callback :=
  (due, OnComplete (content d) (fullResponse d) (responseObj d) true).

(** *** One attempt: [rateTweet] and [rateTweetStreaming] *)

(** What an attempt resolves to.  [content] is whatever the response held
    under [choices[0].message.content], or the decoder's aggregate. *)
Record AttemptResult := {
  a_content : json;
  a_error : bool;
  a_data : json
}.

(** [rateTweet], after [getCompletion] has resolved to [result]. *)
Definition rateTweet (result : CompletionResult) : AttemptResult :=
  if negb (error result) && truthy (message_content result) then
    {| a_content := message_content result; a_error := false;
       a_data := data result |}
  else
    {| a_content := JStr (if String.eqb (message result) ""
                          then "Error getting response" else message result);
       a_error := true; a_data := data result |}.

(** The closure of [rateTweetStreaming]: the aggregate of the chunks, and
    what the promise has settled to ([Throw] for a rejection). *)
Record StreamingCall := {
  aggregatedContent : string;
  finalData : json;
  settled : option (completion AttemptResult)
}.

(** The three callbacks [rateTweetStreaming] hands to the decoder.  A promise
    settles once.  (The refreshes of the indicator and of the cache entry of
    the tweet that the callbacks make along the way do not enter what the
    promise settles to and are left out.) *)
Definition consume (s : StreamingCall) (c : Z * Callback) : StreamingCall :=
  match c.2 with
  | OnChunk chunk _ _ =>
      {| aggregatedContent := aggregatedContent s +:+ js_toString chunk;
         finalData := finalData s; settled := settled s |}
  | OnComplete _ _ d _ =>
      {| aggregatedContent := aggregatedContent s;
         finalData := d;
         settled :=
           match settled s with
           | Some r => Some r
           | None =>
               Some (Normal {| a_content := JStr (aggregatedContent s);
                               a_error := false; a_data := d |})
           end |}
  | OnError msg =>
      {| aggregatedContent := aggregatedContent s;
         finalData := finalData s;
         settled :=
           match settled s with
           | Some r => Some r
           | None => Some (Throw msg)
           end |}
  end.

Definition rateTweetStreaming (cs : list (Z * Callback)) : StreamingCall :=
  fold_left consume cs
    {| aggregatedContent := ""; finalData := JNull; settled := None |}.

(** *** The retry loop: [rateTweetWithOpenRouter] *)

Record Rating := {
  rating_score : Z;
  rating_content : string;
  rating_error : bool;
  rating_data : json
}.

Definition failed_rating : Rating :=
  {| rating_score := 5;
     rating_content := "Failed to get valid rating after multiple attempts";
     rating_error := true;
     rating_data := JNull |}.

Section rateTweetWithOpenRouter.

(** [useStreaming ? rateTweetStreaming(...) : rateTweet(...)], awaited: what
    the call of attempt [n] settles to, and the world when it does. *)
Variable attempt_call : nat -> World -> World * completion AttemptResult.

(** [Some r] when the attempt's result carries a score token.  A truthy
    content that is not a string has no [match] method: the TypeError lands
    in the [catch] of the attempt like a rejected call. *)
Definition judge (r : completion AttemptResult) : option Rating :=
  match r with
  | Normal result =>
      if negb (a_error result) && truthy (a_content result) then
        match a_content result with
        | JStr text =>
            match scoreMatch text with
            | Some digits =>
                Some {| rating_score := parseInt10 digits;
                        rating_content := text;
                        rating_error := false;
                        rating_data := a_data result |}
            | None => None
            end
        | _ => None
        end
      else None
  | Throw _ => None
  end.

(** [pendingRequests--] runs once after the call settles, and once more in
    the [catch] when the [match] on a content that is not a string throws. *)
Definition settle_pending (r : completion AttemptResult) (w : World) : World :=
  match r with
  | Normal result =>
      if negb (a_error result) && truthy (a_content result) then
        match a_content result with
        | JStr _ => set_pendingRequests (pendingRequests w - 1) w
        | _ => set_pendingRequests (pendingRequests w - 2) w
        end
      else set_pendingRequests (pendingRequests w - 1) w
  | Throw _ => set_pendingRequests (pendingRequests w - 1) w
  end.

(** The [while (attempt < maxRetries)] loop; [left] is
    [maxRetries - attempt], the number of iterations the condition still
    admits. *)
Fixpoint attempts (tweet : string) (maxRetries : nat) (left attempt : nat)
  (w : World) : World * Rating :=
  match left with
  | O => (w, failed_rating)
  | S left' =>
      let attempt := S attempt in
      let w := rate_limit w in
      let w := set_pendingRequests (pendingRequests w + 1) w in
      let w := log (EvDispatch tweet attempt) w in
      let '(w, r) := attempt_call attempt w in
      let w := settle_pending r w in
      match judge r with
      | Some rating => (w, rating)
      | None =>
          let w :=
            if (attempt <? maxRetries)%nat
            then sleep (backoffDelay attempt)
                   (log (EvBackoff attempt (backoffDelay attempt)) w)
            else w in
          attempts tweet maxRetries left' attempt w
      end
  end.

Definition rateTweetWithOpenRouter (tweet : string) (maxRetries : nat)
  (w : World) : World * Rating :=
  attempts tweet maxRetries maxRetries 0 w.

End rateTweetWithOpenRouter.

(** The non-streaming attempt: the request takes [latency] and the client
    reports [outcome]. *)
Definition attempt_non_streaming `{!JsonParser}
  (net : nat -> Z * NetOutcome) (n : nat) (w : World)
  : World * completion AttemptResult :=
  let '(latency, outcome) := net n in
  (sleep latency w, Normal (rateTweet (getCompletion 30000 outcome))).

(** The streaming attempt: the stream opens at once and delivers [feed n],
    timed from its opening, and then nothing more; the promise settles at the
    first completion or error callback. *)
Fixpoint settle_time (cs : list (Z * Callback)) (t0 : Z) : Z :=
  match cs with
  | [] => t0
  | (_, OnChunk _ _ _) :: rest => settle_time rest t0
  | (t, _) :: _ => t
  end.

Definition attempt_streaming `{!JsonParser}
  (feed : nat -> list (Z * StreamInput)) (n : nat) (w : World)
  : World * completion AttemptResult :=
  let t0 := clock w in
  let evs := map (fun e => (t0 + e.1, e.2)) (feed n) in
  let cs := calls (quiesce (run 30000 t0 evs)) in
  (set_clock (settle_time cs t0) w,
   match settled (rateTweetStreaming cs) with
   | Some r => r
   | None => Throw "pending"
   end).

End Api.

(** ** The rating token, in the specification's words *)

Module TokenSpec.
Import JsString.

(** [text] holds a rating token: [SCORE_] followed by at least one digit. *)
Definition has_token (text : string) : Prop :=
  ∃ pre ds post,
    text = pre +:+ "SCORE_" +:+ ds +:+ post ∧ ds ≠ "" ∧ all_digits ds = true.

(** [ds] is the digits of the first token of [text]: all the digits that
    follow its [SCORE_], with no token before it. *)
Definition first_token (text ds : string) : Prop :=
  ∃ pre post,
    text = pre +:+ "SCORE_" +:+ ds +:+ post ∧ ds ≠ "" ∧ all_digits ds = true
    ∧ starts_with_digit post = false ∧ ¬ has_token pre.

End TokenSpec.

(** ** The bundled userscript: [api.js] and [ratingEngine.js] *)

Module Bundle.
Import JsString JsValue ScoreExtractor Transport Page.

(** *** Score extraction *)

(** [/\SCORE_(\d+)/]: the pattern of the bundled [api.js] opens with a
    backslash, and [\S] is the class of the code units that are not white
    space; what follows it is [CORE_]. *)
Definition head_SCORE (s : string) : option string :=
  match s with
  | "" => None
  | String c r => if is_space c then None else strip_prefix "CORE_" r
  end.

(** [content.match(/\SCORE_(\d+)/)], group 1 *)
Definition scoreMatch (content : string) : option string :=
  search head_SCORE content.

Definition score_of_content (content : string) : option Z :=
  parseInt10 <$> scoreMatch content.

(** *** The retry loop: [rateTweetWithOpenRouter] *)

Record Rating := {
  rating_score : Z;
  rating_content : string;
  rating_error : bool
}.

Definition failed_rating : Rating :=
  {| rating_score := 5;
     rating_content := "Failed to get valid rating after multiple attempts";
     rating_error := true |}.

(** What an attempt's response amounts to.  [Scored content digits]: the
    content is a string and the pattern matches it, group 1 being [digits].
    [Thrown]: the content is truthy and not a string, so it has no [match]
    method and the call throws a TypeError.  [NoScore]: anything else, an
    error result, an absent or empty content, a string without a match. *)
Inductive Verdict :=
| Scored (content digits : string)
| NoScore
| Thrown.

(** [!result.error && result.data?.choices?.[0]?.message?.content], then
    [content.match(/\SCORE_(\d+)/)] *)
Definition verdict (result : CompletionResult) : Verdict :=
  if negb (error result) && truthy (message_content result) then
    match message_content result with
    | JStr content =>
        match scoreMatch content with
        | Some digits => Scored content digits
        | None => NoScore
        end
    | _ => Thrown
    end
  else NoScore.

Section rateTweetWithOpenRouter.
Context `{!JsonParser}.

(** The request of attempt [n] takes the first component of [net n] and the
    client reports the second. *)
Variable net : nat -> Z * NetOutcome.

(** The [while (attempt < maxRetries)] loop; [left] is
    [maxRetries - attempt], the number of iterations the condition still
    admits. *)
Fixpoint attempts (tweetText tweetId : string) (maxRetries : nat)
  (left attempt : nat) (w : World) : World * completion Rating :=
  match left with
  | O => (w, Normal failed_rating)
  | S left' =>
      let attempt := S attempt in
      let w := rate_limit w in
      let w := set_pendingRequests (pendingRequests w + 1) w in
      let w := log (EvDispatch tweetId attempt) w in
      let w := sleep (net attempt).1 w in
      let result := getCompletion 30000 (net attempt).2 in
      let w := set_pendingRequests (pendingRequests w - 1) w in
      match verdict result with
      | Scored content digits =>
          let score := parseInt10 digits in
          let w :=
            set_cache
              (<[tweetId := {| tweetContent := tweetText;
                               score := score;
                               description := content;
                               streaming := None;
                               timestamp := None |}]>
                 (tweetIDRatingCache w)) w in
          (saveTweetRatings w,
           Normal {| rating_score := score; rating_content := content;
                     rating_error := false |})
      | Thrown => (w, Throw type_error)
      | NoScore =>
          let w :=
            if (attempt <? maxRetries)%nat
            then sleep (backoffDelay attempt)
                   (log (EvBackoff attempt (backoffDelay attempt)) w)
            else w in
          attempts tweetText tweetId maxRetries left' attempt w
      end
  end.

Definition rateTweetWithOpenRouter (tweetText tweetId : string)
  (maxRetries : nat) (w : World) : World * completion Rating :=
  attempts tweetText tweetId maxRetries maxRetries 0 w.

End rateTweetWithOpenRouter.

(** *** The rating engine *)

(** [isUserBlacklisted] *)
Definition isUserBlacklisted (handles : list string) (handle : string) : bool :=
  if String.eqb handle "" then false
  else
    let handle := trim (toLowerCase handle) in
    existsb (fun h => String.eqb (trim (toLowerCase h)) handle) handles.

(** [handles.length > 0 ? handles[0] : ''] *)
Definition firstHandle (a : Article) : string :=
  match userHandles a with
  | h :: _ => h
  | [] => ""
  end.

Definition set_dataset (d : Dataset) (a : Article) : Article :=
  {| tweetId := tweetId a; userHandles := userHandles a; dataset := d;
     indicator := indicator a; hidden := hidden a |}.

Definition set_indicator (i : option Indicator) (a : Article) : Article :=
  {| tweetId := tweetId a; userHandles := userHandles a;
     dataset := dataset a; indicator := i; hidden := hidden a |}.

Definition set_hidden (h : bool) (a : Article) : Article :=
  {| tweetId := tweetId a; userHandles := userHandles a;
     dataset := dataset a; indicator := indicator a; hidden := h |}.

Definition set_sloppinessScore (s : Z) (a : Article) : Article :=
  set_dataset
    {| sloppinessScore := Some s; blacklisted := blacklisted (dataset a);
       ratingStatus := ratingStatus (dataset a);
       ratingDescription := ratingDescription (dataset a);
       cachedRating := cachedRating (dataset a) |} a.

Definition set_blacklisted (a : Article) : Article :=
  set_dataset
    {| sloppinessScore := sloppinessScore (dataset a); blacklisted := true;
       ratingStatus := ratingStatus (dataset a);
       ratingDescription := ratingDescription (dataset a);
       cachedRating := cachedRating (dataset a) |} a.

Definition set_ratingStatus (s : Status) (a : Article) : Article :=
  set_dataset
    {| sloppinessScore := sloppinessScore (dataset a);
       blacklisted := blacklisted (dataset a);
       ratingStatus := Some s;
       ratingDescription := ratingDescription (dataset a);
       cachedRating := cachedRating (dataset a) |} a.

Definition set_ratingDescription (s : string) (a : Article) : Article :=
  set_dataset
    {| sloppinessScore := sloppinessScore (dataset a);
       blacklisted := blacklisted (dataset a);
       ratingStatus := ratingStatus (dataset a);
       ratingDescription := Some s;
       cachedRating := cachedRating (dataset a) |} a.

Definition set_cachedRating (a : Article) : Article :=
  set_dataset
    {| sloppinessScore := sloppinessScore (dataset a);
       blacklisted := blacklisted (dataset a);
       ratingStatus := ratingStatus (dataset a);
       ratingDescription := ratingDescription (dataset a);
       cachedRating := true |} a.

(** [!!tweetArticle.querySelector('.score-indicator')] *)
Definition hasIndicator (a : Article) : bool :=
  match indicator a with Some _ => true | None => false end.

(** [setScoreIndicator]: the indicator is created when the article has none,
    and its class, text and description are overwritten. *)
Definition setScoreIndicator (score : option Z) (status : Status)
  (description : string) (a : Article) : Article :=
  let '(cls, text) :=
    match status with
    | Pending => (pending_rating, Hourglass)
    | Errored => (error_rating, Warning)
    | Cached => (cached_rating, ScoreText score)
    | Blacklisted => (blacklisted_rating, ScoreText score)
    | Rated | Streaming => (rated_rating, ScoreText score)
    end in
  set_indicator
    (Some {| ind_class := cls; ind_text := text;
             ind_description := description |}) a.

(** [filterSingleTweet]: the indicator is redrawn from the dataset, and the
    cell is hidden when the tweet is not pending and its score is below the
    threshold. *)
Definition filterSingleTweet (threshold : Z) (a : Article) : Article :=
  let score := default 1 (sloppinessScore (dataset a)) in
  let a :=
    setScoreIndicator (Some score)
      (default Rated (ratingStatus (dataset a)))
      (default "" (ratingDescription (dataset a))) a in
  match ratingStatus (dataset a) with
  | Some Pending => set_hidden false a
  | _ => set_hidden (score <? threshold) a
  end.

(** An element is written back to the document under its identity. *)
Definition put_article (el : nat) (a : Article) (w : World) : World :=
  set_articles (<[el := a]> (articles w)) w.

Definition threshold (w : World) : Z := filterThreshold (settings w).

Definition isBlacklistedAuthor (w : World) (a : Article) : bool :=
  negb (String.eqb (firstHandle a) "")
  && isUserBlacklisted (blacklistedHandles (settings w)) (firstHandle a).

(** [applyTweetCachedRating]: the article after the call, and whether a
    rating was applied. *)
Definition applyTweetCachedRating (w : World) (a : Article) : Article * bool :=
  if isBlacklistedAuthor w a then
    let a := set_sloppinessScore 10 a in
    let a := set_blacklisted a in
    let a := set_ratingStatus Blacklisted a in
    let a := set_ratingDescription "Whtielisted user" a in
    let a := setScoreIndicator (Some 10) Blacklisted "User is whitelisted" a in
    (filterSingleTweet (threshold w) a, true)
  else
    match tweetIDRatingCache w !! tweetId a with
    | Some entry =>
        let a := set_sloppinessScore (score entry) a in
        let a := set_cachedRating a in
        let a := set_ratingStatus Cached a in
        let a := set_ratingDescription (description entry) a in
        let a :=
          setScoreIndicator (Some (score entry)) Cached (description entry) a in
        (filterSingleTweet (threshold w) a, true)
    | None => (a, false)
    end.

(** What the collaborators of one pipeline run deliver: the text
    [getFullContext] assembles (empty when it fails) and the time it takes,
    and the network's answer to each attempt. *)
Record Oracle := {
  context : string;
  context_delay : Z;
  net : nat -> Z * NetOutcome
}.

(** The [finally] clause of [delayedProcessTweet]. *)
Definition finally (processingSuccessful : bool) (id : string) (w : World)
  : World :=
  if processingSuccessful then w
  else set_processedTweets (processedTweets w ∖ {[id]}) w.

(** The common tail of the rating branch: the score is written to the
    dataset and the indicator is redrawn. *)
Definition finish_rating (w : World) (score : Z) (a : Article) : Article :=
  let a := set_sloppinessScore score a in
  let a :=
    setScoreIndicator (Some score)
      (default Rated (ratingStatus (dataset a)))
      (default "" (ratingDescription (dataset a))) a in
  filterSingleTweet (threshold w) a.

(** [description || "not available"] *)
Definition or_not_available (s : string) : string :=
  if String.eqb s "" then "not available" else s.

Section delayedProcessTweet.
Context `{!JsonParser}.

(** [delayedProcessTweet(tweetArticle, tweetId)], run to its end; [id] is the
    ID the timer's closure holds.  The awaits inside are points where the
    world may change under the function; here it runs on its own. *)
Definition delayedProcessTweet (o : Oracle) (el : nat) (id : string)
  (w : World) : World :=
  match articles w !! el with
  | None => w
  | Some a =>
      if String.eqb (apiKey (settings w)) "" then
        let a := set_ratingStatus Errored a in
        let a := set_ratingDescription "No API key" a in
        let a := setScoreIndicator (Some 5) Errored "No API key" a in
        let a := filterSingleTweet (threshold w) a in
        set_processedTweets (processedTweets w ∖ {[id]}) (put_article el a w)
      else if isBlacklistedAuthor w a then
        let a := set_sloppinessScore 10 a in
        let a := set_blacklisted a in
        let a := set_ratingStatus Blacklisted a in
        let a := set_ratingDescription "Blacklisted user" a in
        let a :=
          setScoreIndicator (Some 10) Blacklisted "User is blacklisted" a in
        let a := filterSingleTweet (threshold w) a in
        finally true id (put_article el a w)
      else
        match applyTweetCachedRating w a with
        | (a, true) => finally (hasIndicator a) id (put_article el a w)
        | (_, false) =>
            let w := sleep (context_delay o) w in
            if String.eqb (context o) "" then
              (* throw new Error("Failed to get tweet context") *)
              let a :=
                match sloppinessScore (dataset a) with
                | Some _ => a
                | None =>
                    let a := set_sloppinessScore 5 a in
                    let a := set_ratingStatus Errored a in
                    let a := set_ratingDescription "error processing tweet" a in
                    let a :=
                      setScoreIndicator (Some 5) Errored
                        "Error processing tweet" a in
                    filterSingleTweet (threshold w) a
                end in
              finally false id (put_article el a w)
            else
              match rateTweetWithOpenRouter (net o) (context o) id
                      MAX_RETRIES w with
              | (w, Normal rating) =>
                  let score := rating_score rating in
                  let description := rating_content rating in
                  let a :=
                    set_ratingStatus
                      (if rating_error rating then Errored else Rated) a in
                  let a :=
                    set_ratingDescription (or_not_available description) a in
                  let a := set_sloppinessScore score a in
                  let a :=
                    setScoreIndicator (Some score)
                      (default Rated (ratingStatus (dataset a)))
                      (default "" (ratingDescription (dataset a))) a in
                  let a := filterSingleTweet (threshold w) a in
                  let entry :=
                    match tweetIDRatingCache w !! id with
                    | Some e =>
                        {| tweetContent := context o; score := score;
                           description := description;
                           streaming := streaming e;
                           timestamp := timestamp e |}
                    | None =>
                        {| tweetContent := context o; score := score;
                           description := description;
                           streaming := None; timestamp := None |}
                    end in
                  let w := set_cache (<[id := entry]> (tweetIDRatingCache w)) w in
                  let w := saveTweetRatings w in
                  let a := finish_rating w score a in
                  finally (negb (rating_error rating)) id (put_article el a w)
              | (w, Throw _) =>
                  let a := set_ratingStatus Errored a in
                  let a := set_ratingDescription "API error" a in
                  let a := finish_rating w 10 a in
                  finally false id (put_article el a w)
              end
        end
  end.

End delayedProcessTweet.

(** [scheduleTweetProcessing(tweetArticle)].  [tweetId a] is the ID the
    call of [getTweetID] at the head of the function returns. *)
Definition scheduleTweetProcessing (el : nat) (w : World) : World :=
  match articles w !! el with
  | None => w
  | Some a =>
      let id := tweetId a in
      if String.eqb id "" then w
      else if isBlacklistedAuthor w a then
        let a := set_sloppinessScore 10 a in
        let a := set_blacklisted a in
        let a := set_ratingStatus Rated a in
        let a := set_ratingDescription "Whitelisted user" a in
        let a :=
          setScoreIndicator (Some 10) Blacklisted "User is whitelisted" a in
        put_article el (filterSingleTweet (threshold w) a) w
      else
        match tweetIDRatingCache w !! id with
        | Some _ => put_article el (applyTweetCachedRating w a).1 w
        | None =>
            if bool_decide (id ∈ processedTweets w) && hasIndicator a then w
            else
              (* processedTweets.delete(tweetId) when marked without an
                 indicator, then processedTweets.add(tweetId) *)
              let w :=
                if bool_decide (id ∈ processedTweets w)
                then set_processedTweets (processedTweets w ∖ {[id]}) w
                else w in
              let w := set_processedTweets ({[id]} ∪ processedTweets w) w in
              let a := set_ratingStatus Pending a in
              let a := setScoreIndicator None Pending "" a in
              let w := put_article el a w in
              set_timers
                (timers w ++
                 [ {| fire_at := clock w + PROCESSING_DELAY_MS;
                      timer_el := el; timer_tweetId := id |} ]) w
        end
  end.

(** One iteration of the [forEach] of [ensureAllTweetsRated]; [tweetId a]
    is the ID [getTweetID] returns in it. *)
Definition ensureTweetRated (w : World) (el : nat) : World :=
  match articles w !! el with
  | None => w
  | Some a =>
      let id := tweetId a in
      if String.eqb id "" then w
      else
        let hasScore :=
          match sloppinessScore (dataset a) with
          | Some _ => true | None => false
          end in
        let hasError :=
          match ratingStatus (dataset a) with
          | Some Errored => true | _ => false
          end in
        let w :=
          if bool_decide (id ∈ processedTweets w) && negb (hasIndicator a)
          then set_processedTweets (processedTweets w ∖ {[id]}) w
          else w in
        let needsProcessing :=
          negb hasScore || hasError || negb (hasIndicator a) in
        if needsProcessing && negb (bool_decide (id ∈ processedTweets w))
        then scheduleTweetProcessing el w
        else w
  end.

(** [ensureAllTweetsRated] over the articles of the observed container. *)
Definition ensureAllTweetsRated (tweets : list nat) (w : World) : World :=
  fold_left ensureTweetRated tweets w.

(** The oldest pending timer comes due and its pipeline runs. *)
Definition fire `{!JsonParser} (o : Oracle) (w : World) : World :=
  match timers w with
  | [] => w
  | t :: rest =>
      let w := set_timers rest w in
      let w := set_clock (Z.max (clock w) (fire_at t)) w in
      delayedProcessTweet o (timer_el t) (timer_tweetId t) w
  end.

(** What an element of the document shows. *)
Definition ratingStatus_of (el : nat) (w : World) : option Status :=
  articles w !! el ≫= fun a => ratingStatus (dataset a).

Definition sloppinessScore_of (el : nat) (w : World) : option Z :=
  articles w !! el ≫= fun a => sloppinessScore (dataset a).

Definition indicator_of (el : nat) (w : World) : option Indicator :=
  articles w !! el ≫= indicator.

(** The requests the pipeline has sent: one [EvDispatch] each. *)
Definition dispatches (w : World) : nat :=
  length (List.filter is_dispatch (trace w)).

End Bundle.

(** ** Sample data for the worked instances *)

Module Fixtures.
Import JsString JsValue Transport Page.

(** A host whose [JSON.parse] rejects every text: enough for the runs in
    which no 2xx body and no event payload is ever parsed. *)
Definition no_json : JsonParser := fun _ => Throw "SyntaxError".

(** A host whose [JSON.parse] knows the texts of [tbl]. *)
Definition json_table (tbl : list (string * json)) : JsonParser :=
  fun text => lookup_field_or_throw text tbl.

(** The settings of a configured user with one allow-listed author, stored
    in lower case with a blank after it. *)
Definition settings0 : Settings :=
  {| blacklistedHandles := ["trusted_author "];
     apiKey := "sk-or-v1-test";
     filterThreshold := 5 |}.

(** A fresh page: nothing processed, nothing cached, no timer. *)
Definition world0 : World :=
  {| settings := settings0;
     processedTweets := ∅;
     tweetIDRatingCache := ∅;
     storedRatings := ∅;
     lastAPICallTime := 0;
     pendingRequests := 0;
     clock := 1000000;
     articles := ∅;
     timers := [];
     trace := [] |}.

Definition dataset0 : Dataset :=
  {| sloppinessScore := None; blacklisted := false; ratingStatus := None;
     ratingDescription := None; cachedRating := false |}.

(** A freshly rendered tweet by [handle]. *)
Definition article0 (id handle : string) : Article :=
  {| tweetId := id; userHandles := [handle]; dataset := dataset0;
     indicator := None; hidden := false |}.

(** A text with every apostrophe turned into a double quote: the JSON texts
    below are written with apostrophes. *)
Fixpoint dq (s : string) : string :=
  match s with
  | "" => ""
  | String c r => String (if Ascii.eqb c "'" then "034"%char else c) (dq r)
  end.

(** A response in which the provider's safety filter left the message
    empty. *)
Definition body_safety : string :=
  dq "{'id':'gen-1','choices':[{'message':{'role':'assistant','content':''},'finish_reason':'stop','native_finish_reason':'SAFETY'}]}".

Definition json_safety : json :=
  JObj [("id", JStr "gen-1");
        ("choices",
         JArr [JObj [("message",
                      JObj [("role", JStr "assistant"); ("content", JStr "")]);
                     ("finish_reason", JStr "stop");
                     ("native_finish_reason", JStr "SAFETY")]])].

(** A body with an empty [content] at its top level, which no completions
    response has. *)
Definition body_top_level_content : string :=
  dq "{'content':'','choices':[{'native_finish_reason':'SAFETY'}]}".

Definition json_top_level_content : json :=
  JObj [("content", JStr "");
        ("choices", JArr [JObj [("native_finish_reason", JStr "SAFETY")]])].

(** A response that rates the tweet. *)
Definition body_rated : string :=
  dq "{'choices':[{'message':{'role':'assistant','content':'Thoughtful thread. SCORE_8'}}]}".

Definition json_rated : json :=
  JObj [("choices",
         JArr [JObj [("message",
                      JObj [("role", JStr "assistant");
                            ("content", JStr "Thoughtful thread. SCORE_8")])]])].

(** The payloads of three event frames, and the frames as they arrive. *)
Definition payload (delta : string) : string :=
  dq "{'choices':[{'delta':{'content':'" +:+ delta +:+ dq "'}}]}".

Definition json_frame (delta : string) : json :=
  JObj [("choices", JArr [JObj [("delta", JObj [("content", JStr delta)])]])].

Definition frame (delta : string) : string :=
  "data: " +:+ payload delta +:+ String "010" "".

Definition parser0 : JsonParser :=
  json_table [(body_safety, json_safety);
              (body_top_level_content, json_top_level_content);
              (body_rated, json_rated);
              (payload "Good ", json_frame "Good ");
              (payload "tweet. ", json_frame "tweet. ");
              (payload "SCORE_9", json_frame "SCORE_9")].

(** Every request ends in HTTP 500 after 120 ms. *)
Definition net_500 : nat -> Z * NetOutcome :=
  fun _ => (120, Load 500 "Internal Server Error").

(** A response of three deltas that ends with the sentinel; the stream opens
    at time 0. *)
Definition chunks_done : list (Z * string) :=
  [ (200, frame "Good ");
    (400, frame "tweet. " +:+ frame "SCORE_9");
    (600, "data: [DONE]" +:+ String "010" "") ].

(** The same deltas without a sentinel: the provider falls silent. *)
Definition chunks_stalled : list (Z * string) :=
  [ (200, frame "Good ");
    (400, frame "tweet. " +:+ frame "SCORE_9") ].

(** A blank chunk after nine seconds, the sentinel after eighteen. *)
Definition chunks_blank_then_done : list (Z * string) :=
  [ (9000, " "); (18000, "data: [DONE]") ].

(** A delta, eleven seconds of silence, then another delta and the
    sentinel. *)
Definition chunks_late : list (Z * string) :=
  [ (200, frame "Good ");
    (11200, frame "tweet. " +:+ "data: [DONE]") ].

(** The page with one rendered tweet, element 0. *)
Definition page_with (a : Article) : World :=
  set_articles (<[0%nat := a]> (articles world0)) world0.

Definition tweet_1871 : Article := article0 "1871" "someone".

(** A tweet by the allow-listed author; the link spells the handle with
    capitals. *)
Definition tweet_trusted : Article := article0 "1900" "Trusted_Author".

(** A tweet that was rated in an earlier session and is rendered anew: its ID
    is in the in-flight set and in the cache, and the new element has no
    indicator. *)
Definition page_rerendered : World :=
  set_cache
    {[ "1871" := {| tweetContent := "[TWEET 1871]"; score := 8;
                    description := "Thoughtful thread. SCORE_8";
                    streaming := None; timestamp := None |} ]}
    (set_processedTweets {[ "1871" ]} (page_with tweet_1871)).

(** The collaborators of a pipeline run whose every request ends in HTTP
    500. *)
Definition oracle_500 : Bundle.Oracle :=
  {| Bundle.context := "[TWEET 1871] Author:@someone: hello";
     Bundle.context_delay := 300;
     Bundle.net := net_500 |}.

(** The collaborators of a pipeline run whose first request is answered
    with a rating after 120 ms. *)
Definition oracle_rated : Bundle.Oracle :=
  {| Bundle.context := "[TWEET 1871] Author:@someone: hello";
     Bundle.context_delay := 300;
     Bundle.net := fun _ => (120, Load 200 body_rated) |}.

End Fixtures.

(** ** The callback log of the streaming decoder *)

Module Streams.
Import JsString JsValue Transport Api.

(** The completion callbacks of a log. *)
Definition is_complete_call (c : Callback) : bool :=
  match c with OnComplete _ _ _ _ => true | _ => false end.

Definition completions (cs : list (Z * Callback)) : list (Z * Callback) :=
  List.filter (fun c => is_complete_call c.2) cs.

(** Every callback of the log carries the concatenation of the deltas handed
    out up to it: a chunk callback the deltas up to and including its own, a
    completion callback the deltas before it.  [acc] is the concatenation of
    the deltas before the log. *)
Fixpoint consistent_from (acc : string) (cs : list (Z * Callback)) : Prop :=
  match cs with
  | [] => True
  | (_, OnChunk delta content _) :: rest =>
      content = acc +:+ js_toString delta ∧ consistent_from content rest
  | (_, OnComplete content _ _ _) :: rest =>
      content = acc ∧ consistent_from acc rest
  | (_, OnError _) :: rest => consistent_from acc rest
  end.

(** The decoder's log is consistent and its accumulator is the concatenation
    of the deltas of the log. *)
Definition log_ok (d : Decoder) : Prop :=
  consistent_from "" (calls d)
  ∧ content d = concat_deltas (deltas (calls d)).

(** The callbacks [f] selects are made once at most, and only by what
    completes the stream. *)
Definition at_most_once (f : Callback → bool) (d : Decoder) : Prop :=
  if streamComplete d
  then (length (List.filter (fun c => f c.2) (calls d)) ≤ 1)%nat
  else List.filter (fun c => f c.2) (calls d) = [].

(** A line the [for] loop passes over: it is not an event line, or its
    payload is not the sentinel and does not parse. *)
Definition skipped_line `{!JsonParser} (line : string) : bool :=
  negb (startsWith line "data: ")
  || (negb (String.eqb (substring_from 6 line) "[DONE]")
      && match JSON_parse (substring_from 6 line) with
         | Throw _ => true
         | Normal _ => false
         end).

End Streams.

(** ** Closed forms for the retry loop *)

Module PatternSpec.
Import JsString.

(** Wherever [CORE_] and a digit follow a code unit of [text], that code
    unit is an [S] or white space: every such [CORE_] belongs to a rating
    token or starts a word. *)
Fixpoint only_SCORE_tokens (text : string) : bool :=
  match text with
  | "" => true
  | String c r =>
      (negb (match strip_prefix "CORE_" r with
             | Some post => starts_with_digit post
             | None => false
             end)
       || Ascii.eqb c "S" || is_space c)
      && only_SCORE_tokens r
  end.

End PatternSpec.

Module LimiterSpec.
Import Page.

(** The release times of callers that reach the rate limiter one after the
    other, in closed form: a caller is released when it arrives, or 250 ms
    after the arrival of the caller before it, whichever is later.  [last]
    is the time stamp the first caller finds. *)
Fixpoint expected_grants (last : Z) (arrivals : list Z) : list Z :=
  match arrivals with
  | [] => []
  | t :: rest => Z.max t (last + API_CALL_DELAY_MS) :: expected_grants t rest
  end.

(** The callers come one at a time: each arrives after the caller before
    it has been released.  [last] is the time stamp the first caller
    finds. *)
Fixpoint one_at_a_time (last : Z) (arrivals : list Z) : bool :=
  match arrivals with
  | [] => true
  | t :: rest =>
      match rest with
      | [] => true
      | next :: _ => Z.max t (last + API_CALL_DELAY_MS) <? next
      end
      && one_at_a_time t rest
  end.

End LimiterSpec.

Module RetrySpec.

(** The time [n] attempts without a score take, from the request of attempt
    [first] to the moment the loop turns to attempt [first + n]: for each of
    them the time its request takes and the backoff sleep after it, the
    square of the attempt's number in seconds. *)
Definition elapsed (latency : nat -> Z) (first n : nat) : Z :=
  fold_right Z.add 0
    (map (fun i => latency i + Z.of_nat i * Z.of_nat i * 1000) (seq first n)).

End RetrySpec.

Module TransportSpec.
Import Transport.

(** What the HTTP client reports is a failure of the transport: a status
    outside 200..299, a network error or a timeout. *)
Definition is_transport_failure (o : NetOutcome) : bool :=
  match o with
  | Load status _ => negb ((200 <=? status) && (status <? 300))
  | NetError _ | NetTimeout => true
  end.

End TransportSpec.

(** ** What the fast paths write on an article *)

Module Marks.
Import JsString JsValue Page Bundle.

(** The article as the allow-list fast path of [scheduleTweetProcessing]
    leaves it. *)
Definition allow_listed (threshold : Z) (a : Article) : Article :=
  filterSingleTweet threshold
    (setScoreIndicator (Some 10) Blacklisted "User is whitelisted"
       (set_ratingDescription "Whitelisted user"
          (set_ratingStatus Rated
             (set_blacklisted (set_sloppinessScore 10 a))))).

(** The article as [applyTweetCachedRating] leaves it for the cache entry
    [entry]. *)
Definition cached (threshold : Z) (entry : CacheEntry) (a : Article)
  : Article :=
  filterSingleTweet threshold
    (setScoreIndicator (Some (score entry)) Cached (description entry)
       (set_ratingDescription (description entry)
          (set_ratingStatus Cached
             (set_cachedRating (set_sloppinessScore (score entry) a))))).

(** The article as [scheduleTweetProcessing] leaves it when it queues a
    pipeline run. *)
Definition pending (a : Article) : Article :=
  setScoreIndicator None Pending "" (set_ratingStatus Pending a).

(** The article as the pipeline leaves it after a rating [status], [score]
    and [description]. *)
Definition rated (threshold : Z) (status : Status) (score : Z)
  (description : string) (a : Article) : Article :=
  filterSingleTweet threshold
    (setScoreIndicator (Some score) status description
       (set_sloppinessScore score
          (set_ratingDescription description (set_ratingStatus status a)))).

(** Whether [filterSingleTweet] hides a tweet with this dataset. *)
Definition hides (threshold : Z) (d : Dataset) : bool :=
  match ratingStatus d with
  | Some Pending => false
  | _ => default 1 (sloppinessScore d) <? threshold
  end.

(** [needsProcessing] of [ensureAllTweetsRated]:
    [!hasScore || hasError || !hasIndicator]. *)
Definition needsProcessing (a : Article) : bool :=
  negb (match sloppinessScore (dataset a) with
        | Some _ => true
        | None => false
        end)
  || match ratingStatus (dataset a) with
     | Some Errored => true
     | _ => false
     end
  || negb (hasIndicator a).

(** The in-flight set after the sweep has looked at a tweet: the ID is
    taken out when the article has no indicator. *)
Definition swept (a : Article) (w : World) : World :=
  if bool_decide (tweetId a ∈ processedTweets w) && negb (hasIndicator a)
  then set_processedTweets (processedTweets w ∖ {[tweetId a]}) w
  else w.

End Marks.

(** ** [domScraper.js]: the ID and the handles of a tweet *)

Module Dom.
Import JsString ScoreExtractor.

(** [s.indexOf(p)]: the first position at which [p] occurs in [s]; [None]
    stands for -1. *)
Fixpoint indexOf (s p : string) : option nat :=
  if startsWith s p then Some 0%nat
  else match s with
       | "" => None
       | String _ r => S <$> indexOf r p
       end.

(** [/\/status\/(\d+)/] *)
Definition head_status (s : string) : option string :=
  strip_prefix "/status/" s.

(** [getTweetID].  [href] is [timeEl?.parentElement?.href], the target of
    the permalink around the time stamp ([None] when there is none);
    [random] is what [Math.random().toString(36).substring(2, 15)] yields
    and [now] what [Date.now()] reads, for the made-up ID of a tweet without
    a permalink. *)
Definition getTweetID (href : option string) (random : string) (now : Z)
  : string :=
  let made_up :=
    "tweet-" +:+ random +:+ "-" +:+ JsValue.string_of_Z now in
  match href with
  | Some tweetId =>
      if negb (String.eqb tweetId "") && includes tweetId "/status/" then
        match search head_status tweetId with
        | Some digits =>
            if negb (String.eqb digits "") then digits
            else
              substring_from
                (match indexOf tweetId "/status/" with
                 | Some i => S i
                 | None => 0%nat
                 end) tweetId
        | None =>
            substring_from
              (match indexOf tweetId "/status/" with
               | Some i => S i
               | None => 0%nat
               end) tweetId
        end
      else made_up
  | None => made_up
  end.

(** [getUserHandles].  [hrefs] are the [href] attributes of the links under
    the user name, in document order ([None] for a link without one). *)
Definition getUserHandles (hrefs : list (option string)) : list string :=
  let handles :=
    omap (fun href =>
            match href with
            | Some (String "/" handle) => Some handle
            | _ => None
            end) hrefs in
  match handles with
  | [] => [""]
  | _ :: _ => handles
  end.

End Dom.

(** ** [ui.js]: the settings that reach the pipeline *)

Module Ui.
Import JsString JsValue Page Bundle.

Definition with_settings (s : Settings) (w : World) : World :=
  {| settings := s; processedTweets := processedTweets w;
     tweetIDRatingCache := tweetIDRatingCache w;
     storedRatings := storedRatings w; lastAPICallTime := lastAPICallTime w;
     pendingRequests := pendingRequests w; clock := clock w;
     articles := articles w; timers := timers w; trace := trace w |}.

(** One iteration of the [forEach] of [applyFilteringToAll]. *)
Definition applyFilter (w : World) (el : nat) : World :=
  match articles w !! el with
  | Some a => put_article el (filterSingleTweet (threshold w) a) w
  | None => w
  end.

(** [applyFilteringToAll] over the articles of the observed container
    (none when no container is observed). *)
Definition applyFilteringToAll (tweets : list nat) (w : World) : World :=
  fold_left applyFilter tweets w.

(** [handleFilterSliderChange(slider)]; [value] is [slider.value].  The
    threshold is the variable [currentFilterThreshold] and its stored copy. *)
Definition handleFilterSliderChange (value : string) (tweets : list nat)
  (w : World) : World :=
  let w :=
    with_settings
      {| blacklistedHandles := blacklistedHandles (settings w);
         apiKey := apiKey (settings w);
         filterThreshold := parseInt10 value |} w in
  applyFilteringToAll tweets w.

(** The three writes of [clearTweetRatingsAndRefreshUI] to a dataset:
    [sloppinessScore = ''] (an empty score reads as no score everywhere:
    the code only tests it for truth), [delete cachedRating] and
    [delete blacklisted]. *)
Definition clear_dataset (a : Article) : Article :=
  set_dataset
    {| sloppinessScore := None; blacklisted := false;
       ratingStatus := ratingStatus (dataset a);
       ratingDescription := ratingDescription (dataset a);
       cachedRating := false |} a.

(** One iteration of the [forEach] of [clearTweetRatingsAndRefreshUI]. *)
Definition clearTweet (w : World) (el : nat) : World :=
  match articles w !! el with
  | None => w
  | Some a =>
      let w := put_article el (clear_dataset a) w in
      let w :=
        set_processedTweets (processedTweets w ∖ {[tweetId a]}) w in
      scheduleTweetProcessing el w
  end.

(** [clearTweetRatingsAndRefreshUI]; [confirmed] is the answer to the
    [confirm] dialog. *)
Definition clearTweetRatingsAndRefreshUI (confirmed : bool)
  (tweets : list nat) (w : World) : World :=
  if confirmed then
    let w := set_cache ∅ w in
    let w := set_storedRatings ∅ w in
    fold_left clearTweet tweets w
  else w.

(** *** The list of allow-listed handles *)

(** [handle.trim().replace(/^@/, '')] *)
Definition clean_handle (handle : string) : string :=
  match trim handle with
  | String "@" r => r
  | h => h
  end.

(** [handles.join('\n')] *)
Definition join_lines (handles : list string) : string :=
  String.concat (String "010" "") handles.

(** The array [blacklistedHandles] and the value stored under the key
    [blacklistedHandles]. *)
Record HandleStore := {
  handles : list string;
  stored : string
}.

(** [GM_getValue('blacklistedHandles', '').split('\n')
      .filter(h => h.trim() !== '')] *)
Definition loadBlacklistedHandles (stored : string) : list string :=
  filter (fun h => negb (String.eqb (trim h) "")) (split_lines stored).

(** [addHandleToBlacklist] *)
Definition addHandleToBlacklist (handle : string) (s : HandleStore)
  : HandleStore :=
  let handle := clean_handle handle in
  if String.eqb handle "" || existsb (String.eqb handle) (handles s) then s
  else
    let handles := handles s ++ [handle] in
    {| handles := handles; stored := join_lines handles |}.

(** [handles.splice(handles.indexOf(handle), 1)] for a handle of the
    list: the first occurrence is taken out. *)
Fixpoint splice_first (handle : string) (handles : list string)
  : list string :=
  match handles with
  | [] => []
  | h :: rest =>
      if String.eqb h handle then rest else h :: splice_first handle rest
  end.

(** [removeHandleFromBlacklist] *)
Definition removeHandleFromBlacklist (handle : string) (s : HandleStore)
  : HandleStore :=
  if existsb (String.eqb handle) (handles s) then
    let handles := splice_first handle (handles s) in
    {| handles := handles; stored := join_lines handles |}
  else s.

End Ui.

(** A handle the stored list gives back as it is: it keeps a code unit
    that is no white space, and it has no line feed. *)
Module HandleSpec.
Import JsString.

Fixpoint one_line (s : string) : bool :=
  match s with
  | "" => true
  | String c r => negb (Ascii.eqb c "010") && one_line r
  end.

Definition storable (handle : string) : bool :=
  negb (String.eqb (trim handle) "") && one_line handle.

(** The same handle to [isUserBlacklisted]: equal up to case and the white
    space around. *)
Definition same_handle (a b : string) : bool :=
  String.eqb (trim (toLowerCase a)) (trim (toLowerCase b)).

End HandleSpec.

(** ** More sample data *)

Module Samples.
Import JsString JsValue Transport Page.

(** A response whose message content is a list of parts, not a string. *)
Definition body_parts : string :=
  Fixtures.dq "{'choices':[{'message':{'role':'assistant','content':[{'type':'text','text':'SCORE_8'}]}}]}".

Definition json_parts : json :=
  JObj [("choices",
         JArr [JObj [("message",
                      JObj [("role", JStr "assistant");
                            ("content",
                             JArr [JObj [("type", JStr "text");
                                         ("text", JStr "SCORE_8")]])])]])].

Definition parser1 : JsonParser :=
  Fixtures.json_table [(Fixtures.body_rated, Fixtures.json_rated);
                       (body_parts, json_parts)].

(** The first request ends in HTTP 500, the second is answered with a
    rating. *)
Definition net_500_then_rated : nat -> Z * NetOutcome :=
  fun n => if (n =? 1)%nat
           then (120, Load 500 "Internal Server Error")
           else (150, Load 200 Fixtures.body_rated).



End Samples.

(** * Properties *)

(** ** Strings *)

Section StringFacts.
Import JsString.

Lemma sapp_cons (a : ascii) (s t : string) :
  String a s +:+ t = String a (s +:+ t).
Proof. reflexivity. Qed.

Lemma sapp_nil_l (s : string) : "" +:+ s = s.
Proof. reflexivity. Qed.

Lemma sapp_nil_r (s : string) : s +:+ "" = s.
Proof. induction s as [|a s IH]; [done|]. by rewrite sapp_cons, IH. Qed.

Lemma sapp_assoc (s t u : string) : (s +:+ t) +:+ u = s +:+ (t +:+ u).
Proof. induction s as [|a s IH]; [done|]. by rewrite !sapp_cons, IH. Qed.

Lemma sapp_length (s t : string) :
  String.length (s +:+ t) = (String.length s + String.length t)%nat.
Proof. induction s as [|a s IH]; [done|]. rewrite sapp_cons. simpl. by rewrite IH. Qed.

Lemma strip_prefix_Some (p s r : string) :
  strip_prefix p s = Some r ↔ s = p +:+ r.
Proof.
  revert s. induction p as [|a p IH]; intros s; simpl.
  - rewrite sapp_nil_l. split; congruence.
  - destruct s as [|b s]; [split; [done|by rewrite sapp_cons]|].
    rewrite sapp_cons. destruct (Ascii.eqb_spec a b) as [->|Hne].
    + rewrite IH. split; [by intros ->|congruence].
    + split; [done|]. intros [=]. congruence.
Qed.

Lemma strip_prefix_app (p r : string) : strip_prefix p (p +:+ r) = Some r.
Proof. by apply strip_prefix_Some. Qed.

Lemma take_digits_all (s : string) : all_digits (take_digits s) = true.
Proof.
  induction s as [|c s IH]; [done|]. simpl.
  destruct (is_digit c) eqn:Hc; [|done]. simpl. by rewrite Hc, IH.
Qed.

Lemma take_digits_split (s : string) :
  ∃ rest, s = take_digits s +:+ rest ∧ starts_with_digit rest = false.
Proof.
  induction s as [|c s [rest [Hs Hr]]]; [by exists ""|]. simpl.
  destruct (is_digit c) eqn:Hc.
  - exists rest. rewrite sapp_cons. by rewrite <- Hs.
  - exists (String c s). by rewrite sapp_nil_l.
Qed.

Lemma take_digits_app (ds post : string) :
  all_digits ds = true →
  take_digits (ds +:+ post) = ds +:+ take_digits post.
Proof.
  induction ds as [|c ds IH]; [done|]. simpl. intros [Hc Hds]%andb_prop.
  rewrite !sapp_cons. simpl. rewrite Hc. by rewrite IH.
Qed.

Lemma take_digits_no_digit (post : string) :
  starts_with_digit post = false → take_digits post = "".
Proof. destruct post as [|c post]; [done|]. simpl. by intros ->. Qed.

Lemma take_digits_exact (ds post : string) :
  all_digits ds = true → starts_with_digit post = false →
  take_digits (ds +:+ post) = ds.
Proof.
  intros Hds Hpost.
  by rewrite take_digits_app, take_digits_no_digit, sapp_nil_r.
Qed.

Lemma digit_of_range (c : ascii) (v : Z) : digit_of c = Some v → 0 <= v <= 9.
Proof.
  destruct c as [[] [] [] [] [] [] [] []]; simpl; intros [=]; subst; lia.
Qed.

Lemma parse_digits_value (s : string) (acc : Z) :
  all_digits s = true →
  parse_digits acc s
  = acc * 10 ^ Z.of_nat (String.length s) + decimal_value s.
Proof.
  revert acc. induction s as [|c s IH]; intros acc; simpl String.length.
  - intros _. simpl. lia.
  - simpl. unfold is_digit. destruct (digit_of c) as [v|]; [|done]. simpl.
    intros Hs. rewrite IH by done.
    rewrite Nat2Z.inj_succ, Z.pow_succ_r by lia. lia.
Qed.

Lemma parseInt10_value (s : string) :
  all_digits s = true → parseInt10 s = decimal_value s.
Proof. intros Hs. unfold parseInt10. rewrite parse_digits_value by done. lia. Qed.

End StringFacts.

(** ** Score extraction *)

Section ScoreFacts.
Import JsString ScoreExtractor TokenSpec.

Lemma SCORE_app (x : string) :
  "SCORE_" +:+ x
  = String "S" (String "C" (String "O" (String "R" (String "E" (String "_" x))))).
Proof. reflexivity. Qed.

(** Where [/SCORE_(\d+)/] matches at the head of a string, and what its group
    holds. *)
Lemma match_here_SCORE_Some (s d : string) :
  match_here Api.head_SCORE s = Some d ↔
  ∃ rest, s = "SCORE_" +:+ d +:+ rest ∧ d ≠ "" ∧ all_digits d = true
          ∧ starts_with_digit rest = false.
Proof.
  unfold match_here, Api.head_SCORE. split.
  - destruct (strip_prefix "SCORE_" s) as [r|] eqn:Hp; [|done].
    apply strip_prefix_Some in Hp as ->.
    destruct (take_digits_split r) as [rest [Hr Hrest]].
    pose proof (take_digits_all r) as Hall.
    destruct (take_digits r) as [|c t] eqn:Ht; [done|]. intros [= <-].
    exists rest. by rewrite <- Hr.
  - intros (rest & -> & Hd & Hall & Hrest).
    rewrite strip_prefix_app, take_digits_exact by done. by destruct d.
Qed.

Lemma match_here_SCORE_token (ds y : string) :
  ds ≠ "" → all_digits ds = true →
  match_here Api.head_SCORE ("SCORE_" +:+ ds +:+ y)
  = Some (ds +:+ take_digits y).
Proof.
  intros Hne Hall. unfold match_here, Api.head_SCORE.
  rewrite strip_prefix_app, take_digits_app by done.
  destruct ds as [|c ds]; [done|]. by rewrite sapp_cons.
Qed.

(** The leftmost match: [search] returns the match at the first position
    that has one. *)
Lemma search_Some (h : string → option string) (s d : string) :
  search h s = Some d →
  ∃ pre suf, s = pre +:+ suf ∧ match_here h suf = Some d
    ∧ ∀ p1 p2, pre = p1 +:+ p2 → p2 ≠ "" → match_here h (p2 +:+ suf) = None.
Proof.
  induction s as [|c s IH]; simpl.
  - destruct (match_here h "") eqn:H; [|done]. intros [= ->].
    exists "", "". repeat split; [done|]. intros [|??] [|??]; done.
  - destruct (match_here h (String c s)) eqn:H.
    + intros [= ->]. exists "", (String c s). repeat split; [done|].
      intros [|??] [|??]; done.
    + intros Hs. destruct (IH Hs) as (pre & suf & -> & Hm & Hmin).
      exists (String c pre), suf. repeat split; [done|].
      intros [|a p1] p2 Hp Hne.
      * rewrite sapp_nil_l in Hp. subst p2. by rewrite sapp_cons.
      * rewrite sapp_cons in Hp. injection Hp as -> Hp. by eapply Hmin.
Qed.

Lemma search_first (h : string → option string) (pre suf d : string) :
  match_here h suf = Some d →
  (∀ p1 p2, pre = p1 +:+ p2 → p2 ≠ "" → match_here h (p2 +:+ suf) = None) →
  search h (pre +:+ suf) = Some d.
Proof.
  intros Hm. induction pre as [|c pre IH]; intros Hmin.
  - rewrite sapp_nil_l. destruct suf; simpl; by rewrite Hm.
  - rewrite sapp_cons. simpl. rewrite <- sapp_cons.
    rewrite (Hmin "" (String c pre)) by done.
    apply IH. intros p1 p2 -> Hne. by apply (Hmin (String c p1) p2).
Qed.

Lemma search_None (h : string → option string) (pre suf : string) :
  search h (pre +:+ suf) = None → match_here h suf = None.
Proof.
  induction pre as [|c pre IH].
  - rewrite sapp_nil_l. destruct suf; simpl; by destruct (match_here h _).
  - rewrite sapp_cons. simpl.
    destruct (match_here h (String c _)); [done|]. apply IH.
Qed.

(** A match that starts before a token of the text lies before it. *)
Lemma match_before_token (p x d : string) :
  match_here Api.head_SCORE (p +:+ "SCORE_" +:+ x) = Some d →
  p ≠ "" → has_token p.
Proof.
  intros (rest & Heq & Hd & Hall & _)%match_here_SCORE_Some Hp.
  destruct d as [|d0 d]; [done|]. simpl in Hall.
  apply andb_prop in Hall as [Hd0 _].
  rewrite !SCORE_app, sapp_cons in Heq.
  destruct p as [|c1 [|c2 [|c3 [|c4 [|c5 [|c6 [|c7 p]]]]]]];
    rewrite ?sapp_cons, ?sapp_nil_l in Heq; simplify_eq; try done.
  exists "", (String d0 ""), p. split; [|split; [done|]].
  - by rewrite sapp_nil_l, SCORE_app, sapp_cons, sapp_nil_l.
  - simpl. by rewrite Hd0.
Qed.

Lemma has_token_cons (c : ascii) (s : string) :
  has_token s → has_token (String c s).
Proof.
  intros (pre & ds & post & -> & Hne & Hall).
  exists (String c pre), ds, post. by rewrite sapp_cons.
Qed.

Lemma scoreMatch_first_token (text ds : string) :
  first_token text ds → Api.scoreMatch text = Some ds.
Proof.
  intros (pre & post & -> & Hne & Hall & Hpost & Hfirst).
  unfold Api.scoreMatch. apply search_first.
  - rewrite match_here_SCORE_token, take_digits_no_digit, sapp_nil_r; done.
  - intros p1 p2 -> Hp2.
    destruct (match_here Api.head_SCORE _) as [d|] eqn:Hm; [|done].
    apply match_before_token in Hm; [|done]. destruct Hfirst.
    clear -Hm. induction p1 as [|c p1 IH]; [done|].
    rewrite sapp_cons. by apply has_token_cons.
Qed.

Lemma scoreMatch_Some_first_token (text d : string) :
  Api.scoreMatch text = Some d → first_token text d.
Proof.
  intros (pre & suf & -> & Hm & Hmin)%search_Some.
  apply match_here_SCORE_Some in Hm as (rest & -> & Hd & Hall & Hrest).
  exists pre, rest. repeat split; try done.
  intros (p1 & ds & p2 & -> & Hne & Hds).
  specialize (Hmin p1 ("SCORE_" +:+ ds +:+ p2)).
  rewrite !sapp_assoc in Hmin. rewrite match_here_SCORE_token in Hmin by done.
  by discriminate Hmin.
Qed.

Lemma has_token_scoreMatch (text : string) :
  has_token text → ∃ d, Api.scoreMatch text = Some d.
Proof.
  intros (pre & ds & post & -> & Hne & Hall). unfold Api.scoreMatch.
  destruct (search Api.head_SCORE _) as [d|] eqn:Hs; [by exists d|].
  apply search_None in Hs. by rewrite match_here_SCORE_token in Hs.
Qed.

Lemma first_token_has_token (text ds : string) :
  first_token text ds → has_token text.
Proof. intros (pre & post & -> & Hne & Hall & _). by exists pre, ds, post. Qed.

End ScoreFacts.

(** C1 (as amended).  Score extraction over an accumulated text, with the
    pattern [/SCORE_(\d+)/] of [api.js]: when the text holds a rating token,
    the digits read are those of the first token, all of the digits that
    follow its [SCORE_], and the result is the integer they write, for
    digits that write an integer of at most 2^53, which a Number holds
    exactly; when the text holds no token the result is null ([None]).  So a
    text with [SCORE_7] yields 7 exactly when that is its first token and no
    digit follows the 7. *)
Theorem C1_score_of_first_token (text : string) :
  (TokenSpec.has_token text →
   ∃ ds, TokenSpec.first_token text ds
         ∧ Api.scoreMatch text = Some ds
         ∧ (JsString.is_exact (JsString.decimal_value ds) = true →
            Api.score_of_content text = Some (JsString.decimal_value ds)))
  ∧ (∀ ds, TokenSpec.first_token text ds →
           JsString.is_exact (JsString.decimal_value ds) = true →
           Api.score_of_content text = Some (JsString.decimal_value ds))
  ∧ (¬ TokenSpec.has_token text → Api.score_of_content text = None).
Proof.
  assert (Hfirst : ∀ ds, TokenSpec.first_token text ds →
            JsString.is_exact (JsString.decimal_value ds) = true →
            Api.score_of_content text = Some (JsString.decimal_value ds)).
  { intros ds Hds _. unfold Api.score_of_content.
    rewrite (scoreMatch_first_token _ _ Hds). simpl. f_equal.
    apply parseInt10_value. by destruct Hds as (? & ? & _ & _ & ? & _). }
  split; [|split; [done|]].
  - intros [d Hd]%has_token_scoreMatch.
    pose proof (scoreMatch_Some_first_token _ _ Hd) as Hft. eauto.
  - intros Hnone. unfold Api.score_of_content.
    destruct (Api.scoreMatch text) as [d|] eqn:Hd; [|done].
    destruct Hnone. eapply first_token_has_token.
    by apply scoreMatch_Some_first_token.
Qed.

(** C1, an instance: a text whose first token is [SCORE_7] yields 7, and a
    text without a token yields null. *)
Lemma C1_score_of_first_token_witness :
  Api.score_of_content "Sharp take. SCORE_7 (not SCORE_3)" = Some 7
  ∧ Api.score_of_content "score: 7 out of 10" = None.
Proof.
  split.
  - apply (proj1 (proj2 (C1_score_of_first_token
                           "Sharp take. SCORE_7 (not SCORE_3)")) "7").
    + exists "Sharp take. ", " (not SCORE_3)".
      repeat split; try done.
      intros [d Hd]%has_token_scoreMatch. vm_compute in Hd. discriminate Hd.
    + reflexivity.
  - apply (proj2 (proj2 (C1_score_of_first_token "score: 7 out of 10"))).
    intros [d Hd]%has_token_scoreMatch. vm_compute in Hd. discriminate Hd.
Defined.

(** C1 as stated fails: a text can contain [SCORE_7] and not yield 7, because
    the digits after it belong to the token, and because an earlier token
    wins.  Both source files agree on these texts. *)
Lemma C1_text_with_SCORE_7_not_7 :
  JsString.includes "Great. SCORE_70" "SCORE_7" = true
  ∧ Api.score_of_content "Great. SCORE_70" = Some 70
  ∧ Bundle.score_of_content "Great. SCORE_70" = Some 70
  ∧ JsString.includes "SCORE_3? No: SCORE_7" "SCORE_7" = true
  ∧ Api.score_of_content "SCORE_3? No: SCORE_7" = Some 3
  ∧ Bundle.score_of_content "SCORE_3? No: SCORE_7" = Some 3.
Proof. repeat split; reflexivity. Qed.

(** The pattern of the bundled userscript, [/\SCORE_(\d+)/], accepts any code
    unit that is not white space where the [S] should be: a text without a
    rating token can yield a score there, and a malformed token before the
    real one wins. *)
Lemma bundle_pattern_accepts_any_first_letter :
  ¬ TokenSpec.has_token "xCORE_7"
  ∧ Api.score_of_content "xCORE_7" = None
  ∧ Bundle.score_of_content "xCORE_7" = Some 7
  ∧ Api.score_of_content "ENCORE_2 SCORE_9" = Some 9
  ∧ Bundle.score_of_content "ENCORE_2 SCORE_9" = Some 2.
Proof.
  repeat split; try reflexivity.
  intros [d Hd]%has_token_scoreMatch. vm_compute in Hd. discriminate Hd.
Qed.

(** ** The retry loop *)

Section RetryFacts.
Import JsValue Transport Page.
#[local] Arguments rate_limit : simpl never.
#[local] Arguments Nat.ltb : simpl never.
#[local] Arguments failed_rounds : simpl never.

Lemma wire_app (a b : list Event) : wire (a ++ b) = wire a ++ wire b.
Proof. apply List.filter_app. Qed.

Lemma rate_limit_wire (w : World) :
  wire (trace (rate_limit w)) = wire (trace w).
Proof.
  unfold rate_limit. destruct (_ <? _); simpl; [|done].
  by rewrite wire_app, app_nil_r.
Qed.

Lemma backoffDelay_square (n : nat) :
  backoffDelay n = Z.of_nat n * Z.of_nat n * 1000.
Proof. unfold backoffDelay. by rewrite Z.pow_2_r. Qed.

Lemma failed_rounds_0 (tweet : string) (first : nat) :
  failed_rounds tweet first 0 = [].
Proof. reflexivity. Qed.

Lemma failed_rounds_S (tweet : string) (first n : nat) :
  failed_rounds tweet first (S n)
  = EvDispatch tweet first
      :: EvBackoff first (Z.of_nat first * Z.of_nat first * 1000)
      :: failed_rounds tweet (S first) n.
Proof. reflexivity. Qed.

Section Bundle.
Context `{!JsonParser}.
Variable net : nat → Z * NetOutcome.
Variables tweetText tweetId : string.
Variable maxRetries : nat.

Lemma bundle_attempts_wire_extends (left attempt : nat) (w : World) :
  ∃ tr, wire (trace (Bundle.attempts net tweetText tweetId maxRetries
                       left attempt w).1)
        = wire (trace w) ++ tr.
Proof.
  revert attempt w. induction left as [|left IH]; intros attempt w.
  - exists []. by rewrite app_nil_r.
  - cbn. destruct (Bundle.verdict _).
    + eexists. cbn. by rewrite wire_app, rate_limit_wire.
    + match goal with
      | |- context [Bundle.attempts _ _ _ _ left ?a ?w'] =>
          destruct (IH a w') as [tr ->]
      end.
      destruct (_ <? _)%nat; cbn;
        rewrite !wire_app, rate_limit_wire, <- !app_assoc; eauto.
    + eexists. cbn. by rewrite wire_app, rate_limit_wire.
Qed.

Lemma bundle_failed_rounds (k : nat) :
  ∀ (left attempt : nat) (w : World),
    (k < left)%nat → (attempt + left = maxRetries)%nat →
    (∀ i, (attempt < i ≤ attempt + k)%nat →
          Bundle.verdict (getCompletion 30000 (net i).2) = Bundle.NoScore) →
    ∃ rest,
      wire (trace (Bundle.attempts net tweetText tweetId maxRetries
                     left attempt w).1)
      = wire (trace w) ++ failed_rounds tweetId (S attempt) k
        ++ EvDispatch tweetId (S (attempt + k)) :: rest.
Proof.
  induction k as [|k IH]; intros left attempt w Hk Hsum Hfail;
    (destruct left as [|left]; [lia|]); cbn.
  - rewrite Nat.add_0_r, failed_rounds_0. destruct (Bundle.verdict _).
    + exists []. cbn. by rewrite wire_app, rate_limit_wire.
    + match goal with
      | |- context [Bundle.attempts _ _ _ _ left ?a ?w'] =>
          destruct (bundle_attempts_wire_extends left a w') as [tr ->]
      end.
      destruct (_ <? _)%nat; cbn;
        rewrite !wire_app, rate_limit_wire, <- !app_assoc; cbn; eauto.
    + exists []. cbn. by rewrite wire_app, rate_limit_wire.
  - rewrite (Hfail (S attempt)) by lia.
    assert ((S attempt <? maxRetries)%nat = true) as ->
      by (apply Nat.ltb_lt; lia).
    match goal with
    | |- context [Bundle.attempts _ _ _ _ left ?a ?w'] =>
        destruct (IH left a w') as [rest ->];
          [lia | lia | intros; apply Hfail; lia |]
    end.
    exists rest. cbn.
    rewrite !wire_app, rate_limit_wire, failed_rounds_S, backoffDelay_square.
    rewrite <- !app_assoc. cbn. by rewrite Nat.add_succ_r.
Qed.

(** What a run of the loop leaves alone. *)
Lemma bundle_attempts_frame (left attempt : nat) (w : World) :
  let w' := (Bundle.attempts net tweetText tweetId maxRetries
               left attempt w).1 in
  settings w' = settings w ∧ processedTweets w' = processedTweets w
  ∧ articles w' = articles w ∧ timers w' = timers w.
Proof.
  revert attempt w. induction left as [|left IH]; intros attempt w; [done|].
  cbn. destruct (Bundle.verdict _).
  - cbn. unfold rate_limit. by destruct (_ <? _).
  - match goal with
    | |- context [Bundle.attempts _ _ _ _ left ?a ?w'] =>
        destruct (IH a w') as (-> & -> & -> & ->)
    end.
    unfold rate_limit. by destruct (_ <? _)%nat, (_ <? _).
  - cbn. unfold rate_limit. by destruct (_ <? _).
Qed.

(** When no attempt produces a score the loop returns the fallback result
    and leaves the cache as it was. *)
Lemma bundle_attempts_all_fail (left attempt : nat) (w : World) :
  (∀ i, (attempt < i ≤ attempt + left)%nat →
        Bundle.verdict (getCompletion 30000 (net i).2) = Bundle.NoScore) →
  let r := Bundle.attempts net tweetText tweetId maxRetries left attempt w in
  r.2 = Normal Bundle.failed_rating
  ∧ tweetIDRatingCache r.1 = tweetIDRatingCache w
  ∧ storedRatings r.1 = storedRatings w.
Proof.
  revert attempt w. induction left as [|left IH]; intros attempt w Hfail;
    [done|].
  cbn. rewrite (Hfail (S attempt)) by lia.
  match goal with
  | |- context [Bundle.attempts _ _ _ _ left ?a ?w'] =>
      destruct (IH a w') as (-> & -> & ->); [intros; apply Hfail; lia|]
  end.
  unfold rate_limit. by destruct (_ <? _)%nat, (_ <? _).
Qed.

End Bundle.

Section Api.
Variable attempt_call : nat → World → World * completion Api.AttemptResult.
Hypothesis attempt_call_trace :
  ∀ n w, trace (attempt_call n w).1 = trace w.
Variable tweet : string.
Variable maxRetries : nat.

Lemma api_settle_pending_trace (r : completion Api.AttemptResult) (w : World) :
  trace (Api.settle_pending r w) = trace w.
Proof.
  unfold Api.settle_pending.
  destruct r as [res|]; [|done].
  destruct (_ && _); [|done]. by destruct (Api.a_content res).
Qed.

Lemma api_attempts_wire_extends (left attempt : nat) (w : World) :
  ∃ tr, wire (trace (Api.attempts attempt_call tweet maxRetries
                       left attempt w).1)
        = wire (trace w) ++ tr.
Proof.
  revert attempt w. induction left as [|left IH]; intros attempt w.
  - exists []. by rewrite app_nil_r.
  - cbn. destruct (attempt_call _ _) as [w1 r] eqn:Hcall.
    pose proof (attempt_call_trace (S attempt)
      (log (EvDispatch tweet (S attempt))
         (set_pendingRequests (pendingRequests (rate_limit w) + 1)
            (rate_limit w)))) as Htr.
    rewrite Hcall in Htr. cbn in Htr.
    destruct (Api.judge r).
    + eexists. cbn. by rewrite api_settle_pending_trace, Htr, wire_app,
        rate_limit_wire.
    + match goal with
      | |- context [Api.attempts _ _ _ left ?a ?w'] =>
          destruct (IH a w') as [tr ->]
      end.
      destruct (_ <? _)%nat; cbn;
        rewrite ?wire_app, api_settle_pending_trace, Htr, !wire_app,
          rate_limit_wire, <- !app_assoc; eauto.
Qed.

Lemma api_failed_rounds (k : nat) :
  ∀ (left attempt : nat) (w : World),
    (k < left)%nat → (attempt + left = maxRetries)%nat →
    (∀ i w, (attempt < i ≤ attempt + k)%nat →
            Api.judge (attempt_call i w).2 = None) →
    ∃ rest,
      wire (trace (Api.attempts attempt_call tweet maxRetries
                     left attempt w).1)
      = wire (trace w) ++ failed_rounds tweet (S attempt) k
        ++ EvDispatch tweet (S (attempt + k)) :: rest.
Proof.
  induction k as [|k IH]; intros left attempt w Hk Hsum Hfail;
    (destruct left as [|left]; [lia|]); cbn;
    destruct (attempt_call _ _) as [w1 r] eqn:Hcall;
    pose proof (attempt_call_trace (S attempt)
      (log (EvDispatch tweet (S attempt))
         (set_pendingRequests (pendingRequests (rate_limit w) + 1)
            (rate_limit w)))) as Htr;
    rewrite Hcall in Htr; cbn in Htr.
  - rewrite Nat.add_0_r, failed_rounds_0. destruct (Api.judge r).
    + exists []. cbn. by rewrite api_settle_pending_trace, Htr, wire_app,
        rate_limit_wire.
    + match goal with
      | |- context [Api.attempts _ _ _ left ?a ?w'] =>
          destruct (api_attempts_wire_extends left a w') as [tr ->]
      end.
      destruct (_ <? _)%nat; cbn;
        rewrite ?wire_app, api_settle_pending_trace, Htr, !wire_app,
          rate_limit_wire, <- !app_assoc; cbn; eauto.
  - pose proof (Hfail (S attempt)
      (log (EvDispatch tweet (S attempt))
         (set_pendingRequests (pendingRequests (rate_limit w) + 1)
            (rate_limit w)))) as Hj.
    rewrite Hcall in Hj. cbn in Hj. rewrite Hj by lia.
    assert ((S attempt <? maxRetries)%nat = true) as ->
      by (apply Nat.ltb_lt; lia).
    match goal with
    | |- context [Api.attempts _ _ _ left ?a ?w'] =>
        destruct (IH left a w') as [rest ->];
          [lia | lia | intros; apply Hfail; lia |]
    end.
    exists rest. cbn.
    rewrite wire_app, api_settle_pending_trace, Htr, !wire_app,
      rate_limit_wire, failed_rounds_S, backoffDelay_square.
    rewrite <- !app_assoc. cbn. by rewrite Nat.add_succ_r.
Qed.

End Api.

End RetryFacts.

(** ** The rate limiter *)

Section LimiterFacts.
Import Page.

(** A caller is released no sooner than the minimum interval after the time
    stamp it found, and the time stamp it leaves is the time it arrived at,
    not the time it was released at. *)
Lemma rate_limit_release (w : World) :
  API_CALL_DELAY_MS <= clock (rate_limit w) - lastAPICallTime w
  ∧ clock w <= clock (rate_limit w)
  ∧ lastAPICallTime (rate_limit w) = clock w.
Proof.
  unfold rate_limit, API_CALL_DELAY_MS.
  destruct (_ <? _) eqn:Hlt; cbn; [lia|].
  apply Z.ltb_ge in Hlt. lia.
Qed.

End LimiterFacts.

(** C5, at the failing input.  Three callers reach the limiter at 1000 ms,
    1100 ms and 1350 ms.  The second waits until 1250 ms and leaves the time
    stamp 1100, the time it arrived at; the third finds 250 ms elapsed since
    that stamp and is released at once, 100 ms after the second. *)
Lemma C5_grants_closer_than_interval :
  let w0 := Page.set_clock 0 Fixtures.world0 in
  Page.grants [1000; 1100; 1350] w0 = [1000; 1250; 1350]
  ∧ Page.clock (Page.acquire_at 1100 (Page.acquire_at 1000 w0)) = 1250
  ∧ Page.lastAPICallTime (Page.acquire_at 1100 (Page.acquire_at 1000 w0))
    = 1100
  ∧ 1350 - 1250 < Page.API_CALL_DELAY_MS.
Proof. vm_compute. repeat split; reflexivity. Qed.

(** ** The completion transport *)

Section TransportFacts.
Import JsValue Transport.
Context `{!JsonParser}.

(** The branch of [onload] that reports missing content looks at a [content]
    property of the parsed body itself. *)
Lemma getCompletion_top_level_content_empty
    (status : Z) (text : string) (fs : list (string * json)) (reason : json) :
  200 <= status < 300 →
  JSON_parse text = Normal (JObj fs) →
  lookup_field "content" fs = JStr "" →
  (choice ← get_index0 (lookup_field "choices" fs);
   get_prop choice "native_finish_reason") = Normal reason →
  getCompletion 30000 (Load status text)
  = {| error := true;
       message := "No content returned" +:+
                  (if loose_eq_SAFETY reason then " (SAFETY FILTER)" else "");
       data := JObj fs |}.
Proof.
  intros Hstatus Hparse Hcontent Hreason. unfold getCompletion, onload.
  assert ((200 <=? status) && (status <? 300) = true) as ->.
  { apply andb_true_intro. split; [apply Z.leb_le|apply Z.ltb_lt]; lia. }
  unfold onload_try. rewrite Hparse. cbn. rewrite Hcontent. cbn.
  destruct (get_index0 (lookup_field "choices" fs)) as [choice|]; [|done].
  cbn in Hreason |- *. rewrite Hreason. reflexivity.
Qed.

(** Any other parsed object is reported as a success, whatever its choices
    hold. *)
Lemma getCompletion_success
    (status : Z) (text : string) (fs : list (string * json)) :
  200 <= status < 300 →
  JSON_parse text = Normal (JObj fs) →
  is_empty_string (lookup_field "content" fs) = false →
  getCompletion 30000 (Load status text)
  = {| error := false; message := "Request successful"; data := JObj fs |}.
Proof.
  intros Hstatus Hparse Hcontent. unfold getCompletion, onload.
  assert ((200 <=? status) && (status <? 300) = true) as ->.
  { apply andb_true_intro. split; [apply Z.leb_le|apply Z.ltb_lt]; lia. }
  unfold onload_try. rewrite Hparse. cbn. by rewrite Hcontent.
Qed.

(** A result that reports an error, or whose message content is empty,
    sends the loop down the path of a response without a score token. *)
Lemma verdict_no_content (r : CompletionResult) :
  error r = true ∨ truthy (message_content r) = false →
  Bundle.verdict r = Bundle.NoScore
  ∧ Api.judge (Normal (Api.rateTweet r)) = None.
Proof.
  unfold Bundle.verdict, Api.judge, Api.rateTweet.
  intros [-> | ->]; cbn; [done|]. by rewrite andb_false_r.
Qed.

End TransportFacts.

(** C9, at the failing input.  The body is a completions response whose
    first choice has an empty message and [native_finish_reason] SAFETY.  The
    transport reports success ([error = false], "Request successful"); only
    a body with an empty [content] at its top level gets the safety message.
    The retry loop then treats the empty message like a response without a
    score token. *)
Lemma C9_safety_response_reported_as_success :
  @Transport.getCompletion Fixtures.parser0 30000
     (Transport.Load 200 Fixtures.body_safety)
  = {| Transport.error := false;
       Transport.message := "Request successful";
       Transport.data := Fixtures.json_safety |}
  ∧ Bundle.verdict
      (@Transport.getCompletion Fixtures.parser0 30000
         (Transport.Load 200 Fixtures.body_safety))
    = Bundle.NoScore
  ∧ @Transport.getCompletion Fixtures.parser0 30000
      (Transport.Load 200 Fixtures.body_top_level_content)
    = {| Transport.error := true;
         Transport.message := "No content returned (SAFETY FILTER)";
         Transport.data := Fixtures.json_top_level_content |}.
Proof. repeat split; vm_compute; reflexivity. Qed.

(** ** The processing coordinator *)

Section CoordinatorFacts.
Import JsValue Transport Page Bundle.

Lemma hasIndicator_setScoreIndicator
    (score : option Z) (status : Status) (description : string) (a : Article) :
  hasIndicator (setScoreIndicator score status description a) = true.
Proof. unfold setScoreIndicator. by destruct status. Qed.

Lemma tweetId_setScoreIndicator
    (score : option Z) (status : Status) (description : string) (a : Article) :
  tweetId (setScoreIndicator score status description a) = tweetId a.
Proof. unfold setScoreIndicator. by destruct status. Qed.

Lemma firstHandle_setScoreIndicator
    (score : option Z) (status : Status) (description : string) (a : Article) :
  firstHandle (setScoreIndicator score status description a) = firstHandle a.
Proof. unfold setScoreIndicator. by destruct status. Qed.

Lemma dataset_setScoreIndicator
    (score : option Z) (status : Status) (description : string) (a : Article) :
  dataset (setScoreIndicator score status description a) = dataset a.
Proof. unfold setScoreIndicator. by destruct status. Qed.

Lemma dataset_filterSingleTweet (t : Z) (a : Article) :
  dataset (filterSingleTweet t a) = dataset a.
Proof.
  unfold filterSingleTweet. cbv zeta. rewrite dataset_setScoreIndicator.
  destruct (ratingStatus (dataset a)) as [[]|]; reflexivity.
Qed.

Lemma hasIndicator_filterSingleTweet (t : Z) (a : Article) :
  hasIndicator (filterSingleTweet t a) = true.
Proof.
  unfold filterSingleTweet. cbv zeta. rewrite dataset_setScoreIndicator.
  destruct (ratingStatus (dataset a)) as [[]|]; reflexivity.
Qed.

(** What [scheduleTweetProcessing] does to a tweet that is neither
    allow-listed nor cached nor held back by the in-flight set. *)
Lemma schedule_starts_pipeline (w : World) (el : nat) (a : Article) :
  articles w !! el = Some a →
  tweetId a ≠ "" →
  isBlacklistedAuthor w a = false →
  tweetIDRatingCache w !! tweetId a = None →
  bool_decide (tweetId a ∈ processedTweets w) && hasIndicator a = false →
  scheduleTweetProcessing el w
  = set_timers
      (timers w ++ [ {| fire_at := clock w + PROCESSING_DELAY_MS;
                        timer_el := el; timer_tweetId := tweetId a |} ])
      (put_article el
         (setScoreIndicator None Pending "" (set_ratingStatus Pending a))
         (set_processedTweets
            ({[tweetId a]} ∪
             (if bool_decide (tweetId a ∈ processedTweets w)
              then processedTweets w ∖ {[tweetId a]}
              else processedTweets w)) w)).
Proof.
  intros Hel Hid Hbl Hcache Hfree. unfold scheduleTweetProcessing.
  rewrite Hel. apply String.eqb_neq in Hid. rewrite Hid, Hbl, Hcache, Hfree.
  by destruct (bool_decide _).
Qed.

(** A call for a tweet that is in the in-flight set and shows an indicator
    changes nothing. *)
Lemma schedule_in_flight_noop (w : World) (el : nat) (a : Article) :
  articles w !! el = Some a →
  isBlacklistedAuthor w a = false →
  tweetIDRatingCache w !! tweetId a = None →
  tweetId a ∈ processedTweets w →
  hasIndicator a = true →
  scheduleTweetProcessing el w = w.
Proof.
  intros Hel Hbl Hcache Hin Hind. unfold scheduleTweetProcessing.
  rewrite Hel, Hbl, Hcache, Hind, bool_decide_eq_true_2 by done.
  by destruct (String.eqb _ _).
Qed.

End CoordinatorFacts.


Section PipelineFacts.
Import JsString JsValue Transport Page Bundle.
Context `{!JsonParser}.


Lemma dispatches_rate_limit (w : World) :
  dispatches (rate_limit w) = dispatches w.
Proof.
  unfold dispatches, rate_limit. destruct (_ <? _); cbn; [|done].
  rewrite List.filter_app, length_app. cbn. lia.
Qed.


End PipelineFacts.

(** Two calls in a row and then the timer: the one pipeline run sends one
    request, which is answered with [SCORE_8]; no timer is left. *)
Example schedule_twice_one_request :
  Page.timers
    (Bundle.scheduleTweetProcessing 0
       (Bundle.scheduleTweetProcessing 0
          (Fixtures.page_with Fixtures.tweet_1871)))
  = [ {| Page.fire_at := 1000500; Page.timer_el := 0%nat;
         Page.timer_tweetId := "1871" |} ]
  ∧ Bundle.dispatches
      (@Bundle.fire Fixtures.parser0 Fixtures.oracle_rated
         (Bundle.scheduleTweetProcessing 0
            (Bundle.scheduleTweetProcessing 0
               (Fixtures.page_with Fixtures.tweet_1871)))) = 1%nat
  ∧ Page.timers
      (@Bundle.fire Fixtures.parser0 Fixtures.oracle_rated
         (Bundle.scheduleTweetProcessing 0
            (Bundle.scheduleTweetProcessing 0
               (Fixtures.page_with Fixtures.tweet_1871)))) = []
  ∧ Bundle.ratingStatus_of 0
      (@Bundle.fire Fixtures.parser0 Fixtures.oracle_rated
         (Bundle.scheduleTweetProcessing 0
            (Bundle.scheduleTweetProcessing 0
               (Fixtures.page_with Fixtures.tweet_1871)))) = Some Page.Rated
  ∧ Bundle.sloppinessScore_of 0
      (@Bundle.fire Fixtures.parser0 Fixtures.oracle_rated
         (Bundle.scheduleTweetProcessing 0
            (Bundle.scheduleTweetProcessing 0
               (Fixtures.page_with Fixtures.tweet_1871)))) = Some 8.
Proof. repeat split; vm_compute; reflexivity. Qed.

Section ReschedulingFacts.
Import JsValue Transport Page Bundle.

(** [ensureAllTweetsRated] reaches the same state for such a tweet: it takes
    the ID out of the set itself and then schedules the tweet. *)
Lemma ensureTweetRated_marked_without_indicator
    (w : World) (el : nat) (a : Article) :
  articles w !! el = Some a →
  tweetId a ≠ "" →
  isBlacklistedAuthor w a = false →
  tweetIDRatingCache w !! tweetId a = None →
  tweetId a ∈ processedTweets w →
  hasIndicator a = false →
  ensureTweetRated w el = scheduleTweetProcessing el w.
Proof.
  intros Hel Hid Hbl Hcache Hin Hind.
  rewrite (schedule_starts_pipeline w el a) by (try done; by rewrite Hind, andb_false_r).
  unfold ensureTweetRated. rewrite Hel.
  pose proof Hid as Hid'. apply String.eqb_neq in Hid'. rewrite Hid'.
  cbv zeta. rewrite Hind.
  rewrite (bool_decide_eq_true_2 (tweetId a ∈ processedTweets w)) by done.
  cbn [negb andb]. rewrite orb_true_r. cbn [andb].
  rewrite bool_decide_eq_false_2 by (cbn; clear; set_solver). cbn [negb].
  rewrite (schedule_starts_pipeline _ el a); try done.
  - cbn. rewrite bool_decide_eq_false_2 by (clear; set_solver). done.
  - cbn. rewrite bool_decide_eq_false_2 by (clear; set_solver). done.
Qed.

End ReschedulingFacts.

(** C10 (as amended).  A tweet with a valid ID whose author is not
    allow-listed and which has no cache entry, and whose ID is in the
    processed set: when its article has no score indicator, the call takes
    the ID out of the set, puts it back and queues a pipeline run, and
    [ensureAllTweetsRated] does the same for it; when the article has an
    indicator the call changes nothing.  So the set holds such a tweet back
    only while its indicator exists. *)
Theorem C10_marked_without_indicator_is_rescheduled
    (w : Page.World) (el : nat) (a : Page.Article) :
  Page.articles w !! el = Some a →
  Page.tweetId a ≠ "" →
  Bundle.isBlacklistedAuthor w a = false →
  Page.tweetIDRatingCache w !! Page.tweetId a = None →
  Page.tweetId a ∈ Page.processedTweets w →
  (Bundle.hasIndicator a = false →
   Page.processedTweets (Bundle.scheduleTweetProcessing el w)
   = {[Page.tweetId a]} ∪ (Page.processedTweets w ∖ {[Page.tweetId a]})
   ∧ Page.timers (Bundle.scheduleTweetProcessing el w)
     = Page.timers w
       ++ [ {| Page.fire_at := Page.clock w + 500;
               Page.timer_el := el;
               Page.timer_tweetId := Page.tweetId a |} ]
   ∧ Bundle.ensureTweetRated w el = Bundle.scheduleTweetProcessing el w)
  ∧ (Bundle.hasIndicator a = true →
     Bundle.scheduleTweetProcessing el w = w).
Proof.
  intros Hel Hid Hbl Hcache Hin. split.
  - intros Hind. split; [|split].
    + rewrite (schedule_starts_pipeline w el a)
        by (try done; by rewrite Hind, andb_false_r).
      cbn. by rewrite bool_decide_eq_true_2.
    + rewrite (schedule_starts_pipeline w el a)
        by (try done; by rewrite Hind, andb_false_r).
      done.
    + by apply (ensureTweetRated_marked_without_indicator w el a).
  - intros Hind. by apply (schedule_in_flight_noop w el a).
Qed.

(** C10, an instance: the tweet is marked, its article has lost the
    indicator, nothing is cached. *)
Lemma C10_marked_without_indicator_is_rescheduled_witness :
  Page.timers
    (Bundle.scheduleTweetProcessing 0
       (Page.set_processedTweets {[ "1871" ]}
          (Fixtures.page_with Fixtures.tweet_1871)))
  = [] ++ [ {| Page.fire_at := 1000000 + 500; Page.timer_el := 0%nat;
               Page.timer_tweetId := "1871" |} ].
Proof.
  apply (C10_marked_without_indicator_is_rescheduled
           (Page.set_processedTweets {[ "1871" ]}
              (Fixtures.page_with Fixtures.tweet_1871))
           0 Fixtures.tweet_1871).
  - reflexivity.
  - discriminate.
  - reflexivity.
  - reflexivity.
  - cbn. set_solver.
  - reflexivity.
Defined.

(** C10 as stated fails for a tweet that has a cache entry: a tweet rated
    before and rendered anew is in the processed set and its new article has
    no indicator, yet the call serves the cached rating, leaves the ID in the
    set and queues no pipeline run. *)
Lemma C10_cached_tweet_is_not_rescheduled :
  bool_decide ("1871" ∈ Page.processedTweets Fixtures.page_rerendered) = true
  ∧ Bundle.indicator_of 0 Fixtures.page_rerendered = None
  ∧ Page.timers (Bundle.scheduleTweetProcessing 0 Fixtures.page_rerendered)
    = []
  ∧ Page.processedTweets
      (Bundle.scheduleTweetProcessing 0 Fixtures.page_rerendered)
    = Page.processedTweets Fixtures.page_rerendered
  ∧ Bundle.ratingStatus_of 0
      (Bundle.scheduleTweetProcessing 0 Fixtures.page_rerendered)
    = Some Page.Cached
  ∧ Bundle.sloppinessScore_of 0
      (Bundle.scheduleTweetProcessing 0 Fixtures.page_rerendered)
    = Some 8.
Proof. repeat split; vm_compute; reflexivity. Qed.

(** ** The allow-list fast path *)

Section AllowListFacts.
Import JsString JsValue Transport Page Bundle.

(** A handle is on the allow-list when it is not empty and some listed handle
    has the same lower-case, trimmed form. *)
Lemma isUserBlacklisted_spec (handles : list string) (handle : string) :
  isUserBlacklisted handles handle = true ↔
  handle ≠ "" ∧ ∃ h, In h handles
                     ∧ trim (toLowerCase h) = trim (toLowerCase handle).
Proof.
  unfold isUserBlacklisted. destruct (String.eqb_spec handle "") as [->|Hne].
  - split; [done|]. by intros [? _].
  - rewrite existsb_exists. split.
    + intros (h & Hin & Heq%String.eqb_eq). eauto.
    + intros (_ & h & Hin & Heq). exists h. by rewrite String.eqb_eq.
Qed.

(** The fast path of [scheduleTweetProcessing] queues no pipeline run, sends
    no request and leaves the in-flight set and the cache alone; the article
    gets the score 10, the status [rated] and, once [filterSingleTweet] has
    redrawn it from that status, the indicator of a rated tweet. *)
Lemma schedule_allow_listed (w : World) (el : nat) (a : Article) :
  articles w !! el = Some a →
  tweetId a ≠ "" →
  isBlacklistedAuthor w a = true →
  timers (scheduleTweetProcessing el w) = timers w
  ∧ trace (scheduleTweetProcessing el w) = trace w
  ∧ processedTweets (scheduleTweetProcessing el w) = processedTweets w
  ∧ tweetIDRatingCache (scheduleTweetProcessing el w) = tweetIDRatingCache w
  ∧ sloppinessScore_of el (scheduleTweetProcessing el w) = Some 10
  ∧ ratingStatus_of el (scheduleTweetProcessing el w) = Some Rated
  ∧ indicator_of el (scheduleTweetProcessing el w)
    = Some {| ind_class := rated_rating; ind_text := ScoreText (Some 10);
              ind_description := "Whitelisted user" |}.
Proof.
  intros Hel Hid Hbl. unfold scheduleTweetProcessing.
  rewrite Hel. apply String.eqb_neq in Hid. rewrite Hid, Hbl.
  unfold sloppinessScore_of, ratingStatus_of, indicator_of, put_article.
  cbn [timers trace processedTweets tweetIDRatingCache articles set_articles].
  rewrite lookup_insert_eq. repeat split; reflexivity.
Qed.

End AllowListFacts.

(** C6, at the failing input.  The author's handle is on the allow-list in
    another case and with trailing white space.  [scheduleTweetProcessing]
    queues no pipeline run and sends no request, and the score is 10; but the
    status it leaves is [rated], in the dataset and on the indicator, which
    [filterSingleTweet] redraws from the dataset.  The same tweet going
    through [delayedProcessTweet] gets the status [blacklisted]. *)
Lemma C6_allow_listed_status_is_rated :
  Bundle.isBlacklistedAuthor (Fixtures.page_with Fixtures.tweet_trusted)
    Fixtures.tweet_trusted = true
  ∧ Page.timers (Bundle.scheduleTweetProcessing 0
                   (Fixtures.page_with Fixtures.tweet_trusted)) = []
  ∧ Bundle.dispatches (Bundle.scheduleTweetProcessing 0
                         (Fixtures.page_with Fixtures.tweet_trusted)) = 0%nat
  ∧ Bundle.sloppinessScore_of 0
      (Bundle.scheduleTweetProcessing 0
         (Fixtures.page_with Fixtures.tweet_trusted)) = Some 10
  ∧ Bundle.ratingStatus_of 0
      (Bundle.scheduleTweetProcessing 0
         (Fixtures.page_with Fixtures.tweet_trusted)) = Some Page.Rated
  ∧ Bundle.indicator_of 0
      (Bundle.scheduleTweetProcessing 0
         (Fixtures.page_with Fixtures.tweet_trusted))
    = Some {| Page.ind_class := Page.rated_rating;
              Page.ind_text := Page.ScoreText (Some 10);
              Page.ind_description := "Whitelisted user" |}
  ∧ Bundle.ratingStatus_of 0
      (@Bundle.delayedProcessTweet Fixtures.no_json Fixtures.oracle_500 0
         "1900" (Fixtures.page_with Fixtures.tweet_trusted))
    = Some Page.Blacklisted
  ∧ Bundle.indicator_of 0
      (@Bundle.delayedProcessTweet Fixtures.no_json Fixtures.oracle_500 0
         "1900" (Fixtures.page_with Fixtures.tweet_trusted))
    = Some {| Page.ind_class := Page.blacklisted_rating;
              Page.ind_text := Page.ScoreText (Some 10);
              Page.ind_description := "Blacklisted user" |}.
Proof. repeat split; vm_compute; reflexivity. Qed.

(** C3, at the failing input.  Every request of the pipeline run of tweet
    1871 ends in HTTP 500.  The loop sends three requests and returns the
    fallback score 5 with [error = true]; the coordinator shows the error and
    takes the ID out of the in-flight set.  It has also stored the fallback
    result in the cache, so the next call of [scheduleTweetProcessing] serves
    it as a cached rating: no pipeline run is queued and no request follows. *)
Lemma C3_failed_rating_is_served_from_cache :
  Bundle.dispatches
    (@Bundle.fire Fixtures.no_json Fixtures.oracle_500
       (Bundle.scheduleTweetProcessing 0
          (Fixtures.page_with Fixtures.tweet_1871))) = 3%nat
  ∧ Bundle.ratingStatus_of 0
      (@Bundle.fire Fixtures.no_json Fixtures.oracle_500
         (Bundle.scheduleTweetProcessing 0
            (Fixtures.page_with Fixtures.tweet_1871))) = Some Page.Errored
  ∧ Bundle.sloppinessScore_of 0
      (@Bundle.fire Fixtures.no_json Fixtures.oracle_500
         (Bundle.scheduleTweetProcessing 0
            (Fixtures.page_with Fixtures.tweet_1871))) = Some 5
  ∧ bool_decide
      ("1871" ∈ Page.processedTweets
         (@Bundle.fire Fixtures.no_json Fixtures.oracle_500
            (Bundle.scheduleTweetProcessing 0
               (Fixtures.page_with Fixtures.tweet_1871)))) = false
  ∧ Page.tweetIDRatingCache
      (@Bundle.fire Fixtures.no_json Fixtures.oracle_500
         (Bundle.scheduleTweetProcessing 0
            (Fixtures.page_with Fixtures.tweet_1871))) !! "1871"
    = Some {| Page.tweetContent := "[TWEET 1871] Author:@someone: hello";
              Page.score := 5;
              Page.description :=
                "Failed to get valid rating after multiple attempts";
              Page.streaming := None; Page.timestamp := None |}
  ∧ Page.timers
      (Bundle.scheduleTweetProcessing 0
         (@Bundle.fire Fixtures.no_json Fixtures.oracle_500
            (Bundle.scheduleTweetProcessing 0
               (Fixtures.page_with Fixtures.tweet_1871)))) = []
  ∧ Bundle.ratingStatus_of 0
      (Bundle.scheduleTweetProcessing 0
         (@Bundle.fire Fixtures.no_json Fixtures.oracle_500
            (Bundle.scheduleTweetProcessing 0
               (Fixtures.page_with Fixtures.tweet_1871)))) = Some Page.Cached
  ∧ Bundle.dispatches
      (@Bundle.fire Fixtures.no_json Fixtures.oracle_500
         (Bundle.scheduleTweetProcessing 0
            (@Bundle.fire Fixtures.no_json Fixtures.oracle_500
               (Bundle.scheduleTweetProcessing 0
                  (Fixtures.page_with Fixtures.tweet_1871))))) = 3%nat.
Proof. repeat split; vm_compute; reflexivity. Qed.

(** ** Exhausted retries *)

Section ExhaustionFacts.
Import JsString JsValue Transport Page Bundle.
Context `{!JsonParser}.

(** When none of the [maxRetries] attempts produces a score, the loop returns
    the fallback result, score 5 with [error = true]. *)
Lemma retry_exhaustion_returns_fallback
    (net : nat → Z * NetOutcome) (tweetText id : string) (maxRetries : nat)
    (w : World) :
  (∀ i, (1 ≤ i ≤ maxRetries)%nat →
        verdict (getCompletion 30000 (net i).2) = NoScore) →
  (rateTweetWithOpenRouter net tweetText id maxRetries w).2
  = Normal {| rating_score := 5;
              rating_content :=
                "Failed to get valid rating after multiple attempts";
              rating_error := true |}.
Proof.
  intros Hfail. unfold rateTweetWithOpenRouter.
  apply (bundle_attempts_all_fail net tweetText id maxRetries maxRetries 0 w).
  intros i Hi. apply Hfail. lia.
Qed.

(** The pipeline run of a tweet whose three attempts all fail: the article
    shows the error with the fallback score, the ID leaves the in-flight set,
    and the fallback result is stored in the cache under the tweet's ID. *)
Lemma pipeline_failure_clears_marker_and_caches
    (o : Oracle) (w : World) (el : nat) (a : Article) :
  articles w !! el = Some a →
  apiKey (settings w) ≠ "" →
  isBlacklistedAuthor w a = false →
  tweetIDRatingCache w !! tweetId a = None →
  context o ≠ "" →
  (∀ i, (1 ≤ i ≤ MAX_RETRIES)%nat →
        verdict (getCompletion 30000 (net o i).2) = NoScore) →
  let w' := delayedProcessTweet o el (tweetId a) w in
  processedTweets w' = processedTweets w ∖ {[tweetId a]}
  ∧ ratingStatus_of el w' = Some Errored
  ∧ sloppinessScore_of el w' = Some 5
  ∧ tweetIDRatingCache w' !! tweetId a
    = Some {| tweetContent := context o; score := 5;
              description :=
                "Failed to get valid rating after multiple attempts";
              streaming := None; timestamp := None |}.
Proof.
  intros Hel Hkey Hbl Hcache Hctx Hfail. unfold delayedProcessTweet.
  rewrite Hel. apply String.eqb_neq in Hkey, Hctx. rewrite Hkey, Hbl.
  unfold applyTweetCachedRating. rewrite Hbl, Hcache, Hctx.
  unfold rateTweetWithOpenRouter.
  pose proof (bundle_attempts_all_fail (net o) (context o) (tweetId a)
                MAX_RETRIES MAX_RETRIES 0 (sleep (context_delay o) w)) as Hall.
  pose proof (bundle_attempts_frame (net o) (context o) (tweetId a)
                MAX_RETRIES MAX_RETRIES 0 (sleep (context_delay o) w))
    as Hframe.
  destruct (attempts _ _ _ _ _ _ _) as [w2 r].
  cbn [fst snd] in Hall, Hframe.
  destruct Hall as (-> & Hc & _); [intros i Hi; apply Hfail; lia|].
  destruct Hframe as (Hs & Hp & Ha & Ht).
  cbn [sleep set_clock tweetIDRatingCache processedTweets articles settings
       timers] in Hc, Hs, Hp, Ha, Ht.
  rewrite Hc, Hcache.
  unfold ratingStatus_of, sloppinessScore_of, finally, put_article.
  cbn [failed_rating rating_error rating_score rating_content negb].
  cbn [processedTweets articles tweetIDRatingCache set_processedTweets
       set_articles saveTweetRatings set_storedRatings set_cache].
  rewrite !lookup_insert_eq, Hp. repeat split; try reflexivity.
Qed.

End ExhaustionFacts.

(** ** The streaming decoder *)

Section DecoderFacts.
Import JsString JsValue Transport Api.
Context `{!JsonParser}.

Lemma deltas_app (a b : list (Z * Callback)) :
  deltas (a ++ b) = deltas a ++ deltas b.
Proof. apply omap_app. Qed.

Lemma concat_deltas_app (a b : list json) :
  concat_deltas (a ++ b) = concat_deltas a +:+ concat_deltas b.
Proof.
  unfold concat_deltas. induction a as [|x a IH]; [done|].
  cbn. by rewrite IH, sapp_assoc.
Qed.

Lemma terminals_app (a b : list (Z * Callback)) :
  terminals (a ++ b) = terminals a ++ terminals b.
Proof. apply List.filter_app. Qed.

Lemma chunks_only_refl (d : Decoder) : chunks_only d d.
Proof.
  repeat split. exists []. by rewrite app_nil_r, sapp_nil_r.
Qed.

Lemma chunks_only_trans (d1 d2 d3 : Decoder) :
  chunks_only d1 d2 → chunks_only d2 d3 → chunks_only d1 d3.
Proof.
  intros (Hc & Hr & Ht & He & Hf & n1 & Hn1 & Hall1 & Hcont1)
         (Hc' & Hr' & Ht' & He' & Hf' & n2 & Hn2 & Hall2 & Hcont2).
  repeat split; try congruence. exists (n1 ++ n2).
  rewrite Hn2, Hn1, <- app_assoc. split; [done|]. split.
  - by apply Forall_app.
  - by rewrite Hcont2, Hcont1, deltas_app, concat_deltas_app, sapp_assoc.
Qed.

Lemma process_line_chunks_only (now : Z) (line : string) (d : Decoder) :
  chunks_only d (process_line now line d).1.
Proof.
  unfold process_line. destruct (startsWith _ _); [|apply chunks_only_refl].
  destruct (String.eqb _ _); [apply chunks_only_refl|].
  destruct (JSON_parse _) as [parsed|]; [|apply chunks_only_refl].
  destruct (delta_of parsed) as [[delta|]|]; cbn [fst].
  - repeat split. eexists [_]. split; [done|].
    split; [by repeat constructor|].
    change (content d +:+ js_toString delta
            = content d +:+ (js_toString delta +:+ "")).
    by rewrite sapp_nil_r.
  - repeat split. exists []. by rewrite app_nil_r, sapp_nil_r.
  - repeat split. exists []. by rewrite app_nil_r, sapp_nil_r.
Qed.

Lemma process_lines_chunks_only (now : Z) (lines : list string) (d : Decoder) :
  chunks_only d (process_lines now lines d).1.
Proof.
  revert d. induction lines as [|line lines IH]; intros d;
    [apply chunks_only_refl|].
  cbn. pose proof (process_line_chunks_only now line d) as Hline.
  destruct (process_line now line d) as [d1 done]. cbn [fst] in Hline.
  destruct done; [done|]. eapply chunks_only_trans; [done|apply IH].
Qed.

(** A chunk with the sentinel on one of its lines ends the [for] loop with
    [isDone] set. *)
Lemma process_lines_sentinel (now : Z) (lines : list string) (d : Decoder) :
  existsb (fun line => String.eqb line "data: [DONE]") lines = true →
  (process_lines now lines d).2 = true.
Proof.
  revert d. induction lines as [|line lines IH]; intros d; [done|].
  cbn. intros Hex.
  destruct (String.eqb_spec line "data: [DONE]") as [->|Hne].
  - reflexivity.
  - cbn in Hex. destruct (process_line now line d) as [d1 []]; [done|].
    by apply IH.
Qed.

Variable timeout : Z.

Lemma finish_open (now : Z) (d : Decoder) :
  streamComplete d = false →
  Forall (fun c => is_chunk_call c.2 = true) (calls d) →
  content d = concat_deltas (deltas (calls d)) →
  completed_normally (finish now d).
Proof.
  intros Hc Hall Hcont. unfold finish. cbn. rewrite Hc.
  repeat split. exists (calls d), now, (fullResponse d), (responseObj d).
  cbn. by rewrite Hcont.
Qed.

Lemma advance_to_before_due (now due : Z) (d : Decoder) :
  streamTimeout d = Some due → now < due → advance_to now d = d.
Proof.
  intros Ht Hlt. unfold advance_to. rewrite Ht.
  by rewrite (proj2 (Z.leb_gt due now)).
Qed.

(** A chunk that arrives while the stream is open and the timer is not due:
    the stream stays open with the timer set anew, or the loop completes it;
    a chunk with the sentinel completes it. *)
Lemma step_open (d : Decoder) (t_last now : Z) (chunk : string) :
  open_at d t_last →
  t_last <= now < t_last + STREAM_INACTIVITY_MS →
  (open_at (step timeout d (now, Read (ReadChunk chunk))) now
   ∨ completed_normally (step timeout d (now, Read (ReadChunk chunk))))
  ∧ (has_sentinel chunk = true →
     completed_normally (step timeout d (now, Read (ReadChunk chunk)))).
Proof.
  intros (Hc & Hr & Ht & Hall & Hcont) Hnow. unfold step.
  rewrite (advance_to_before_due now _ d Ht) by lia.
  unfold on_read. rewrite Hr. cbn [negb]. unfold has_sentinel.
  destruct (trim_is_empty chunk).
  - split; [|done]. cbn [emptyChunksCount set_emptyChunksCount].
    destruct (3 <=? _)%nat.
    + right. by apply finish_open.
    + left. unfold loop_check. cbn. rewrite Hc. cbn. by repeat split.
  - cbn [negb andb].
    pose proof (process_lines_chunks_only now (split_lines chunk)
      (set_fullResponse
         (fullResponse (set_emptyChunksCount 0 (resetStreamTimeout now d))
          +:+ chunk)
         (set_emptyChunksCount 0 (resetStreamTimeout now d)))) as Hlines.
    pose proof (process_lines_sentinel now (split_lines chunk)
      (set_fullResponse
         (fullResponse (set_emptyChunksCount 0 (resetStreamTimeout now d))
          +:+ chunk)
         (set_emptyChunksCount 0 (resetStreamTimeout now d)))) as Hsent.
    destruct (process_lines _ _ _) as [d' done]. cbn [fst snd] in Hlines, Hsent.
    destruct Hlines as (Hc' & Hr' & Ht' & _ & _ & new & Hnew & Hallnew & Hcont').
    cbn in Hc', Hr', Ht', Hnew, Hcont'.
    assert (Forall (fun c => is_chunk_call c.2 = true) (calls d')) as Hall'.
    { rewrite Hnew. by apply Forall_app. }
    assert (content d' = concat_deltas (deltas (calls d'))) as Hcontent'.
    { by rewrite Hcont', Hnew, deltas_app, concat_deltas_app, Hcont. }
    assert (completed_normally (finish now d')) as Hfin.
    { apply finish_open; congruence. }
    unfold loop_check. rewrite Hc', Hc, orb_false_r.
    destruct done; split; auto.
    + left. repeat split; congruence.
    + intros Hex. by specialize (Hsent Hex).
Qed.

(** Once the loop has completed the stream, further reads change nothing. *)
Lemma step_completed (d : Decoder) (now : Z) (r : ReadResult) :
  completed_normally d → step timeout d (now, Read r) = d.
Proof.
  intros (_ & Hr & Ht & _). unfold step, advance_to, on_read.
  by rewrite Ht, Hr.
Qed.

Lemma chunk_reads_cons (now : Z) (chunk : string) (chunks : list (Z * string)) :
  chunk_reads ((now, chunk) :: chunks)
  = (now, Read (ReadChunk chunk)) :: chunk_reads chunks.
Proof. reflexivity. Qed.

Lemma fold_step_completed (chunks : list (Z * string)) (d : Decoder) :
  completed_normally d →
  fold_left (step timeout) (chunk_reads chunks) d = d.
Proof.
  intros Hd. induction chunks as [|[t c] chunks IH]; [done|].
  rewrite chunk_reads_cons. cbn [fold_left]. by rewrite step_completed.
Qed.

Lemma run_chunks (chunks : list (Z * string)) :
  ∀ (d : Decoder) (t_last : Z),
    open_at d t_last → within_window t_last chunks →
    ((∃ t, open_at (fold_left (step timeout) (chunk_reads chunks) d) t)
     ∨ completed_normally (fold_left (step timeout) (chunk_reads chunks) d))
    ∧ (Exists (fun c => has_sentinel c.2 = true) chunks →
       completed_normally (fold_left (step timeout) (chunk_reads chunks) d)).
Proof.
  induction chunks as [|[now chunk] chunks IH]; intros d t_last Hopen Hwin.
  - split; [left; by exists t_last|]. by intros ?%Exists_nil.
  - destruct Hwin as [Hnow Hwin]. cbn [fst] in Hnow, Hwin.
    rewrite chunk_reads_cons. cbn [fold_left].
    destruct (step_open d t_last now chunk Hopen Hnow) as [[Hd1 | Hd1] Hsent].
    + destruct (IH _ now Hd1 Hwin) as [Hrest Hex]. split; [done|].
      intros [Hhere | Hlater]%Exists_cons; [|auto].
      destruct (Hsent Hhere) as (Hc & _). destruct Hd1 as (Hc' & _).
      congruence.
    + rewrite fold_step_completed by done. by split; [right|].
Qed.

Lemma onloadstart_open (t0 : Z) : open_at (onloadstart t0) t0.
Proof. by repeat split. Qed.

(** What [rateTweetStreaming] makes of chunk callbacks: the aggregate grows
    by their deltas and the promise stays as it is. *)
Lemma consume_chunks (cs : list (Z * Callback)) (s : StreamingCall) :
  Forall (fun c => is_chunk_call c.2 = true) cs →
  fold_left consume cs s
  = {| aggregatedContent := aggregatedContent s +:+ concat_deltas (deltas cs);
       finalData := finalData s; settled := settled s |}.
Proof.
  revert s. induction cs as [|[t c] cs IH]; intros s Hall.
  - cbn. rewrite sapp_nil_r. by destruct s.
  - apply Forall_cons in Hall as [Hc Hall]. cbn [fold_left].
    rewrite IH by done. destruct c; try done.
    unfold consume. cbn [snd aggregatedContent finalData settled].
    f_equal. change (deltas ((t, OnChunk chunk content0 data0) :: cs))
      with (chunk :: deltas cs).
    change (concat_deltas (chunk :: deltas cs))
      with (js_toString chunk +:+ concat_deltas (deltas cs)).
    by rewrite sapp_assoc.
Qed.

(** [streamComplete] is never reset. *)
Lemma timer_fires_complete (now : Z) (d : Decoder) :
  streamComplete (timer_fires now d) = true.
Proof. unfold timer_fires. cbn. by destruct (streamComplete d) eqn:Hc. Qed.

Lemma finish_complete (now : Z) (d : Decoder) :
  streamComplete (finish now d) = true.
Proof. unfold finish. cbn. by destruct (streamComplete d) eqn:Hc. Qed.

Lemma on_read_complete (now : Z) (r : ReadResult) (d : Decoder) :
  streamComplete d = true → streamComplete (on_read now r d) = true.
Proof.
  intros Hc. unfold on_read. destruct (reading d); [|done]. cbn [negb].
  destruct r as [chunk| |err].
  - destruct (trim_is_empty chunk).
    + destruct (_ <=? _)%nat; [apply finish_complete|].
      unfold loop_check. cbn. rewrite Hc. apply finish_complete.
    + pose proof (process_lines_chunks_only now (split_lines chunk)
        (set_fullResponse
           (fullResponse (set_emptyChunksCount 0 (resetStreamTimeout now d))
            +:+ chunk)
           (set_emptyChunksCount 0 (resetStreamTimeout now d)))) as Hlines.
      destruct (process_lines _ _ _) as [d' done]. cbn [fst] in Hlines.
      destruct Hlines as (Hc' & _). cbn in Hc'.
      unfold loop_check. rewrite Hc', Hc, orb_true_r. apply finish_complete.
  - apply finish_complete.
  - cbn. by rewrite Hc.
Qed.

Lemma advance_to_complete (now : Z) (d : Decoder) :
  streamComplete d = true → streamComplete (advance_to now d) = true.
Proof.
  intros Hc. unfold advance_to. destruct (streamTimeout d); [|done].
  destruct (_ <=? _); [apply timer_fires_complete|done].
Qed.

Lemma step_complete (d : Decoder) (e : Z * StreamInput) :
  streamComplete d = true → streamComplete (step timeout d e) = true.
Proof.
  intros Hc. destruct e as [now i]. unfold step.
  pose proof (advance_to_complete now d Hc) as Hc'.
  destruct i; [by apply on_read_complete|done|done].
Qed.

(** While no completion has been made, [processStream] is waiting for a
    read and the timer is due a full window after the latest chunk, blank
    or not. *)
Lemma run_not_complete (t0 : Z) (evs : list (Z * StreamInput)) :
  streamComplete (run timeout t0 evs) = false →
  reading (run timeout t0 evs) = true
  ∧ streamTimeout (run timeout t0 evs) = Some (inactivity_due t0 evs).
Proof.
  unfold run, inactivity_due, last_chunk_time.
  induction evs as [|[now i] evs IH] using rev_ind; [done|].
  rewrite !fold_left_app. cbn [fold_left snd fst].
  set (d := fold_left (step timeout) evs (onloadstart t0)) in *.
  intros Hopen.
  destruct (streamComplete d) eqn:Hc.
  { by rewrite step_complete in Hopen. }
  destruct (IH eq_refl) as [Hr Ht]. unfold step in Hopen |- *.
  assert (advance_to now d = d) as Hadv.
  { unfold advance_to in Hopen |- *. rewrite Ht in Hopen |- *.
    destruct (_ <=? _); [|done]. exfalso.
    pose proof (timer_fires_complete
                  (fold_left (fun t e => match e.2 with
                                         | Read (ReadChunk _) => e.1
                                         | _ => t
                                         end) evs t0
                   + STREAM_INACTIVITY_MS) d) as Hf.
    destruct i; [by rewrite on_read_complete in Hopen|..];
      cbn in Hopen; congruence. }
  rewrite Hadv in Hopen |- *.
  destruct i as [[chunk| |err]|err|]; [| | |done|done].
  - unfold on_read in Hopen |- *. rewrite Hr in Hopen |- *. cbn [negb] in *.
    destruct (trim_is_empty chunk).
    + destruct (_ <=? _)%nat; [by rewrite finish_complete in Hopen|].
      unfold loop_check in Hopen |- *. cbn in Hopen |- *. rewrite Hc in *.
      cbn. by rewrite Hr.
    + pose proof (process_lines_chunks_only now (split_lines chunk)
        (set_fullResponse
           (fullResponse (set_emptyChunksCount 0 (resetStreamTimeout now d))
            +:+ chunk)
           (set_emptyChunksCount 0 (resetStreamTimeout now d)))) as Hlines.
      destruct (process_lines _ _ _) as [d' done]. cbn [fst] in Hlines.
      destruct Hlines as (Hc' & Hr' & Ht' & _). cbn in Hc', Hr', Ht'.
      unfold loop_check in Hopen |- *. rewrite Hc', Hc, orb_false_r in *.
      destruct done; [by rewrite finish_complete in Hopen|].
      by rewrite Hr', Ht', Hr.
  - unfold on_read in Hopen. rewrite Hr in Hopen. cbn [negb] in Hopen.
    by rewrite finish_complete in Hopen.
  - unfold on_read in Hopen. rewrite Hr in Hopen. cbn in Hopen.
    by rewrite Hc in Hopen.
Qed.

(** Reads that settle after the stream was completed add chunk callbacks at
    most: no second completion, no error. *)
Lemma step_after_complete (d : Decoder) (now : Z) (r : ReadResult) :
  streamComplete d = true →
  terminals (calls (step timeout d (now, Read r))) = terminals (calls d).
Proof.
  intros Hc. unfold step.
  assert (terminals (calls (advance_to now d)) = terminals (calls d)
          ∧ streamComplete (advance_to now d) = true) as [<- Hc'].
  { split; [|by apply advance_to_complete].
    unfold advance_to. destruct (streamTimeout d); [|done].
    destruct (_ <=? _); [|done]. unfold timer_fires. cbn. by rewrite Hc. }
  generalize dependent (advance_to now d). clear d Hc. intros d Hc.
  unfold on_read. destruct (reading d); [|done]. cbn [negb].
  assert (∀ d', streamComplete d' = true →
                terminals (calls (finish now d')) = terminals (calls d'))
    as Hfin.
  { intros d' Hd'. unfold finish. cbn. by rewrite Hd'. }
  destruct r as [chunk| |err].
  - destruct (trim_is_empty chunk).
    + destruct (_ <=? _)%nat; [by rewrite Hfin|].
      unfold loop_check. cbn. rewrite Hc. by rewrite Hfin.
    + pose proof (process_lines_chunks_only now (split_lines chunk)
        (set_fullResponse
           (fullResponse (set_emptyChunksCount 0 (resetStreamTimeout now d))
            +:+ chunk)
           (set_emptyChunksCount 0 (resetStreamTimeout now d)))) as Hlines.
      destruct (process_lines _ _ _) as [d' done]. cbn [fst] in Hlines.
      destruct Hlines as (Hc' & _ & _ & _ & _ & new & Hnew & Hall & _).
      cbn in Hc', Hnew.
      unfold loop_check. rewrite Hc', Hc, orb_true_r.
      rewrite Hfin by congruence. rewrite Hnew, terminals_app.
      assert (terminals new = []) as ->; [|apply app_nil_r].
      clear -Hall. induction Hall as [|c new Hc _ IH]; [done|].
      unfold terminals in *. cbn. by rewrite Hc.
  - by rewrite Hfin.
  - cbn. by rewrite Hc.
Qed.

(** The accumulator is the concatenation of the deltas handed out so far,
    whatever has arrived. *)
Lemma emit_terminal_content (now : Z) (c : Callback) (d : Decoder) :
  is_chunk_call c = false →
  content d = concat_deltas (deltas (calls d)) →
  content (emit now c d) = concat_deltas (deltas (calls (emit now c d))).
Proof.
  intros Hc Hd. cbn [emit content calls]. rewrite deltas_app.
  destruct c; try done; cbn; by rewrite app_nil_r.
Qed.

Lemma timer_fires_content (now : Z) (d : Decoder) :
  content d = concat_deltas (deltas (calls d)) →
  content (timer_fires now d)
  = concat_deltas (deltas (calls (timer_fires now d))).
Proof.
  intros Hd. unfold timer_fires. cbn [streamComplete set_streamTimeout].
  destruct (streamComplete d); [done|]. by apply emit_terminal_content.
Qed.

Lemma finish_content (now : Z) (d : Decoder) :
  content d = concat_deltas (deltas (calls d)) →
  content (finish now d) = concat_deltas (deltas (calls (finish now d))).
Proof.
  intros Hd. unfold finish. cbn [streamComplete set_reading].
  destruct (streamComplete d); [done|]. by apply emit_terminal_content.
Qed.

Lemma chunks_only_content (d d' : Decoder) :
  chunks_only d d' →
  content d = concat_deltas (deltas (calls d)) →
  content d' = concat_deltas (deltas (calls d')).
Proof.
  intros (_ & _ & _ & _ & _ & new & -> & _ & ->) ->.
  by rewrite deltas_app, concat_deltas_app.
Qed.

Lemma step_content (d : Decoder) (e : Z * StreamInput) :
  content d = concat_deltas (deltas (calls d)) →
  content (step timeout d e)
  = concat_deltas (deltas (calls (step timeout d e))).
Proof.
  intros Hd. destruct e as [now i]. unfold step.
  assert (content (advance_to now d)
          = concat_deltas (deltas (calls (advance_to now d)))) as Hadv.
  { unfold advance_to. destruct (streamTimeout d); [|done].
    destruct (_ <=? _); [by apply timer_fires_content|done]. }
  generalize dependent (advance_to now d). clear d Hd. intros d Hd.
  destruct i as [r|err|]; [|by apply emit_terminal_content..].
  unfold on_read. destruct (reading d); [|done]. cbn [negb].
  destruct r as [chunk| |err].
  - destruct (trim_is_empty chunk).
    + destruct (_ <=? _)%nat; [by apply finish_content|].
      unfold loop_check. destruct (_ || _); [by apply finish_content|done].
    + pose proof (process_lines_chunks_only now (split_lines chunk)
        (set_fullResponse
           (fullResponse (set_emptyChunksCount 0 (resetStreamTimeout now d))
            +:+ chunk)
           (set_emptyChunksCount 0 (resetStreamTimeout now d)))) as Hlines.
      destruct (process_lines _ _ _) as [d' done]. cbn [fst] in Hlines.
      apply chunks_only_content in Hlines; [|done].
      unfold loop_check. destruct (_ || _); [by apply finish_content|done].
  - by apply finish_content.
  - cbn [streamComplete set_reading set_streamTimeout].
    destruct (streamComplete d); [done|]. by apply emit_terminal_content.
Qed.

Lemma run_content (t0 : Z) (evs : list (Z * StreamInput)) :
  content (run timeout t0 evs)
  = concat_deltas (deltas (calls (run timeout t0 evs))).
Proof.
  unfold run. induction evs as [|e evs IH] using rev_ind; [done|].
  rewrite fold_left_app. cbn [fold_left]. by apply step_content.
Qed.

Lemma reads_after_complete (more : list (Z * StreamInput)) (d : Decoder) :
  streamComplete d = true →
  Forall (fun e => is_read e.2 = true) more →
  terminals (calls (fold_left (step timeout) more d)) = terminals (calls d).
Proof.
  revert d. induction more as [|[now i] more IH]; intros d Hc Hall; [done|].
  apply Forall_cons in Hall as [Hi Hall]. cbn [fold_left].
  rewrite IH; [|by apply step_complete|done].
  destruct i; [by apply step_after_complete|done|done].
Qed.

End DecoderFacts.

(** A response whose chunks arrive less than the inactivity window apart,
    one of them carrying the [[DONE]] sentinel: the decoder makes chunk
    callbacks and then one completion callback, not a timed-out one, whose
    content is the concatenation, in order, of all the deltas handed to the
    chunk consumer; nothing is pending afterwards, and [rateTweetStreaming]
    resolves with that same content. *)
Lemma sentinel_stream_aggregate_is_concat
    (parser : Transport.JsonParser) (timeout t0 : Z)
    (chunks : list (Z * string)) :
  Api.within_window t0 chunks →
  Exists (fun c => Api.has_sentinel c.2 = true) chunks →
  ∃ pre t fr dta,
    Api.calls (Api.run timeout t0 (Api.chunk_reads chunks))
    = pre ++ [(t, Api.OnComplete
                    (Api.concat_deltas
                       (Api.deltas
                          (Api.calls
                             (Api.run timeout t0 (Api.chunk_reads chunks)))))
                    fr dta false)]
    ∧ Forall (fun c => Api.is_chunk_call c.2 = true) pre
    ∧ Api.quiesce (Api.run timeout t0 (Api.chunk_reads chunks))
      = Api.run timeout t0 (Api.chunk_reads chunks)
    ∧ Api.settled
        (Api.rateTweetStreaming
           (Api.calls (Api.run timeout t0 (Api.chunk_reads chunks))))
      = Some (JsValue.Normal
                {| Api.a_content :=
                     JsValue.JStr
                       (Api.concat_deltas
                          (Api.deltas
                             (Api.calls
                                (Api.run timeout t0
                                   (Api.chunk_reads chunks)))));
                   Api.a_error := false;
                   Api.a_data := dta |}).
Proof.
  intros Hwin Hex. unfold Api.run.
  destruct (run_chunks timeout chunks (Api.onloadstart t0) t0
              (onloadstart_open t0) Hwin) as [_ Hdone].
  destruct (Hdone Hex) as (Hc & Hr & Ht & pre & t & fr & dta & Hcalls & Hall).
  assert (Api.deltas (pre ++ [(t, Api.OnComplete
            (Api.concat_deltas (Api.deltas pre)) fr dta false)])
          = Api.deltas pre) as Hdeltas.
  { rewrite deltas_app. apply app_nil_r. }
  exists pre, t, fr, dta. rewrite Hcalls, Hdeltas.
  split; [done|]. split; [done|]. split.
  - unfold Api.quiesce. by rewrite Ht.
  - unfold Api.rateTweetStreaming. rewrite fold_left_app.
    rewrite (consume_chunks pre) by done. reflexivity.
Qed.

(** An instance: three deltas in two chunks, then the sentinel, all within
    600 ms. *)
Lemma sentinel_stream_aggregate_is_concat_example :
  ∃ pre t fr dta,
    Api.calls (@Api.run Fixtures.parser0 30000 0
                 (Api.chunk_reads Fixtures.chunks_done))
    = pre ++ [(t, Api.OnComplete
                    (Api.concat_deltas
                       (Api.deltas
                          (Api.calls
                             (@Api.run Fixtures.parser0 30000 0
                                (Api.chunk_reads Fixtures.chunks_done)))))
                    fr dta false)]
    ∧ Forall (fun c => Api.is_chunk_call c.2 = true) pre
    ∧ Api.quiesce (@Api.run Fixtures.parser0 30000 0
                     (Api.chunk_reads Fixtures.chunks_done))
      = @Api.run Fixtures.parser0 30000 0
          (Api.chunk_reads Fixtures.chunks_done)
    ∧ Api.settled
        (Api.rateTweetStreaming
           (Api.calls (@Api.run Fixtures.parser0 30000 0
                         (Api.chunk_reads Fixtures.chunks_done))))
      = Some (JsValue.Normal
                {| Api.a_content :=
                     JsValue.JStr
                       (Api.concat_deltas
                          (Api.deltas
                             (Api.calls
                                (@Api.run Fixtures.parser0 30000 0
                                   (Api.chunk_reads Fixtures.chunks_done)))));
                   Api.a_error := false;
                   Api.a_data := dta |}).
Proof.
  apply (sentinel_stream_aggregate_is_concat Fixtures.parser0 30000 0
           Fixtures.chunks_done).
  - vm_compute. repeat split; first [reflexivity | discriminate].
  - do 2 apply Exists_cons_tl. apply Exists_cons_hd. reflexivity.
Defined.

(** What that run hands out: the deltas, and the content of the completion
    callback and of the resolved promise. *)
Example sentinel_stream_run :
  Api.deltas (Api.calls (@Api.run Fixtures.parser0 30000 0
                           (Api.chunk_reads Fixtures.chunks_done)))
  = [JsValue.JStr "Good "; JsValue.JStr "tweet. "; JsValue.JStr "SCORE_9"]
  ∧ Api.a_content
      <$> (Api.settled
             (Api.rateTweetStreaming
                (Api.calls (@Api.run Fixtures.parser0 30000 0
                              (Api.chunk_reads Fixtures.chunks_done))))
           ≫= fun r => match r with
                        | JsValue.Normal a => Some a
                        | JsValue.Throw _ => None
                        end)
    = Some (JsValue.JStr "Good tweet. SCORE_9").
Proof. split; vm_compute; reflexivity. Qed.

(** C7, at the failing input.  The response is two well-formed frames and
    the sentinel, with eleven seconds between the frames.  The inactivity
    timer completes the stream at 10.2 s with the content of the first
    frame.  The loop tests [streamComplete] at its head only, not after
    [await reader.read()]: the read that was pending delivers the second
    chunk at 11.2 s, and its delta still goes to the chunk consumer, after
    the completion.  The completion callback and the resolved promise hold
    "Good ", the deltas handed out concatenate to "Good tweet. ". *)
Lemma C7_late_chunk_after_timeout_completion :
  Api.terminals
    (Api.calls (Api.quiesce (@Api.run Fixtures.parser0 30000 0
                               (Api.chunk_reads Fixtures.chunks_late))))
  = [(10200, Api.OnComplete "Good " (Fixtures.frame "Good ")
               (Fixtures.json_frame "Good ") true)]
  ∧ Api.concat_deltas
      (Api.deltas
         (Api.calls (Api.quiesce (@Api.run Fixtures.parser0 30000 0
                                    (Api.chunk_reads Fixtures.chunks_late)))))
    = "Good tweet. "
  ∧ Api.settled
      (Api.rateTweetStreaming
         (Api.calls (Api.quiesce (@Api.run Fixtures.parser0 30000 0
                                    (Api.chunk_reads Fixtures.chunks_late)))))
    = Some (JsValue.Normal
              {| Api.a_content := JsValue.JStr "Good ";
                 Api.a_error := false;
                 Api.a_data := Fixtures.json_frame "Good " |})
  ∧ Api.calls (Api.quiesce (@Api.run Fixtures.parser0 30000 0
                              (Api.chunk_reads Fixtures.chunks_late)))
    = [(200, Api.OnChunk (JsValue.JStr "Good ") "Good "
               (Fixtures.json_frame "Good "));
       (10200, Api.OnComplete "Good " (Fixtures.frame "Good ")
                 (Fixtures.json_frame "Good ") true);
       (11200, Api.OnChunk (JsValue.JStr "tweet. ") "Good tweet. "
                 (Fixtures.json_frame "tweet. "))].
Proof. repeat split; vm_compute; reflexivity. Qed.

(** C8 (as amended).  While the decoder has completed nothing, the
    inactivity timer is due 10 s after the latest chunk of any kind, blank
    ones included (or after the opening of the stream).  When that time comes
    with nothing else arriving, the timer completes the stream: it makes the
    completion callback with the content accumulated so far, which is the
    concatenation of the deltas handed out, marked as timed out.  It does not
    make the error callback, and reads that settle later make neither an
    error nor a second completion. *)
Theorem C8_inactivity_timeout_completes_without_error
    (parser : Transport.JsonParser) (timeout t0 : Z)
    (evs : list (Z * Api.StreamInput)) :
  Api.streamComplete (Api.run timeout t0 evs) = false →
  Api.streamTimeout (Api.run timeout t0 evs)
  = Some (Api.last_chunk_time t0 evs + 10000)
  ∧ Api.content (Api.run timeout t0 evs)
    = Api.concat_deltas (Api.deltas (Api.calls (Api.run timeout t0 evs)))
  ∧ Api.calls (Api.advance_to (Api.inactivity_due t0 evs)
                 (Api.run timeout t0 evs))
    = Api.calls (Api.run timeout t0 evs)
      ++ [Api.timeout_completion (Api.run timeout t0 evs)
            (Api.inactivity_due t0 evs)]
  ∧ ∀ more, Forall (fun e => Api.is_read e.2 = true) more →
            Api.terminals
              (Api.calls
                 (fold_left (Api.step timeout) more
                    (Api.advance_to (Api.inactivity_due t0 evs)
                       (Api.run timeout t0 evs))))
            = Api.terminals (Api.calls (Api.run timeout t0 evs))
              ++ [Api.timeout_completion (Api.run timeout t0 evs)
                    (Api.inactivity_due t0 evs)].
Proof.
  intros Hopen.
  destruct (run_not_complete timeout t0 evs Hopen) as [Hr Ht].
  assert (Api.advance_to (Api.inactivity_due t0 evs)
            (Api.run timeout t0 evs)
          = Api.timer_fires (Api.inactivity_due t0 evs)
              (Api.run timeout t0 evs)) as Hadv.
  { unfold Api.advance_to. by rewrite Ht, Z.leb_refl. }
  split; [done|]. split; [apply run_content|].
  assert (Api.calls (Api.timer_fires (Api.inactivity_due t0 evs)
                       (Api.run timeout t0 evs))
          = Api.calls (Api.run timeout t0 evs)
            ++ [Api.timeout_completion (Api.run timeout t0 evs)
                  (Api.inactivity_due t0 evs)]) as Hcalls.
  { unfold Api.timer_fires. cbn. by rewrite Hopen. }
  rewrite Hadv. split; [done|].
  intros more Hmore.
  rewrite reads_after_complete; [|apply timer_fires_complete|done].
  by rewrite Hcalls, terminals_app.
Qed.

(** C8, an instance: three deltas arrive within 400 ms and then nothing.  The
    timer completes the stream at 10.4 s with "Good tweet. SCORE_9", from
    which the score 9 is read. *)
Lemma C8_inactivity_timeout_completes_without_error_witness :
  Api.streamTimeout (@Api.run Fixtures.parser0 30000 0
                       (Api.chunk_reads Fixtures.chunks_stalled))
  = Some (400 + 10000)
  ∧ Api.content (@Api.run Fixtures.parser0 30000 0
                   (Api.chunk_reads Fixtures.chunks_stalled))
    = Api.concat_deltas
        (Api.deltas
           (Api.calls (@Api.run Fixtures.parser0 30000 0
                         (Api.chunk_reads Fixtures.chunks_stalled))))
  ∧ Api.calls
      (Api.advance_to
         (Api.inactivity_due 0 (Api.chunk_reads Fixtures.chunks_stalled))
         (@Api.run Fixtures.parser0 30000 0
            (Api.chunk_reads Fixtures.chunks_stalled)))
    = Api.calls (@Api.run Fixtures.parser0 30000 0
                   (Api.chunk_reads Fixtures.chunks_stalled))
      ++ [Api.timeout_completion
            (@Api.run Fixtures.parser0 30000 0
               (Api.chunk_reads Fixtures.chunks_stalled))
            (Api.inactivity_due 0 (Api.chunk_reads Fixtures.chunks_stalled))]
  ∧ ∀ more, Forall (fun e => Api.is_read e.2 = true) more →
            Api.terminals
              (Api.calls
                 (fold_left (@Api.step Fixtures.parser0 30000) more
                    (Api.advance_to
                       (Api.inactivity_due 0
                          (Api.chunk_reads Fixtures.chunks_stalled))
                       (@Api.run Fixtures.parser0 30000 0
                          (Api.chunk_reads Fixtures.chunks_stalled)))))
            = Api.terminals
                (Api.calls (@Api.run Fixtures.parser0 30000 0
                              (Api.chunk_reads Fixtures.chunks_stalled)))
              ++ [Api.timeout_completion
                    (@Api.run Fixtures.parser0 30000 0
                       (Api.chunk_reads Fixtures.chunks_stalled))
                    (Api.inactivity_due 0
                       (Api.chunk_reads Fixtures.chunks_stalled))].
Proof.
  apply (C8_inactivity_timeout_completes_without_error Fixtures.parser0
           30000 0 (Api.chunk_reads Fixtures.chunks_stalled)).
  vm_compute. reflexivity.
Defined.

(** The completion of that run, and the score read from it. *)
Example stalled_stream_run :
  Api.terminals
    (Api.calls (Api.quiesce (@Api.run Fixtures.parser0 30000 0
                               (Api.chunk_reads Fixtures.chunks_stalled))))
  = [(10400, Api.OnComplete "Good tweet. SCORE_9"
               (Fixtures.frame "Good " +:+ Fixtures.frame "tweet. "
                +:+ Fixtures.frame "SCORE_9")
               (Fixtures.json_frame "SCORE_9") true)]
  ∧ Api.score_of_content "Good tweet. SCORE_9" = Some 9.
Proof. split; vm_compute; reflexivity. Qed.

(** C8 as stated fails for blank chunks: they reset the timer too.  A blank
    chunk arrives 9 s after the stream opened.  At 10 s no chunk that is not
    blank has arrived and nothing has been completed, yet the decoder makes
    no callback: the timer is now due at 19 s.  The sentinel arrives at 18 s
    and the stream completes normally, without ever timing out. *)
Lemma C8_blank_chunk_resets_timer :
  JsString.trim_is_empty " " = true
  ∧ Api.calls (@Api.run_until Fixtures.parser0 30000 0
                 (Api.chunk_reads Fixtures.chunks_blank_then_done) 10000)
    = []
  ∧ Api.streamComplete
      (@Api.run_until Fixtures.parser0 30000 0
         (Api.chunk_reads Fixtures.chunks_blank_then_done) 10000) = false
  ∧ Api.streamTimeout
      (@Api.run_until Fixtures.parser0 30000 0
         (Api.chunk_reads Fixtures.chunks_blank_then_done) 10000)
    = Some 19000
  ∧ Api.calls
      (Api.quiesce (@Api.run Fixtures.parser0 30000 0
                      (Api.chunk_reads Fixtures.chunks_blank_then_done)))
    = [(18000, Api.OnComplete "" "data: [DONE]" JsValue.JNull false)].
Proof. repeat split; vm_compute; reflexivity. Qed.

(** ** The callback log of the streaming decoder *)

Section LogFacts.
Import JsString JsValue Transport Api Streams.
Context `{!JsonParser}.
Variable timeout : Z.

Lemma consume_aggregate (cs : list (Z * Callback)) (s : StreamingCall) :
  aggregatedContent (fold_left consume cs s)
  = aggregatedContent s +:+ concat_deltas (deltas cs).
Proof.
  revert s. induction cs as [|[t c] cs IH]; intros s.
  - cbn. by rewrite sapp_nil_r.
  - cbn [fold_left]. rewrite IH. destruct c; cbn; [|done..].
    by rewrite sapp_assoc.
Qed.

Lemma consistent_from_snoc (acc : string) (cs : list (Z * Callback))
    (c : Z * Callback) :
  consistent_from acc (cs ++ [c]) ↔
  consistent_from acc cs
  ∧ consistent_from (acc +:+ concat_deltas (deltas cs)) [c].
Proof.
  revert acc. induction cs as [|[t x] cs IH]; intros acc.
  - cbn [app deltas omap concat_deltas foldr]. rewrite sapp_nil_r. cbn. tauto.
  - cbn [app]. destruct x as [delta content data|content fr data timedOut|msg].
    + cbn [consistent_from]. rewrite IH.
      change (deltas ((t, OnChunk delta content data) :: cs))
        with (delta :: deltas cs).
      change (concat_deltas (delta :: deltas cs))
        with (js_toString delta +:+ concat_deltas (deltas cs)).
      rewrite <- sapp_assoc. split.
      * intros (-> & ? & ?). done.
      * intros ((-> & ?) & ?). done.
    + cbn [consistent_from]. rewrite IH.
      change (deltas ((t, OnComplete content fr data timedOut) :: cs))
        with (deltas cs). tauto.
    + cbn [consistent_from]. rewrite IH.
      change (deltas ((t, OnError msg) :: cs)) with (deltas cs). tauto.
Qed.

Lemma log_ok_emit_terminal (now : Z) (c : Callback) (d : Decoder) :
  consistent_from (content d) [(now, c)] → is_chunk_call c = false →
  log_ok d → log_ok (emit now c d).
Proof.
  intros Hc Hterm [Hlog Hcont]. split.
  - cbn [emit calls]. apply consistent_from_snoc. split; [done|].
    rewrite sapp_nil_l, <- Hcont. done.
  - by apply emit_terminal_content.
Qed.

Lemma log_ok_timer_fires (now : Z) (d : Decoder) :
  log_ok d → log_ok (timer_fires now d).
Proof.
  intros Hd. unfold timer_fires. cbn [streamComplete set_streamTimeout].
  destruct (streamComplete d); [done|].
  apply log_ok_emit_terminal; [by cbn|done|done].
Qed.

Lemma log_ok_finish (now : Z) (d : Decoder) : log_ok d → log_ok (finish now d).
Proof.
  intros Hd. unfold finish. cbn [streamComplete set_reading].
  destruct (streamComplete d); [done|].
  apply log_ok_emit_terminal; [by cbn|done|done].
Qed.

Lemma log_ok_process_line (now : Z) (line : string) (d : Decoder) :
  log_ok d → log_ok (process_line now line d).1.
Proof.
  intros [Hlog Hcont]. unfold process_line.
  destruct (startsWith _ _); [|done].
  destruct (String.eqb _ _); [done|].
  destruct (JSON_parse _) as [parsed|]; [|done].
  destruct (delta_of parsed) as [[delta|]|]; cbn [fst]; [|done..].
  split.
  - cbn [emit calls set_content set_responseObj content].
    apply consistent_from_snoc. split; [done|].
    rewrite sapp_nil_l, <- Hcont. by cbn.
  - cbn [emit calls set_content set_responseObj content].
    rewrite deltas_app, concat_deltas_app, <- Hcont. cbn.
    by rewrite sapp_nil_r.
Qed.

Lemma log_ok_process_lines (now : Z) (lines : list string) (d : Decoder) :
  log_ok d → log_ok (process_lines now lines d).1.
Proof.
  revert d. induction lines as [|line lines IH]; intros d Hd; [done|].
  cbn. pose proof (log_ok_process_line now line d Hd) as Hline.
  destruct (process_line now line d) as [d1 done]. cbn [fst] in Hline.
  destruct done; [done|]. by apply IH.
Qed.

Lemma log_ok_step (d : Decoder) (e : Z * StreamInput) :
  log_ok d → log_ok (step timeout d e).
Proof.
  intros Hd. destruct e as [now i]. unfold step.
  assert (log_ok (advance_to now d)) as Hadv.
  { unfold advance_to. destruct (streamTimeout d); [|done].
    destruct (_ <=? _); [by apply log_ok_timer_fires|done]. }
  generalize dependent (advance_to now d). clear d Hd. intros d Hd.
  destruct i as [r|err|]; [|by apply log_ok_emit_terminal..].
  unfold on_read. destruct (reading d); [|done]. cbn [negb].
  destruct r as [chunk| |err].
  - destruct (trim_is_empty chunk).
    + destruct (_ <=? _)%nat; [by apply log_ok_finish|].
      unfold loop_check. destruct (_ || _); [by apply log_ok_finish|done].
    + pose proof (log_ok_process_lines now (split_lines chunk)
        (set_fullResponse
           (fullResponse (set_emptyChunksCount 0 (resetStreamTimeout now d))
            +:+ chunk)
           (set_emptyChunksCount 0 (resetStreamTimeout now d))) Hd) as Hlines.
      destruct (process_lines _ _ _) as [d' done]. cbn [fst] in Hlines.
      unfold loop_check. destruct (_ || _); [by apply log_ok_finish|done].
  - by apply log_ok_finish.
  - cbn [streamComplete set_reading set_streamTimeout].
    destruct (streamComplete d); [done|].
    by apply log_ok_emit_terminal.
Qed.

Lemma log_ok_run (t0 : Z) (evs : list (Z * StreamInput)) :
  log_ok (run timeout t0 evs).
Proof.
  unfold run. induction evs as [|e evs IH] using rev_ind; [by split|].
  rewrite fold_left_app. cbn [fold_left]. by apply log_ok_step.
Qed.

Lemma log_ok_quiesce (d : Decoder) : log_ok d → log_ok (quiesce d).
Proof.
  intros Hd. unfold quiesce. destruct (streamTimeout d); [|done].
  by apply log_ok_timer_fires.
Qed.

(** Counting callbacks other than chunk callbacks. *)
Variable f : Callback → bool.
Hypothesis f_chunk : ∀ c, is_chunk_call c = true → f c = false.

Lemma count_chunks_only (d d' : Decoder) :
  chunks_only d d' →
  List.filter (fun c => f c.2) (calls d')
  = List.filter (fun c => f c.2) (calls d).
Proof.
  intros (_ & _ & _ & _ & _ & new & Hnew & Hall & _).
  rewrite Hnew, List.filter_app.
  assert (List.filter (fun c => f c.2) new = []) as ->; [|apply app_nil_r].
  clear -Hall f_chunk. induction Hall as [|c new Hc _ IH]; [done|].
  cbn. by rewrite (f_chunk _ Hc).
Qed.

Lemma at_most_once_emit (now : Z) (c : Callback) (d : Decoder) :
  streamComplete d = false → at_most_once f d →
  at_most_once f (emit now c (set_streamComplete true d)).
Proof.
  unfold at_most_once. intros -> Hcount.
  cbn [emit calls set_streamComplete streamComplete].
  rewrite List.filter_app, Hcount. cbn. destruct (f c); cbn; lia.
Qed.

Lemma at_most_once_timer_fires (now : Z) (d : Decoder) :
  at_most_once f d → at_most_once f (timer_fires now d).
Proof.
  intros Hd. unfold timer_fires. cbn [streamComplete set_streamTimeout].
  destruct (streamComplete d) eqn:Hc.
  - unfold at_most_once in *. cbn [streamComplete set_streamTimeout calls].
    by rewrite Hc in *.
  - apply (at_most_once_emit now _ (set_streamTimeout None d)); [done|].
    unfold at_most_once in *. cbn [streamComplete set_streamTimeout calls].
    by rewrite Hc in *.
Qed.

Lemma at_most_once_finish (now : Z) (d : Decoder) :
  at_most_once f d → at_most_once f (finish now d).
Proof.
  intros Hd. unfold finish. cbn [streamComplete set_reading].
  destruct (streamComplete d) eqn:Hc.
  - unfold at_most_once in *. cbn [streamComplete set_reading calls].
    by rewrite Hc in *.
  - unfold at_most_once in *.
    cbn [emit calls set_streamComplete set_streamTimeout set_reading
         streamComplete].
    rewrite Hc in Hd. rewrite List.filter_app, Hd. cbn.
    destruct (f _); cbn; lia.
Qed.

Lemma at_most_once_chunks_only (d d' : Decoder) :
  chunks_only d d' → at_most_once f d → at_most_once f d'.
Proof.
  intros Hch. unfold at_most_once.
  rewrite (count_chunks_only d d' Hch). by destruct Hch as (-> & _).
Qed.

Lemma at_most_once_on_read (now : Z) (r : ReadResult) (d : Decoder) :
  at_most_once f d → at_most_once f (on_read now r d).
Proof.
  intros Hd. unfold on_read. destruct (reading d); [|done]. cbn [negb].
  destruct r as [chunk| |err].
  - destruct (trim_is_empty chunk).
    + destruct (_ <=? _)%nat; [by apply at_most_once_finish|].
      unfold loop_check. destruct (_ || _); [by apply at_most_once_finish|done].
    + pose proof (process_lines_chunks_only now (split_lines chunk)
        (set_fullResponse
           (fullResponse (set_emptyChunksCount 0 (resetStreamTimeout now d))
            +:+ chunk)
           (set_emptyChunksCount 0 (resetStreamTimeout now d)))) as Hlines.
      destruct (process_lines _ _ _) as [d' done]. cbn [fst] in Hlines.
      assert (at_most_once f d') as Hd'.
      { eapply at_most_once_chunks_only; [exact Hlines|done]. }
      unfold loop_check. destruct (_ || _); [by apply at_most_once_finish|done].
  - by apply at_most_once_finish.
  - cbn [streamComplete set_reading set_streamTimeout].
    destruct (streamComplete d) eqn:Hc.
    + unfold at_most_once in *.
      cbn [streamComplete set_reading set_streamTimeout calls].
      by rewrite Hc in *.
    + apply (at_most_once_emit now _
               (set_reading false (set_streamTimeout None d))); [done|].
      unfold at_most_once in *.
      cbn [streamComplete set_reading set_streamTimeout calls].
      by rewrite Hc in *.
Qed.

Lemma at_most_once_advance_to (now : Z) (d : Decoder) :
  at_most_once f d → at_most_once f (advance_to now d).
Proof.
  intros Hd. unfold advance_to. destruct (streamTimeout d); [|done].
  destruct (_ <=? _); [by apply at_most_once_timer_fires|done].
Qed.

(** The request's own error handlers make error callbacks, whatever the
    state of the stream: they are counted by [f] only when [f] counts more
    than completions. *)
Lemma at_most_once_step (d : Decoder) (e : Z * StreamInput) :
  (is_read e.2 = true ∨ ∀ c, f c = true → is_complete_call c = true) →
  at_most_once f d → at_most_once f (step timeout d e).
Proof.
  intros Hcase Hd. destruct e as [now i]. unfold step.
  pose proof (at_most_once_advance_to now d Hd) as Hadv.
  destruct i as [r|err|]; [by apply at_most_once_on_read|..].
  all: destruct Hcase as [?|Hf]; [done|].
  all: unfold at_most_once in *; cbn [emit streamComplete calls];
    rewrite List.filter_app; cbn.
  all: match goal with
       | |- context [f ?c] =>
           destruct (f c) eqn:Hfc; [by apply Hf in Hfc|]
       end.
  all: by rewrite app_nil_r.
Qed.

Lemma at_most_once_run (t0 : Z) (evs : list (Z * StreamInput)) :
  (Forall (fun e => is_read e.2 = true) evs
   ∨ ∀ c, f c = true → is_complete_call c = true) →
  at_most_once f (run timeout t0 evs).
Proof.
  intros Hcase. unfold run.
  induction evs as [|e evs IH] using rev_ind; [done|].
  rewrite fold_left_app. cbn [fold_left]. apply at_most_once_step.
  - destruct Hcase as [Hall|Hf]; [|by right].
    left. apply Forall_app in Hall as [_ Hall]. by inversion Hall.
  - apply IH. destruct Hcase as [Hall|Hf]; [|by right].
    left. by apply Forall_app in Hall as [Hall _].
Qed.

Lemma at_most_once_length (d : Decoder) :
  at_most_once f d →
  (length (List.filter (fun c => f c.2) (calls d)) ≤ 1)%nat.
Proof.
  unfold at_most_once. destruct (streamComplete d); [done|].
  intros ->. cbn. lia.
Qed.

End LogFacts.

(** X9.  Whatever arrives from the transport, and in whatever timing, every
    callback the decoder makes carries the concatenation of the deltas handed
    out up to it: each chunk callback the deltas up to and including its own,
    each completion callback (timed out or not) the deltas handed out before
    it.  The aggregate [rateTweetStreaming] collects from the chunk callbacks
    is the decoder's own accumulator. *)
Theorem decoder_callbacks_carry_the_concatenation
    (parser : Transport.JsonParser) (timeout t0 : Z)
    (evs : list (Z * Api.StreamInput)) :
  Streams.consistent_from ""
    (Api.calls (Api.quiesce (Api.run timeout t0 evs)))
  ∧ Api.aggregatedContent
      (Api.rateTweetStreaming
         (Api.calls (Api.quiesce (Api.run timeout t0 evs))))
    = Api.content (Api.quiesce (Api.run timeout t0 evs))
  ∧ Streams.consistent_from "" (Api.calls (Api.run timeout t0 evs))
  ∧ Api.aggregatedContent
      (Api.rateTweetStreaming (Api.calls (Api.run timeout t0 evs)))
    = Api.content (Api.run timeout t0 evs).
Proof.
  pose proof (log_ok_run timeout t0 evs) as Hrun.
  pose proof (log_ok_quiesce _ Hrun) as [Hq1 Hq2].
  destruct Hrun as [Hr1 Hr2].
  unfold Api.rateTweetStreaming. rewrite !consume_aggregate.
  cbn [Api.aggregatedContent]. rewrite !sapp_nil_l. by rewrite Hq2, Hr2.
Qed.

(** X10.  The decoder makes the completion callback once at most, whatever
    arrives; and as long as only reads settle (the request's own error and
    timeout handlers stay silent) it makes one completion or error callback
    at most in all. *)
Theorem decoder_completes_at_most_once
    (parser : Transport.JsonParser) (timeout t0 : Z)
    (evs : list (Z * Api.StreamInput)) :
  (length (Streams.completions
             (Api.calls (Api.quiesce (Api.run timeout t0 evs)))) ≤ 1)%nat
  ∧ (Forall (fun e => Api.is_read e.2 = true) evs →
     (length (Api.terminals
                (Api.calls (Api.quiesce (Api.run timeout t0 evs)))) ≤ 1)%nat).
Proof.
  split.
  - apply (at_most_once_length Streams.is_complete_call).
    unfold Api.quiesce. destruct (Api.streamTimeout _).
    + apply at_most_once_timer_fires.
      apply at_most_once_run; [by intros [] | by right].
    + apply at_most_once_run; [by intros [] | by right].
  - intros Hreads.
    apply (at_most_once_length (fun c => negb (Api.is_chunk_call c))).
    unfold Api.quiesce. destruct (Api.streamTimeout _).
    + apply at_most_once_timer_fires.
      apply at_most_once_run; [by intros [] ?; simplify_eq/= | by left].
    + apply at_most_once_run; [by intros [] ?; simplify_eq/= | by left].
Qed.

(** X10, an instance: the stream whose second frame is late.  The timer's
    completion is the only one; the late read adds a chunk callback. *)
Lemma decoder_completes_at_most_once_witness :
  (length (Api.terminals
             (Api.calls
                (Api.quiesce
                   (@Api.run Fixtures.parser0 30000 0
                      (Api.chunk_reads Fixtures.chunks_late))))) ≤ 1)%nat.
Proof.
  apply (proj2 (decoder_completes_at_most_once Fixtures.parser0 30000 0
                  (Api.chunk_reads Fixtures.chunks_late))).
  repeat constructor.
Defined.

(** ** The ends of a stream *)

Section StreamEndFacts.
Import JsString JsValue Transport Api Streams.
Context `{!JsonParser}.
Variable timeout : Z.

(** A read that settles once [processStream] has left its loop and no timer
    is pending changes nothing. *)
Lemma step_at_rest (d : Decoder) (now : Z) (r : ReadResult) :
  reading d = false → streamTimeout d = None →
  step timeout d (now, Read r) = d.
Proof. intros Hr Ht. unfold step, advance_to, on_read. by rewrite Ht, Hr. Qed.

Lemma fold_step_at_rest (chunks : list (Z * string)) (d : Decoder) :
  reading d = false → streamTimeout d = None →
  fold_left (step timeout) (chunk_reads chunks) d = d.
Proof.
  intros Hr Ht. induction chunks as [|[t c] chunks IH]; [done|].
  rewrite chunk_reads_cons. cbn [fold_left]. by rewrite step_at_rest.
Qed.

(** While nothing is complete fewer than three blank chunks have arrived in
    a row. *)
Lemma run_open_blank_count (t0 : Z) (evs : list (Z * StreamInput)) :
  streamComplete (run timeout t0 evs) = false →
  (emptyChunksCount (run timeout t0 evs) < 3)%nat.
Proof.
  unfold run. induction evs as [|[now i] evs IH] using rev_ind;
    [cbn; lia|].
  rewrite !fold_left_app. cbn [fold_left].
  set (d := fold_left (step timeout) evs (onloadstart t0)) in *.
  intros Hopen.
  destruct (streamComplete d) eqn:Hc.
  { by rewrite step_complete in Hopen. }
  specialize (IH eq_refl). unfold step in Hopen |- *.
  assert (advance_to now d = d) as Hadv.
  { unfold advance_to in Hopen |- *. destruct (streamTimeout d); [|done].
    destruct (_ <=? _); [|done]. exfalso.
    destruct i; [by rewrite on_read_complete in Hopen
                   by apply timer_fires_complete|..];
      cbn [emit streamComplete] in Hopen;
      by rewrite timer_fires_complete in Hopen. }
  rewrite Hadv in Hopen |- *.
  destruct i as [[chunk| |err]|err|]; [| | |done|done].
  - unfold on_read in Hopen |- *. destruct (reading d); [|done].
    cbn [negb] in *. destruct (trim_is_empty chunk).
    + destruct (3 <=? _)%nat eqn:Hle;
        [by rewrite finish_complete in Hopen|].
      apply Nat.leb_gt in Hle.
      unfold loop_check in Hopen |- *. cbn in Hopen |- *. rewrite Hc in *.
      cbn in Hle |- *. lia.
    + pose proof (process_lines_chunks_only now (split_lines chunk)
        (set_fullResponse
           (fullResponse (set_emptyChunksCount 0 (resetStreamTimeout now d))
            +:+ chunk)
           (set_emptyChunksCount 0 (resetStreamTimeout now d)))) as Hlines.
      destruct (process_lines _ _ _) as [d' done]. cbn [fst] in Hlines.
      destruct Hlines as (Hc' & _ & _ & He' & _). cbn in Hc', He'.
      unfold loop_check in Hopen |- *. rewrite Hc', Hc, orb_false_r in *.
      destruct done; [by rewrite finish_complete in Hopen|].
      rewrite He'. lia.
  - unfold on_read in Hopen |- *. destruct (reading d); [|done].
    cbn [negb] in *. by rewrite finish_complete in Hopen.
  - unfold on_read in Hopen |- *. destruct (reading d); [|done].
    cbn in Hopen. by rewrite Hc in Hopen.
Qed.

(** Blank chunks arriving at an open stream, each within the window: the
    loop ends the stream with the chunk that makes three in a row. *)
Lemma blank_chunks_end_stream (blanks : list (Z * string)) :
  ∀ (d : Decoder) (t_last : Z),
    streamComplete d = false → reading d = true →
    streamTimeout d = Some (t_last + STREAM_INACTIVITY_MS) →
    within_window t_last blanks →
    Forall (fun c => trim_is_empty c.2 = true) blanks →
    (3 ≤ emptyChunksCount d + length blanks)%nat →
    (emptyChunksCount d < 3)%nat →
    ∃ t, In t (map fst blanks)
      ∧ calls (fold_left (step timeout) (chunk_reads blanks) d)
        = calls d ++ [(t, OnComplete (content d) (fullResponse d)
                            (responseObj d) false)]
      ∧ streamComplete (fold_left (step timeout) (chunk_reads blanks) d)
        = true
      ∧ streamTimeout (fold_left (step timeout) (chunk_reads blanks) d)
        = None.
Proof.
  induction blanks as [|[now chunk] blanks IH];
    intros d t_last Hc Hr Ht Hwin Hall Hlen Hlt; [cbn in Hlen; lia|].
  destruct Hwin as [Hnow Hwin]. cbn [fst] in Hnow, Hwin.
  apply Forall_cons in Hall as [Hblank Hall]. cbn [snd] in Hblank.
  rewrite chunk_reads_cons. cbn [fold_left].
  assert (step timeout d (now, Read (ReadChunk chunk))
          = if (3 <=? S (emptyChunksCount d))%nat
            then finish now
                   (set_emptyChunksCount (S (emptyChunksCount d))
                      (resetStreamTimeout now d))
            else set_emptyChunksCount (S (emptyChunksCount d))
                   (resetStreamTimeout now d)) as ->.
  { unfold step. rewrite (advance_to_before_due now _ d Ht) by lia.
    unfold on_read. rewrite Hr, Hblank. cbn [negb].
    cbn [emptyChunksCount set_emptyChunksCount resetStreamTimeout
         set_streamTimeout].
    destruct (3 <=? _)%nat; [done|]. unfold loop_check. cbn. by rewrite Hc. }
  destruct (3 <=? S (emptyChunksCount d))%nat eqn:Hle.
  - rewrite fold_step_at_rest; [|unfold finish; cbn; by rewrite Hc..].
    exists now. split; [by left|]. unfold finish. cbn. by rewrite Hc.
  - apply Nat.leb_gt in Hle.
    destruct (IH (set_emptyChunksCount (S (emptyChunksCount d))
                    (resetStreamTimeout now d)) now)
      as (t & Hin & Hcalls & Hdone & Htimer);
      [done|done|done|done|done|cbn in Hlen |- *; lia|cbn; lia|].
    exists t. split; [by right|]. by split.
Qed.

(** A chunk all of whose lines the loop passes over. *)
Lemma process_lines_skipped (now : Z) (lines : list string) (d : Decoder) :
  forallb skipped_line lines = true →
  process_lines now lines d = (d, false).
Proof.
  revert d. induction lines as [|line lines IH]; intros d; [done|].
  cbn [forallb]. intros [Hline Hrest]%andb_prop. cbn [process_lines].
  assert (process_line now line d = (d, false)) as ->; [|by apply IH].
  unfold skipped_line in Hline. unfold process_line.
  destruct (startsWith line "data: "); [|done]. cbn [negb orb] in Hline.
  destruct (String.eqb _ _); [done|]. cbn [negb andb] in Hline.
  by destruct (JSON_parse _).
Qed.

Lemma settled_sticky (cs : list (Z * Callback)) (s : StreamingCall)
    (r : completion AttemptResult) :
  settled s = Some r → settled (fold_left consume cs s) = Some r.
Proof.
  revert s. induction cs as [|[t c] cs IH]; intros s Hs; [done|].
  cbn [fold_left]. apply IH. destruct c; cbn; by rewrite ?Hs.
Qed.

Lemma run_app (t0 : Z) (a b : list (Z * StreamInput)) :
  run timeout t0 (a ++ b) = fold_left (step timeout) b (run timeout t0 a).
Proof. unfold run. apply fold_left_app. Qed.

End StreamEndFacts.

(** X11.  Three blank chunks in a row end the stream.  When nothing is
    complete after the inputs [evs] and three blank chunks then arrive, each
    less than the inactivity window after the chunk before it, the loop
    completes the stream with one of them, at the third at the latest: one
    completion callback, not marked as timed out, with the content, the raw
    response and the last event as they were before the blank chunks; the
    timer is cleared. *)
Theorem blank_chunks_complete_the_stream
    (parser : Transport.JsonParser) (timeout t0 : Z)
    (evs : list (Z * Api.StreamInput)) (blanks : list (Z * string)) :
  Api.streamComplete (Api.run timeout t0 evs) = false →
  Api.within_window (Api.last_chunk_time t0 evs) blanks →
  Forall (fun c => JsString.trim_is_empty c.2 = true) blanks →
  length blanks = 3%nat →
  ∃ t, In t (map fst blanks)
    ∧ Api.calls (Api.run timeout t0 (evs ++ Api.chunk_reads blanks))
      = Api.calls (Api.run timeout t0 evs)
        ++ [(t, Api.OnComplete (Api.content (Api.run timeout t0 evs))
                  (Api.fullResponse (Api.run timeout t0 evs))
                  (Api.responseObj (Api.run timeout t0 evs)) false)]
    ∧ Api.quiesce (Api.run timeout t0 (evs ++ Api.chunk_reads blanks))
      = Api.run timeout t0 (evs ++ Api.chunk_reads blanks).
Proof.
  intros Hopen Hwin Hall Hlen.
  destruct (run_not_complete timeout t0 evs Hopen) as [Hr Ht].
  pose proof (run_open_blank_count timeout t0 evs Hopen) as Hcount.
  destruct (blank_chunks_end_stream timeout blanks (Api.run timeout t0 evs)
              (Api.last_chunk_time t0 evs))
    as (t & Hin & Hcalls & Hdone & Htimer); try done; [lia|].
  rewrite run_app.
  exists t. split; [done|]. split; [done|].
  unfold Api.quiesce. by rewrite Htimer.
Qed.

(** X11, an instance: three blank chunks after the first frame. *)
Lemma blank_chunks_complete_the_stream_witness :
  ∃ t, In t (map fst [(1200, " "); (2200, String "010" ""); (3200, "")])
    ∧ Api.calls (@Api.run Fixtures.parser0 30000 0
                   ([(200, Api.Read (Api.ReadChunk (Fixtures.frame "Good ")))]
                    ++ Api.chunk_reads
                         [(1200, " "); (2200, String "010" ""); (3200, "")]))
      = Api.calls (@Api.run Fixtures.parser0 30000 0
                     [(200, Api.Read
                              (Api.ReadChunk (Fixtures.frame "Good ")))])
        ++ [(t, Api.OnComplete
                  (Api.content
                     (@Api.run Fixtures.parser0 30000 0
                        [(200, Api.Read
                                 (Api.ReadChunk (Fixtures.frame "Good ")))]))
                  (Api.fullResponse
                     (@Api.run Fixtures.parser0 30000 0
                        [(200, Api.Read
                                 (Api.ReadChunk (Fixtures.frame "Good ")))]))
                  (Api.responseObj
                     (@Api.run Fixtures.parser0 30000 0
                        [(200, Api.Read
                                 (Api.ReadChunk (Fixtures.frame "Good ")))]))
                  false)]
    ∧ Api.quiesce
        (@Api.run Fixtures.parser0 30000 0
           ([(200, Api.Read (Api.ReadChunk (Fixtures.frame "Good ")))]
            ++ Api.chunk_reads
                 [(1200, " "); (2200, String "010" ""); (3200, "")]))
      = @Api.run Fixtures.parser0 30000 0
          ([(200, Api.Read (Api.ReadChunk (Fixtures.frame "Good ")))]
           ++ Api.chunk_reads
                [(1200, " "); (2200, String "010" ""); (3200, "")]).
Proof.
  apply (blank_chunks_complete_the_stream Fixtures.parser0 30000 0
           [(200, Api.Read (Api.ReadChunk (Fixtures.frame "Good ")))]
           [(1200, " "); (2200, String "010" ""); (3200, "")]).
  - vm_compute. reflexivity.
  - vm_compute. repeat split; first [reflexivity | discriminate].
  - repeat constructor.
  - reflexivity.
Defined.

(** X12.  The end of the transport and a failed read, while nothing is
    complete and the inactivity timer is not yet due: when [reader.read()]
    reports [done] the decoder makes the completion callback with what has
    accumulated, not marked as timed out; when the read fails it makes the
    error callback with "Stream processing error: " and the error.  Either
    way the timer is cleared, and reads that settle later add no completion
    and no error. *)
Theorem end_of_transport_and_read_failure
    (parser : Transport.JsonParser) (timeout t0 : Z)
    (evs : list (Z * Api.StreamInput)) (now : Z) :
  Api.streamComplete (Api.run timeout t0 evs) = false →
  now < Api.inactivity_due t0 evs →
  (Api.calls (Api.run timeout t0 (evs ++ [(now, Api.Read Api.ReadDone)]))
   = Api.calls (Api.run timeout t0 evs)
     ++ [(now, Api.OnComplete (Api.content (Api.run timeout t0 evs))
                 (Api.fullResponse (Api.run timeout t0 evs))
                 (Api.responseObj (Api.run timeout t0 evs)) false)]
   ∧ Api.streamTimeout
       (Api.run timeout t0 (evs ++ [(now, Api.Read Api.ReadDone)])) = None
   ∧ ∀ more,
       Forall (fun e => Api.is_read e.2 = true) more →
       Api.terminals
         (Api.calls
            (Api.run timeout t0
               ((evs ++ [(now, Api.Read Api.ReadDone)]) ++ more)))
       = Api.terminals
           (Api.calls
              (Api.run timeout t0 (evs ++ [(now, Api.Read Api.ReadDone)]))))
  ∧ (∀ err,
       Api.calls
         (Api.run timeout t0 (evs ++ [(now, Api.Read (Api.ReadFail err))]))
       = Api.calls (Api.run timeout t0 evs)
         ++ [(now, Api.OnError ("Stream processing error: " +:+ err))]
       ∧ Api.streamTimeout
           (Api.run timeout t0 (evs ++ [(now, Api.Read (Api.ReadFail err))]))
         = None
       ∧ ∀ more,
           Forall (fun e => Api.is_read e.2 = true) more →
           Api.terminals
             (Api.calls
                (Api.run timeout t0
                   ((evs ++ [(now, Api.Read (Api.ReadFail err))]) ++ more)))
           = Api.terminals
               (Api.calls
                  (Api.run timeout t0
                     (evs ++ [(now, Api.Read (Api.ReadFail err))])))).
Proof.
  intros Hopen Hnow.
  destruct (run_not_complete timeout t0 evs Hopen) as [Hr Ht].
  assert (∀ r, Api.run timeout t0 (evs ++ [(now, Api.Read r)])
               = Api.on_read now r (Api.run timeout t0 evs)) as Hstep.
  { intros r. rewrite run_app. cbn [fold_left]. unfold Api.step.
    by rewrite (advance_to_before_due now _ _ Ht). }
  split.
  - rewrite Hstep. split; [|split].
    + unfold Api.on_read, Api.finish. rewrite Hr. cbn. by rewrite Hopen.
    + unfold Api.on_read, Api.finish. rewrite Hr. cbn. by rewrite Hopen.
    + intros more Hmore. rewrite run_app, Hstep.
      apply reads_after_complete; [|done].
      unfold Api.on_read. rewrite Hr. apply finish_complete.
  - intros err. rewrite Hstep. split; [|split].
    + unfold Api.on_read. rewrite Hr. cbn. by rewrite Hopen.
    + unfold Api.on_read. rewrite Hr. cbn. by rewrite Hopen.
    + intros more Hmore. rewrite run_app, Hstep.
      apply reads_after_complete; [|done].
      unfold Api.on_read. rewrite Hr. cbn. by rewrite Hopen.
Qed.

(** X12, an instance: the transport ends 300 ms after the last frame of the
    stalled stream. *)
Lemma end_of_transport_and_read_failure_witness :
  Api.calls (@Api.run Fixtures.parser0 30000 0
               (Api.chunk_reads Fixtures.chunks_stalled
                ++ [(700, Api.Read Api.ReadDone)]))
  = Api.calls (@Api.run Fixtures.parser0 30000 0
                 (Api.chunk_reads Fixtures.chunks_stalled))
    ++ [(700, Api.OnComplete
                (Api.content
                   (@Api.run Fixtures.parser0 30000 0
                      (Api.chunk_reads Fixtures.chunks_stalled)))
                (Api.fullResponse
                   (@Api.run Fixtures.parser0 30000 0
                      (Api.chunk_reads Fixtures.chunks_stalled)))
                (Api.responseObj
                   (@Api.run Fixtures.parser0 30000 0
                      (Api.chunk_reads Fixtures.chunks_stalled)))
                false)].
Proof.
  refine (proj1 (proj1 (end_of_transport_and_read_failure Fixtures.parser0
                          30000 0 (Api.chunk_reads Fixtures.chunks_stalled)
                          700 _ _))).
  - vm_compute. reflexivity.
  - vm_compute. reflexivity.
Defined.

(** X13.  A chunk that is not blank and all of whose lines the loop passes
    over (lines that do not start with "data: ", such as the comment lines a
    provider sends to keep the connection alive, and event lines whose
    payload does not parse) makes no callback and leaves the content as it
    is; it does not complete the stream and raises no error.  It counts as
    activity: the inactivity timer is set anew, the run of blank chunks is
    broken, and the chunk is appended to the raw response. *)
Theorem skipped_lines_only_reset_the_timer
    (parser : Transport.JsonParser) (timeout t0 : Z)
    (evs : list (Z * Api.StreamInput)) (now : Z) (chunk : string) :
  Api.streamComplete (Api.run timeout t0 evs) = false →
  now < Api.inactivity_due t0 evs →
  JsString.trim_is_empty chunk = false →
  forallb Streams.skipped_line (JsString.split_lines chunk) = true →
  Api.calls
    (Api.run timeout t0 (evs ++ [(now, Api.Read (Api.ReadChunk chunk))]))
  = Api.calls (Api.run timeout t0 evs)
  ∧ Api.content
      (Api.run timeout t0 (evs ++ [(now, Api.Read (Api.ReadChunk chunk))]))
    = Api.content (Api.run timeout t0 evs)
  ∧ Api.streamComplete
      (Api.run timeout t0 (evs ++ [(now, Api.Read (Api.ReadChunk chunk))]))
    = false
  ∧ Api.streamTimeout
      (Api.run timeout t0 (evs ++ [(now, Api.Read (Api.ReadChunk chunk))]))
    = Some (now + 10000)
  ∧ Api.emptyChunksCount
      (Api.run timeout t0 (evs ++ [(now, Api.Read (Api.ReadChunk chunk))]))
    = 0%nat
  ∧ Api.fullResponse
      (Api.run timeout t0 (evs ++ [(now, Api.Read (Api.ReadChunk chunk))]))
    = Api.fullResponse (Api.run timeout t0 evs) +:+ chunk.
Proof.
  intros Hopen Hnow Hblank Hskip.
  destruct (run_not_complete timeout t0 evs Hopen) as [Hr Ht].
  rewrite run_app. cbn [fold_left]. unfold Api.step.
  rewrite (advance_to_before_due now _ _ Ht) by done.
  unfold Api.on_read. rewrite Hr, Hblank. cbn [negb].
  rewrite process_lines_skipped by done.
  unfold Api.loop_check. cbn. by rewrite Hopen.
Qed.

(** X13, an instance: a keep-alive comment and a truncated event line
    between two frames. *)
Lemma skipped_lines_only_reset_the_timer_witness :
  Api.calls
    (@Api.run Fixtures.parser0 30000 0
       ([(200, Api.Read (Api.ReadChunk (Fixtures.frame "Good ")))]
        ++ [(9000, Api.Read
                     (Api.ReadChunk
                        (": OPENROUTER PROCESSING" +:+ String "010" ""
                         +:+ "data: {")))]))
  = Api.calls
      (@Api.run Fixtures.parser0 30000 0
         [(200, Api.Read (Api.ReadChunk (Fixtures.frame "Good ")))]).
Proof.
  refine (proj1 (skipped_lines_only_reset_the_timer Fixtures.parser0 30000 0
                   [(200, Api.Read (Api.ReadChunk (Fixtures.frame "Good ")))]
                   9000
                   (": OPENROUTER PROCESSING" +:+ String "010" ""
                    +:+ "data: {") _ _ _ _)).
  - vm_compute. reflexivity.
  - vm_compute. reflexivity.
  - vm_compute. reflexivity.
  - vm_compute. reflexivity.
Defined.

(** X14.  The promise of [rateTweetStreaming] settles with the first
    completion or error callback and never again.  When the first one is a
    completion, the promise resolves with the aggregate of the chunk
    callbacks before it, [error = false] and the completion's data; when it
    is an error, the promise rejects with the error's message, which the
    retry loop counts as a failed attempt.  Callbacks that follow, chunks
    included, do not change the outcome. *)
Theorem streaming_promise_settles_once
    (pre post : list (Z * Api.Callback)) (t : Z) :
  Forall (fun c => Api.is_chunk_call c.2 = true) pre →
  (∀ content fr d timedOut,
     Api.settled
       (Api.rateTweetStreaming
          (pre ++ (t, Api.OnComplete content fr d timedOut) :: post))
     = Some (JsValue.Normal
               {| Api.a_content :=
                    JsValue.JStr (Api.concat_deltas (Api.deltas pre));
                  Api.a_error := false;
                  Api.a_data := d |}))
  ∧ (∀ msg,
       Api.settled
         (Api.rateTweetStreaming (pre ++ (t, Api.OnError msg) :: post))
       = Some (JsValue.Throw msg)
       ∧ Api.judge (JsValue.Throw msg) = None).
Proof.
  intros Hpre. unfold Api.rateTweetStreaming. split.
  - intros content fr d timedOut. rewrite fold_left_app.
    rewrite (consume_chunks pre) by done. cbn [fold_left].
    by apply settled_sticky.
  - intros msg. split; [|done]. rewrite fold_left_app.
    rewrite (consume_chunks pre) by done. cbn [fold_left].
    by apply settled_sticky.
Qed.

(** X14, an instance: the log of the stream whose second frame is late.  The
    promise resolves with the first frame's delta; the chunk callback and
    the error that follow change nothing. *)
Lemma streaming_promise_settles_once_witness :
  Api.settled
    (Api.rateTweetStreaming
       ([(200, Api.OnChunk (JsValue.JStr "Good ") "Good "
                 (Fixtures.json_frame "Good "))]
        ++ (10200, Api.OnComplete "Good " (Fixtures.frame "Good ")
                     (Fixtures.json_frame "Good ") true)
           :: [(11200, Api.OnChunk (JsValue.JStr "tweet. ") "Good tweet. "
                         (Fixtures.json_frame "tweet. "));
               (30000, Api.OnError "Request timed out after 30000ms")]))
  = Some (JsValue.Normal
            {| Api.a_content :=
                 JsValue.JStr
                   (Api.concat_deltas
                      (Api.deltas
                         [(200, Api.OnChunk (JsValue.JStr "Good ") "Good "
                                  (Fixtures.json_frame "Good "))]));
               Api.a_error := false;
               Api.a_data := Fixtures.json_frame "Good " |}).
Proof.
  refine (proj1 (streaming_promise_settles_once
                   [(200, Api.OnChunk (JsValue.JStr "Good ") "Good "
                            (Fixtures.json_frame "Good "))]
                   [(11200, Api.OnChunk (JsValue.JStr "tweet. ") "Good tweet. "
                              (Fixtures.json_frame "tweet. "));
                    (30000, Api.OnError "Request timed out after 30000ms")]
                   10200 _) "Good " (Fixtures.frame "Good ")
            (Fixtures.json_frame "Good ") true).
  repeat constructor.
Defined.

(** ** The two patterns of the score token *)

Section PatternFacts.
Import JsString ScoreExtractor PatternSpec.

Lemma match_here_patterns_agree (c : ascii) (r : string) :
  negb (match strip_prefix "CORE_" r with
        | Some post => starts_with_digit post
        | None => false
        end)
  || Ascii.eqb c "S" || is_space c = true →
  match_here Bundle.head_SCORE (String c r)
  = match_here Api.head_SCORE (String c r).
Proof.
  unfold match_here, Bundle.head_SCORE, Api.head_SCORE.
  change (strip_prefix "SCORE_" (String c r))
    with (if Ascii.eqb "S" c then strip_prefix "CORE_" r else None).
  rewrite (Ascii.eqb_sym "S" c).
  destruct (Ascii.eqb_spec c "S") as [->|Hne]; [done|].
  destruct (is_space c); [done|]. rewrite !orb_false_r.
  destruct (strip_prefix "CORE_" r) as [post|]; [|done].
  intros Hpost%negb_true_iff. by rewrite take_digits_no_digit.
Qed.

Lemma search_patterns_agree (text : string) :
  only_SCORE_tokens text = true →
  search Bundle.head_SCORE text = search Api.head_SCORE text.
Proof.
  induction text as [|c r IH]; [done|].
  cbn [only_SCORE_tokens]. intros [Hc Hr]%andb_prop.
  cbn [search]. rewrite (match_here_patterns_agree c r Hc).
  by rewrite IH.
Qed.

Lemma match_here_Api_Bundle (s d : string) :
  match_here Api.head_SCORE s = Some d →
  match_here Bundle.head_SCORE s = Some d.
Proof.
  unfold match_here, Bundle.head_SCORE, Api.head_SCORE.
  destruct s as [|c r]; [done|].
  change (strip_prefix "SCORE_" (String c r))
    with (if Ascii.eqb "S" c then strip_prefix "CORE_" r else None).
  destruct (Ascii.eqb_spec "S" c) as [<-|Hne]; done.
Qed.

End PatternFacts.

(** X1.  The pattern of the bundled userscript, [/\SCORE_(\d+)/], and the
    pattern of [api.js], [/SCORE_(\d+)/], read the same score off every text
    in which each [CORE_] that is followed by a digit comes after an [S] or
    after white space (or opens the text); and whatever the text, the
    bundled pattern finds a score wherever the other one does. *)
Theorem patterns_agree_on_SCORE_tokens (text : string) :
  (PatternSpec.only_SCORE_tokens text = true →
   Bundle.score_of_content text = Api.score_of_content text)
  ∧ (∀ n, Api.score_of_content text = Some n →
          ∃ m, Bundle.score_of_content text = Some m).
Proof.
  split.
  - intros Hok. unfold Bundle.score_of_content, Api.score_of_content,
      Bundle.scoreMatch, Api.scoreMatch.
    by rewrite search_patterns_agree.
  - intros n. unfold Bundle.score_of_content, Api.score_of_content,
      Bundle.scoreMatch, Api.scoreMatch.
    destruct (ScoreExtractor.search Api.head_SCORE text) as [d|] eqn:Hs;
      [|done].
    intros _. apply search_Some in Hs as (pre & suf & -> & Hm & _).
    apply match_here_Api_Bundle in Hm.
    destruct (ScoreExtractor.search Bundle.head_SCORE (pre +:+ suf))
      as [d'|] eqn:Hb; [by eexists|].
    apply search_None in Hb. congruence.
Qed.

(** X1, an instance: a rating that also mentions an encore. *)
Lemma patterns_agree_on_SCORE_tokens_witness :
  Bundle.score_of_content "An ENCORE_ worth it. SCORE_9"
  = Api.score_of_content "An ENCORE_ worth it. SCORE_9".
Proof.
  refine (proj1 (patterns_agree_on_SCORE_tokens
                   "An ENCORE_ worth it. SCORE_9") _).
  vm_compute. reflexivity.
Defined.

(** ** The rate limiter, in closed form *)

(** X2.  A caller of the rate limiter is released when it arrives or 250 ms
    after the time stamp it finds, whichever is later, and the time stamp it
    leaves is the time it arrived at.  For callers that come one at a time,
    each arriving after the caller before it has been released, the release
    times are therefore: each caller's arrival, or 250 ms after the arrival
    of the caller before it. *)
Theorem rate_limiter_release_times (w : Page.World) (arrivals : list Z) :
  Page.clock (Page.rate_limit w)
  = Z.max (Page.clock w) (Page.lastAPICallTime w + 250)
  ∧ Page.lastAPICallTime (Page.rate_limit w) = Page.clock w
  ∧ (LimiterSpec.one_at_a_time (Page.lastAPICallTime w) arrivals = true →
     Page.grants arrivals w
     = LimiterSpec.expected_grants (Page.lastAPICallTime w) arrivals).
Proof.
  assert (∀ w, Page.clock (Page.rate_limit w)
               = Z.max (Page.clock w) (Page.lastAPICallTime w + 250)
               ∧ Page.lastAPICallTime (Page.rate_limit w) = Page.clock w)
    as Hone.
  { clear. intros w. unfold Page.rate_limit, Page.API_CALL_DELAY_MS.
    destruct (_ <? _) eqn:Hlt; cbn; [apply Z.ltb_lt in Hlt|apply Z.ltb_ge in Hlt];
      split; lia. }
  split; [apply Hone|]. split; [apply Hone|].
  revert w. induction arrivals as [|t rest IH]; intros w Hturn; [done|].
  cbn [Page.grants LimiterSpec.expected_grants]. unfold Page.acquire_at.
  cbn [LimiterSpec.one_at_a_time] in Hturn.
  apply andb_prop in Hturn as [_ Hrest].
  destruct (Hone (Page.set_clock t w)) as [Hc Hl]. rewrite Hc, IH, Hl.
  - reflexivity.
  - by rewrite Hl.
Qed.

(** X2, an instance: callers at 2000, 2100 and 2400 ms; the second is
    released at 2250 ms, before the third arrives. *)
Lemma rate_limiter_release_times_witness :
  Page.grants [2000; 2100; 2400] Fixtures.world0
  = LimiterSpec.expected_grants (Page.lastAPICallTime Fixtures.world0)
      [2000; 2100; 2400].
Proof.
  refine (proj2 (proj2 (rate_limiter_release_times Fixtures.world0
                          [2000; 2100; 2400])) _).
  reflexivity.
Defined.

(** ** The retry loop, attempt by attempt *)

Section LoopFacts.
Import JsValue Transport Page.
#[local] Arguments rate_limit : simpl never.
#[local] Arguments Nat.ltb : simpl never.
#[local] Arguments failed_rounds : simpl never.

Lemma rate_limit_frame (w : World) :
  settings (rate_limit w) = settings w
  ∧ processedTweets (rate_limit w) = processedTweets w
  ∧ tweetIDRatingCache (rate_limit w) = tweetIDRatingCache w
  ∧ storedRatings (rate_limit w) = storedRatings w
  ∧ pendingRequests (rate_limit w) = pendingRequests w
  ∧ articles (rate_limit w) = articles w
  ∧ timers (rate_limit w) = timers w.
Proof. unfold rate_limit. by destruct (_ <? _). Qed.



Section Bundle.
Context `{!JsonParser}.
Variable net : nat → Z * NetOutcome.
Variables tweetText tweetId : string.
Variable maxRetries : nat.


(** The attempt that ends the loop, by its verdict. *)
Lemma bundle_last_attempt (left attempt : nat) (w : World) :
  let result := getCompletion 30000 (net (S attempt)).2 in
  let w1 :=
    set_pendingRequests (pendingRequests w)
      (sleep (net (S attempt)).1
         (log (EvDispatch tweetId (S attempt))
            (set_pendingRequests (pendingRequests w + 1) (rate_limit w)))) in
  Bundle.attempts net tweetText tweetId maxRetries (S left) attempt w
  = match Bundle.verdict result with
    | Bundle.Scored content digits =>
        (saveTweetRatings
           (set_cache
              (<[tweetId := {| tweetContent := tweetText;
                               score := JsString.parseInt10 digits;
                               description := content;
                               streaming := None; timestamp := None |}]>
                 (tweetIDRatingCache w1)) w1),
         Normal {| Bundle.rating_score := JsString.parseInt10 digits;
                   Bundle.rating_content := content;
                   Bundle.rating_error := false |})
    | Bundle.Thrown => (w1, Throw type_error)
    | Bundle.NoScore =>
        Bundle.attempts net tweetText tweetId maxRetries left (S attempt)
          (if (S attempt <? maxRetries)%nat
           then sleep (backoffDelay (S attempt))
                  (log (EvBackoff (S attempt) (backoffDelay (S attempt))) w1)
           else w1)
    end.
Proof.
  cbn zeta. cbn [Bundle.attempts].
  destruct (rate_limit_frame w) as (_ & _ & _ & _ & Rpe & _).
  assert (pendingRequests
            (sleep (net (S attempt)).1
               (log (EvDispatch tweetId (S attempt))
                  (set_pendingRequests (pendingRequests (rate_limit w) + 1)
                     (rate_limit w)))) - 1
          = pendingRequests w) as Hp by (cbn; lia).
  rewrite Hp, Rpe. reflexivity.
Qed.

Lemma bundle_attempts_pending (left attempt : nat) (w : World) :
  pendingRequests
    (Bundle.attempts net tweetText tweetId maxRetries left attempt w).1
  = pendingRequests w.
Proof.
  revert attempt w. induction left as [|left IH]; intros attempt w; [done|].
  rewrite bundle_last_attempt. cbn zeta.
  destruct (Bundle.verdict _); [done| |done].
  rewrite IH. by destruct (_ <? _)%nat.
Qed.

Lemma bundle_attempts_dispatches (left attempt : nat) (w : World) :
  (Bundle.dispatches w + Nat.min 1 left
   ≤ Bundle.dispatches
       (Bundle.attempts net tweetText tweetId maxRetries left attempt w).1
   ≤ Bundle.dispatches w + left)%nat.
Proof.
  revert attempt w. induction left as [|left IH]; intros attempt w;
    [cbn; lia|].
  rewrite bundle_last_attempt. cbn zeta.
  set (w1 := set_pendingRequests _ _).
  assert (Bundle.dispatches w1 = S (Bundle.dispatches w)) as H1.
  { unfold w1, Bundle.dispatches. cbn [trace set_pendingRequests sleep
      set_clock log set_trace].
    rewrite List.filter_app, length_app. cbn.
    fold (Bundle.dispatches (rate_limit w)).
    rewrite dispatches_rate_limit. unfold Bundle.dispatches. lia. }
  destruct (Bundle.verdict _); cbn [fst].
  - change (Bundle.dispatches (saveTweetRatings (set_cache ?c w1)))
      with (Bundle.dispatches w1). lia.
  - match goal with
    | |- context [Bundle.attempts _ _ _ _ left (S attempt) ?w'] =>
        pose proof (IH (S attempt) w') as Hrec;
        assert (Bundle.dispatches w' = Bundle.dispatches w1) as Hw'
    end.
    { destruct (_ <? _)%nat; [|done]. unfold Bundle.dispatches.
      cbn [trace sleep set_clock log set_trace].
      rewrite List.filter_app, length_app. cbn. lia. }
    rewrite Hw' in Hrec. lia.
  - lia.
Qed.

End Bundle.

Section Api.
Variable attempt_call : nat → World → World * completion Api.AttemptResult.
Hypothesis attempt_call_trace :
  ∀ n w, trace (attempt_call n w).1 = trace w.
Variable tweet : string.
Variable maxRetries : nat.

Lemma api_attempts_dispatches (left attempt : nat) (w : World) :
  (Bundle.dispatches w + Nat.min 1 left
   ≤ Bundle.dispatches
       (Api.attempts attempt_call tweet maxRetries left attempt w).1
   ≤ Bundle.dispatches w + left)%nat.
Proof.
  revert attempt w. induction left as [|left IH]; intros attempt w;
    [cbn; lia|].
  cbn [Api.attempts].
  pose proof (attempt_call_trace (S attempt)
    (log (EvDispatch tweet (S attempt))
       (set_pendingRequests (pendingRequests (rate_limit w) + 1)
          (rate_limit w)))) as Htr.
  destruct (attempt_call _ _) as [w1 r]. cbn [fst] in Htr.
  assert (Bundle.dispatches (Api.settle_pending r w1)
          = S (Bundle.dispatches w)) as H1.
  { unfold Bundle.dispatches. rewrite api_settle_pending_trace, Htr.
    cbn [trace set_pendingRequests log set_trace].
    rewrite List.filter_app, length_app. cbn.
    fold (Bundle.dispatches (rate_limit w)).
    rewrite dispatches_rate_limit. unfold Bundle.dispatches. lia. }
  destruct (Api.judge r); cbn [fst]; [lia|].
  match goal with
  | |- context [Api.attempts _ _ _ left (S attempt) ?w'] =>
      pose proof (IH (S attempt) w') as Hrec;
      assert (Bundle.dispatches w'
              = Bundle.dispatches (Api.settle_pending r w1)) as Hw'
  end.
  { destruct (_ <? _)%nat; [|done]. unfold Bundle.dispatches.
    cbn [trace sleep set_clock log set_trace].
    rewrite List.filter_app, length_app. cbn. lia. }
  rewrite Hw' in Hrec. lia.
Qed.

Hypothesis attempt_call_pending :
  ∀ n w, pendingRequests (attempt_call n w).1 = pendingRequests w.
Hypothesis attempt_call_text :
  ∀ n w, match (attempt_call n w).2 with
         | Normal result =>
             Api.a_error result = false → truthy (Api.a_content result) = true →
             ∃ text, Api.a_content result = JStr text
         | Throw _ => True
         end.

Lemma api_attempts_pending (left attempt : nat) (w : World) :
  pendingRequests (Api.attempts attempt_call tweet maxRetries left attempt w).1
  = pendingRequests w.
Proof.
  revert attempt w. induction left as [|left IH]; intros attempt w; [done|].
  cbn [Api.attempts].
  pose proof (attempt_call_pending (S attempt)
    (log (EvDispatch tweet (S attempt))
       (set_pendingRequests (pendingRequests (rate_limit w) + 1)
          (rate_limit w)))) as Hp.
  pose proof (attempt_call_text (S attempt)
    (log (EvDispatch tweet (S attempt))
       (set_pendingRequests (pendingRequests (rate_limit w) + 1)
          (rate_limit w)))) as Htext.
  destruct (attempt_call _ _) as [w1 r]. cbn [fst snd] in Hp, Htext.
  destruct (rate_limit_frame w) as (_ & _ & _ & _ & Rpe & _).
  assert (pendingRequests (Api.settle_pending r w1) = pendingRequests w)
    as H1.
  { unfold Api.settle_pending. destruct r as [result|]; [|cbn; rewrite Hp; cbn; lia].
    destruct (Api.a_error result) eqn:He; cbn [negb andb];
      [cbn; rewrite Hp; cbn; lia|].
    destruct (truthy (Api.a_content result)) eqn:Ht;
      [|cbn; rewrite Hp; cbn; lia].
    destruct (Htext eq_refl eq_refl) as [text ->]. cbn. rewrite Hp. cbn. lia. }
  destruct (Api.judge r); cbn [fst]; [done|].
  rewrite IH. by destruct (_ <? _)%nat.
Qed.

End Api.

Lemma attempt_non_streaming_trace `{!JsonParser}
    (net : nat → Z * NetOutcome) (n : nat) (w : World) :
  trace (Api.attempt_non_streaming net n w).1 = trace w.
Proof. unfold Api.attempt_non_streaming. by destruct (net n). Qed.

Lemma attempt_streaming_trace `{!JsonParser}
    (feed : nat → list (Z * Api.StreamInput)) (n : nat) (w : World) :
  trace (Api.attempt_streaming feed n w).1 = trace w.
Proof. reflexivity. Qed.

Lemma attempt_streaming_text `{!JsonParser}
    (feed : nat → list (Z * Api.StreamInput)) (n : nat) (w : World) :
  match (Api.attempt_streaming feed n w).2 with
  | Normal result =>
      Api.a_error result = false → truthy (Api.a_content result) = true →
      ∃ text, Api.a_content result = JStr text
  | Throw _ => True
  end.
Proof.
  unfold Api.attempt_streaming. cbn [snd].
  generalize (Api.calls
                (Api.quiesce
                   (Api.run 30000 (clock w)
                      (map (λ e, (clock w + e.1, e.2)) (feed n))))).
  intros cs. unfold Api.rateTweetStreaming.
  assert (∀ s,
            match Api.settled s with
            | Some (Normal result) => ∃ text, Api.a_content result = JStr text
            | _ => True
            end →
            match Api.settled (fold_left Api.consume cs s) with
            | Some (Normal result) => ∃ text, Api.a_content result = JStr text
            | _ => True
            end) as Hfold.
  { induction cs as [|[t c] cs IH]; intros s Hs; [done|].
    cbn [fold_left]. apply IH. destruct c; cbn; [done|..].
    - destruct (Api.settled s) as [[r|]|]; [done|done|by eexists].
    - by destruct (Api.settled s) as [[r|]|]. }
  specialize (Hfold {| Api.aggregatedContent := ""; Api.finalData := JNull;
                       Api.settled := None |} I).
  destruct (Api.settled _) as [[result|]|]; [|done..].
  by intros _ _.
Qed.

End LoopFacts.

(** ** The retry loop on the clock *)

Section ClockFacts.
Import JsValue Transport Page RetrySpec.
#[local] Arguments rate_limit : simpl never.
#[local] Arguments Nat.ltb : simpl never.
#[local] Arguments failed_rounds : simpl never.

Lemma elapsed_0 (latency : nat → Z) (first : nat) :
  elapsed latency first 0 = 0.
Proof. reflexivity. Qed.

Lemma elapsed_S (latency : nat → Z) (first n : nat) :
  elapsed latency first (S n)
  = latency first + Z.of_nat first * Z.of_nat first * 1000
    + elapsed latency (S first) n.
Proof. reflexivity. Qed.

Lemma elapsed_last (latency : nat → Z) (first n : nat) :
  elapsed latency first (S n)
  = elapsed latency first n + latency (first + n)%nat
    + Z.of_nat (first + n) * Z.of_nat (first + n) * 1000.
Proof.
  revert first. induction n as [|n IH]; intros first.
  - rewrite elapsed_S, !elapsed_0, Nat.add_0_r. lia.
  - rewrite elapsed_S, IH, (elapsed_S latency first n).
    replace (S first + n)%nat with (first + S n)%nat by lia. lia.
Qed.

(** A caller that finds the minimum interval elapsed goes through the rate
    limiter without a wait. *)
Lemma rate_limit_no_wait (w : World) :
  API_CALL_DELAY_MS <= clock w - lastAPICallTime w →
  clock (rate_limit w) = clock w.
Proof.
  intros Hgap. unfold rate_limit. apply Z.ltb_ge in Hgap. by rewrite Hgap.
Qed.

Lemma rate_limit_stamp (w : World) :
  lastAPICallTime (rate_limit w) = clock w ∧ clock w <= clock (rate_limit w).
Proof.
  unfold rate_limit, API_CALL_DELAY_MS.
  destruct (_ <? _) eqn:Hlt; cbn; [apply Z.ltb_lt in Hlt|]; lia.
Qed.

Section Bundle.
Context `{!JsonParser}.
Variable net : nat → Z * NetOutcome.
Variables tweetText tweetId : string.
Variable maxRetries : nat.

(** [k] attempts in a row without a score, on the clock: the request of
    attempt [attempt + k + 1] goes out when the requests of the [k] attempts
    before it and the backoff sleeps after them have taken their time, and
    from the second attempt on the rate limiter adds no wait. *)
Lemma bundle_failed_prefix_timed (k : nat) :
  ∀ (left attempt : nat) (w : World),
    (k ≤ left)%nat → (attempt + k < maxRetries)%nat →
    (∀ i, (attempt < i ≤ attempt + k)%nat →
          Bundle.verdict (getCompletion 30000 (net i).2) = Bundle.NoScore) →
    (∀ i, (attempt < i ≤ attempt + k)%nat → 0 <= (net i).1) →
    ∃ wk,
      Bundle.attempts net tweetText tweetId maxRetries left attempt w
      = Bundle.attempts net tweetText tweetId maxRetries
          (left - k) (attempt + k) wk
      ∧ wire (trace wk)
        = wire (trace w) ++ failed_rounds tweetId (S attempt) k
      ∧ clock (rate_limit wk)
        = clock (rate_limit w) + elapsed (fun i => (net i).1) (S attempt) k
      ∧ ((1 ≤ k)%nat → clock (rate_limit wk) = clock wk)
      ∧ ((1 ≤ k)%nat ∨ API_CALL_DELAY_MS <= clock w - lastAPICallTime w →
         API_CALL_DELAY_MS <= clock wk - lastAPICallTime wk)
      ∧ tweetIDRatingCache wk = tweetIDRatingCache w
      ∧ storedRatings wk = storedRatings w
      ∧ pendingRequests wk = pendingRequests w.
Proof.
  induction k as [|k IH]; intros left attempt w Hk Hlt Hfail Hlat.
  - exists w. rewrite Nat.sub_0_r, Nat.add_0_r, failed_rounds_0, app_nil_r.
    rewrite elapsed_0, Z.add_0_r. repeat split; try done; [lia|].
    intros [?|?]; [lia|done].
  - destruct left as [|left]; [lia|]. cbn [Bundle.attempts].
    rewrite (Hfail (S attempt)) by lia.
    assert ((S attempt <? maxRetries)%nat = true) as ->
      by (apply Nat.ltb_lt; lia).
    match goal with
    | |- context [Bundle.attempts _ _ _ _ left (S attempt) ?w'] => set (w1 := w')
    end.
    destruct (rate_limit_stamp w) as [Hstamp Hmono].
    destruct (rate_limit_frame w) as (_ & _ & Rc & Rst & Rpe & _).
    pose proof (Hlat (S attempt) ltac:(lia)) as Hl1.
    assert (clock w1
            = clock (rate_limit w) + (net (S attempt)).1
              + Z.of_nat (S attempt) * Z.of_nat (S attempt) * 1000) as Hc1.
    { unfold w1. cbn [clock sleep set_clock log set_trace set_pendingRequests].
      rewrite backoffDelay_square. lia. }
    assert (lastAPICallTime w1 = clock w) as Hs1.
    { unfold w1. cbn [lastAPICallTime sleep set_clock log set_trace
                      set_pendingRequests]. exact Hstamp. }
    assert (API_CALL_DELAY_MS <= clock w1 - lastAPICallTime w1) as Hgap1.
    { rewrite Hc1, Hs1. unfold API_CALL_DELAY_MS. nia. }
    destruct (IH left (S attempt) w1)
      as (wk & Heq & Htr & Hck & _ & Hgap & Hcache & Hst & Hpend);
      [lia | lia | intros; apply Hfail; lia | intros; apply Hlat; lia |].
    exists wk. rewrite Heq.
    replace (S left - S k)%nat with (left - k)%nat by lia.
    replace (attempt + S k)%nat with (S attempt + k)%nat by lia.
    split; [done|]. split.
    { rewrite Htr. unfold w1.
      cbn [trace sleep set_clock log set_trace set_pendingRequests].
      rewrite !wire_app, rate_limit_wire, failed_rounds_S,
        backoffDelay_square, <- !app_assoc. reflexivity. }
    specialize (Hgap (or_intror Hgap1)).
    split.
    { rewrite Hck, (rate_limit_no_wait w1 Hgap1), Hc1, elapsed_S. lia. }
    split; [intros _; by apply rate_limit_no_wait|].
    split; [done|].
    rewrite Hcache, Hst, Hpend. unfold w1.
    cbn [tweetIDRatingCache storedRatings pendingRequests sleep set_clock log
         set_trace set_pendingRequests].
    rewrite Rc, Rst, Rpe. repeat split; lia.
Qed.

End Bundle.

Section Api.
Variable attempt_call : nat → World → World * completion Api.AttemptResult.
Variable latency : nat → Z.
Hypothesis attempt_call_trace :
  ∀ n w, trace (attempt_call n w).1 = trace w.
Hypothesis attempt_call_clock :
  ∀ n w, clock (attempt_call n w).1 = clock w + latency n.
Hypothesis attempt_call_stamp :
  ∀ n w, lastAPICallTime (attempt_call n w).1 = lastAPICallTime w.
Variable tweet : string.
Variable maxRetries : nat.

Lemma api_settle_pending_clock (r : completion Api.AttemptResult) (w : World) :
  clock (Api.settle_pending r w) = clock w
  ∧ lastAPICallTime (Api.settle_pending r w) = lastAPICallTime w.
Proof.
  unfold Api.settle_pending.
  destruct r as [res|]; [|done].
  destruct (_ && _); [|done]. by destruct (Api.a_content res).
Qed.

Lemma api_failed_prefix_timed (k : nat) :
  ∀ (left attempt : nat) (w : World),
    (k ≤ left)%nat → (attempt + k < maxRetries)%nat →
    (∀ i w', (attempt < i ≤ attempt + k)%nat →
             Api.judge (attempt_call i w').2 = None) →
    (∀ i, (attempt < i ≤ attempt + k)%nat → 0 <= latency i) →
    ∃ wk,
      Api.attempts attempt_call tweet maxRetries left attempt w
      = Api.attempts attempt_call tweet maxRetries (left - k) (attempt + k) wk
      ∧ wire (trace wk)
        = wire (trace w) ++ failed_rounds tweet (S attempt) k
      ∧ clock (rate_limit wk)
        = clock (rate_limit w) + elapsed latency (S attempt) k
      ∧ ((1 ≤ k)%nat → clock (rate_limit wk) = clock wk)
      ∧ ((1 ≤ k)%nat ∨ API_CALL_DELAY_MS <= clock w - lastAPICallTime w →
         API_CALL_DELAY_MS <= clock wk - lastAPICallTime wk).
Proof.
  induction k as [|k IH]; intros left attempt w Hk Hlt Hfail Hlat.
  - exists w. rewrite Nat.sub_0_r, Nat.add_0_r, failed_rounds_0, app_nil_r.
    rewrite elapsed_0, Z.add_0_r. repeat split; try done; [lia|].
    intros [?|?]; [lia|done].
  - destruct left as [|left]; [lia|]. cbn [Api.attempts].
    set (sent := log (EvDispatch tweet (S attempt))
                   (set_pendingRequests (pendingRequests (rate_limit w) + 1)
                      (rate_limit w))).
    pose proof (attempt_call_trace (S attempt) sent) as Htr0.
    pose proof (attempt_call_clock (S attempt) sent) as Hck0.
    pose proof (attempt_call_stamp (S attempt) sent) as Hst0.
    pose proof (Hfail (S attempt) sent ltac:(lia)) as Hj.
    destruct (attempt_call (S attempt) sent) as [w0 r].
    cbn [fst snd] in Htr0, Hck0, Hst0, Hj. rewrite Hj.
    assert ((S attempt <? maxRetries)%nat = true) as ->
      by (apply Nat.ltb_lt; lia).
    match goal with
    | |- context [Api.attempts _ _ _ left (S attempt) ?w'] => set (w1 := w')
    end.
    destruct (rate_limit_stamp w) as [Hstamp Hmono].
    destruct (api_settle_pending_clock r w0) as [Hsc Hss].
    pose proof (Hlat (S attempt) ltac:(lia)) as Hl1.
    assert (clock w1
            = clock (rate_limit w) + latency (S attempt)
              + Z.of_nat (S attempt) * Z.of_nat (S attempt) * 1000) as Hc1.
    { unfold w1. cbn [clock sleep set_clock log set_trace].
      rewrite Hsc, Hck0, backoffDelay_square. unfold sent. cbn. lia. }
    assert (lastAPICallTime w1 = clock w) as Hs1.
    { unfold w1. cbn [lastAPICallTime sleep set_clock log set_trace].
      rewrite Hss, Hst0. unfold sent. cbn. exact Hstamp. }
    assert (API_CALL_DELAY_MS <= clock w1 - lastAPICallTime w1) as Hgap1.
    { rewrite Hc1, Hs1. unfold API_CALL_DELAY_MS. nia. }
    destruct (IH left (S attempt) w1)
      as (wk & Heq & Htr & Hck & _ & Hgap);
      [lia | lia | intros; apply Hfail; lia | intros; apply Hlat; lia |].
    exists wk. rewrite Heq.
    replace (S left - S k)%nat with (left - k)%nat by lia.
    replace (attempt + S k)%nat with (S attempt + k)%nat by lia.
    split; [done|]. split.
    { rewrite Htr. unfold w1.
      cbn [trace sleep set_clock log set_trace].
      rewrite wire_app, api_settle_pending_trace, Htr0. unfold sent.
      cbn [trace log set_trace set_pendingRequests].
      rewrite !wire_app, rate_limit_wire, failed_rounds_S,
        backoffDelay_square, <- !app_assoc. reflexivity. }
    specialize (Hgap (or_intror Hgap1)).
    split.
    { rewrite Hck, (rate_limit_no_wait w1 Hgap1), Hc1, elapsed_S. lia. }
    split; [intros _; by apply rate_limit_no_wait|done].
Qed.

End Api.

Lemma attempt_non_streaming_clock `{!JsonParser}
    (net : nat → Z * NetOutcome) (n : nat) (w : World) :
  clock (Api.attempt_non_streaming net n w).1 = clock w + (net n).1
  ∧ lastAPICallTime (Api.attempt_non_streaming net n w).1
    = lastAPICallTime w.
Proof. unfold Api.attempt_non_streaming. by destruct (net n). Qed.

End ClockFacts.

(** C4.  In a run of the retry loop in which attempts 1 to [n] produce no
    score, with [1 <= n <= maxRetries - 1], the loop sleeps [n * n * 1000] ms
    after attempt [n] and then sends the request of attempt [n + 1] (1000 ms
    after attempt 1, 4000 ms after attempt 2, 9000 ms after attempt 3).  On
    the clock: the loop turns to attempt [n + 1] the time the request of
    attempt [n] took plus [n * n * 1000] ms after that request went out, and
    the request of attempt [n + 1] goes out at once, the rate limiter adding
    no wait; on the trace: each attempt [i <= n] is followed by a backoff of
    [i * i * 1000] ms and then by the request of attempt [i + 1].  This
    holds of the loop of the bundled userscript and of the loop of [api.js],
    where a rejected call counts as a failed attempt and [latency i] is the
    time the call of attempt [i] takes to settle. *)
Theorem C4_backoff_is_attempt_squared_seconds :
  (∀ (parser : Transport.JsonParser) (net : nat → Z * Transport.NetOutcome)
     (tweetText tweetId : string) (maxRetries n : nat) (w : Page.World),
     (1 ≤ n < maxRetries)%nat →
     (∀ i, (1 ≤ i ≤ n)%nat →
           Bundle.verdict (Transport.getCompletion 30000 (net i).2)
           = Bundle.NoScore) →
     (∀ i, (1 ≤ i ≤ n)%nat → 0 <= (net i).1) →
     ∃ w_n w_next rest,
       Bundle.rateTweetWithOpenRouter net tweetText tweetId maxRetries w
       = Bundle.attempts net tweetText tweetId maxRetries
           (maxRetries - (n - 1)) (n - 1) w_n
       ∧ Bundle.rateTweetWithOpenRouter net tweetText tweetId maxRetries w
         = Bundle.attempts net tweetText tweetId maxRetries
             (maxRetries - n) n w_next
       ∧ Page.clock (Page.rate_limit w_n)
         = Page.clock (Page.rate_limit w)
           + RetrySpec.elapsed (fun i => (net i).1) 1 (n - 1)
       ∧ Page.clock w_next
         = Page.clock (Page.rate_limit w_n) + (net n).1
           + Z.of_nat n * Z.of_nat n * 1000
       ∧ Page.clock (Page.rate_limit w_next) = Page.clock w_next
       ∧ Page.wire (Page.trace w_next)
         = Page.wire (Page.trace w) ++ Page.failed_rounds tweetId 1 n
       ∧ Page.wire (Page.trace (Bundle.rateTweetWithOpenRouter net tweetText
                                  tweetId maxRetries w).1)
         = Page.wire (Page.trace w) ++ Page.failed_rounds tweetId 1 n
           ++ Page.EvDispatch tweetId (S n) :: rest)
  ∧ (∀ (attempt_call :
          nat → Page.World
          → Page.World * JsValue.completion Api.AttemptResult)
       (latency : nat → Z)
       (tweet : string) (maxRetries n : nat) (w : Page.World),
       (∀ k w', Page.trace (attempt_call k w').1 = Page.trace w') →
       (∀ k w', Page.clock (attempt_call k w').1 = Page.clock w' + latency k) →
       (∀ k w', Page.lastAPICallTime (attempt_call k w').1
                = Page.lastAPICallTime w') →
       (1 ≤ n < maxRetries)%nat →
       (∀ i w', (1 ≤ i ≤ n)%nat → Api.judge (attempt_call i w').2 = None) →
       (∀ i, (1 ≤ i ≤ n)%nat → 0 <= latency i) →
       ∃ w_n w_next rest,
         Api.rateTweetWithOpenRouter attempt_call tweet maxRetries w
         = Api.attempts attempt_call tweet maxRetries
             (maxRetries - (n - 1)) (n - 1) w_n
         ∧ Api.rateTweetWithOpenRouter attempt_call tweet maxRetries w
           = Api.attempts attempt_call tweet maxRetries
               (maxRetries - n) n w_next
         ∧ Page.clock (Page.rate_limit w_n)
           = Page.clock (Page.rate_limit w)
             + RetrySpec.elapsed latency 1 (n - 1)
         ∧ Page.clock w_next
           = Page.clock (Page.rate_limit w_n) + latency n
             + Z.of_nat n * Z.of_nat n * 1000
         ∧ Page.clock (Page.rate_limit w_next) = Page.clock w_next
         ∧ Page.wire (Page.trace w_next)
           = Page.wire (Page.trace w) ++ Page.failed_rounds tweet 1 n
         ∧ Page.wire (Page.trace (Api.rateTweetWithOpenRouter attempt_call
                                    tweet maxRetries w).1)
           = Page.wire (Page.trace w) ++ Page.failed_rounds tweet 1 n
             ++ Page.EvDispatch tweet (S n) :: rest).
Proof.
  split.
  - intros parser net tweetText tweetId maxRetries n w Hn Hfail Hlat.
    destruct (bundle_failed_prefix_timed net tweetText tweetId maxRetries
                (n - 1) maxRetries 0 w)
      as (w_n & Heq1 & _ & Hc1 & _);
      [lia | lia | intros; apply Hfail; lia | intros; apply Hlat; lia |].
    destruct (bundle_failed_prefix_timed net tweetText tweetId maxRetries
                n maxRetries 0 w)
      as (w_next & Heq2 & Htr2 & Hc2 & Hnow & _);
      [lia | lia | intros; apply Hfail; lia | intros; apply Hlat; lia |].
    destruct (bundle_failed_rounds net tweetText tweetId maxRetries n
                maxRetries 0 w) as [rest Hrest];
      [lia | lia | intros; apply Hfail; lia |].
    exists w_n, w_next, rest. unfold Bundle.rateTweetWithOpenRouter.
    split; [exact Heq1|]. split; [exact Heq2|]. split; [exact Hc1|].
    split; [|split; [by apply Hnow; lia|split; [exact Htr2|exact Hrest]]].
    rewrite <- (Hnow ltac:(lia)), Hc2, Hc1.
    replace n with (S (n - 1)) at 1 by lia. rewrite elapsed_last.
    replace (1 + (n - 1))%nat with n by lia. lia.
  - intros attempt_call latency tweet maxRetries n w Htrace Hclock Hstamp Hn
      Hfail Hlat.
    destruct (api_failed_prefix_timed attempt_call latency Htrace Hclock
                Hstamp tweet maxRetries (n - 1) maxRetries 0 w)
      as (w_n & Heq1 & _ & Hc1 & _);
      [lia | lia | intros; apply Hfail; lia | intros; apply Hlat; lia |].
    destruct (api_failed_prefix_timed attempt_call latency Htrace Hclock
                Hstamp tweet maxRetries n maxRetries 0 w)
      as (w_next & Heq2 & Htr2 & Hc2 & Hnow & _);
      [lia | lia | intros; apply Hfail; lia | intros; apply Hlat; lia |].
    destruct (api_failed_rounds attempt_call Htrace tweet maxRetries n
                maxRetries 0 w) as [rest Hrest];
      [lia | lia | intros; apply Hfail; lia |].
    exists w_n, w_next, rest. unfold Api.rateTweetWithOpenRouter.
    split; [exact Heq1|]. split; [exact Heq2|]. split; [exact Hc1|].
    split; [|split; [by apply Hnow; lia|split; [exact Htr2|exact Hrest]]].
    rewrite <- (Hnow ltac:(lia)), Hc2, Hc1.
    replace n with (S (n - 1)) at 1 by lia. rewrite elapsed_last.
    replace (1 + (n - 1))%nat with n by lia. lia.
Qed.

(** C4, an instance: three attempts allowed, the first two answered by HTTP
    500 after 120 ms each, in the loop of the bundled userscript and in the
    loop of [api.js] without streaming.  The loop sleeps 1000 ms, then
    4000 ms, and sends the third request 5240 ms after the first. *)
Lemma C4_backoff_is_attempt_squared_seconds_witness :
  (∃ w_n w_next rest,
     @Bundle.rateTweetWithOpenRouter Fixtures.no_json Fixtures.net_500
       "[TWEET 1871]" "1871" 3%nat Fixtures.world0
     = @Bundle.attempts Fixtures.no_json Fixtures.net_500 "[TWEET 1871]"
         "1871" 3%nat (3 - (2 - 1)) (2 - 1) w_n
     ∧ @Bundle.rateTweetWithOpenRouter Fixtures.no_json Fixtures.net_500
         "[TWEET 1871]" "1871" 3%nat Fixtures.world0
       = @Bundle.attempts Fixtures.no_json Fixtures.net_500 "[TWEET 1871]"
           "1871" 3%nat (3 - 2) 2 w_next
     ∧ Page.clock (Page.rate_limit w_n)
       = Page.clock (Page.rate_limit Fixtures.world0)
         + RetrySpec.elapsed (fun i => (Fixtures.net_500 i).1) 1 (2 - 1)
     ∧ Page.clock w_next
       = Page.clock (Page.rate_limit w_n) + (Fixtures.net_500 2).1
         + Z.of_nat 2 * Z.of_nat 2 * 1000
     ∧ Page.clock (Page.rate_limit w_next) = Page.clock w_next
     ∧ Page.wire (Page.trace w_next)
       = Page.wire (Page.trace Fixtures.world0)
         ++ Page.failed_rounds "1871" 1 2
     ∧ Page.wire
         (Page.trace
            (@Bundle.rateTweetWithOpenRouter Fixtures.no_json
               Fixtures.net_500 "[TWEET 1871]" "1871" 3%nat
               Fixtures.world0).1)
       = Page.wire (Page.trace Fixtures.world0)
         ++ Page.failed_rounds "1871" 1 2
         ++ Page.EvDispatch "1871" 3%nat :: rest)
  ∧ (∃ w_n w_next rest,
       Api.rateTweetWithOpenRouter
         (@Api.attempt_non_streaming Fixtures.no_json Fixtures.net_500)
         "[TWEET 1871]" 3%nat Fixtures.world0
       = Api.attempts
           (@Api.attempt_non_streaming Fixtures.no_json Fixtures.net_500)
           "[TWEET 1871]" 3%nat (3 - (2 - 1)) (2 - 1) w_n
       ∧ Api.rateTweetWithOpenRouter
           (@Api.attempt_non_streaming Fixtures.no_json Fixtures.net_500)
           "[TWEET 1871]" 3%nat Fixtures.world0
         = Api.attempts
             (@Api.attempt_non_streaming Fixtures.no_json Fixtures.net_500)
             "[TWEET 1871]" 3%nat (3 - 2) 2 w_next
       ∧ Page.clock (Page.rate_limit w_n)
         = Page.clock (Page.rate_limit Fixtures.world0)
           + RetrySpec.elapsed (fun i => (Fixtures.net_500 i).1) 1 (2 - 1)
       ∧ Page.clock w_next
         = Page.clock (Page.rate_limit w_n) + (Fixtures.net_500 2).1
           + Z.of_nat 2 * Z.of_nat 2 * 1000
       ∧ Page.clock (Page.rate_limit w_next) = Page.clock w_next
       ∧ Page.wire (Page.trace w_next)
         = Page.wire (Page.trace Fixtures.world0)
           ++ Page.failed_rounds "[TWEET 1871]" 1 2
       ∧ Page.wire
           (Page.trace
              (Api.rateTweetWithOpenRouter
                 (@Api.attempt_non_streaming Fixtures.no_json
                    Fixtures.net_500)
                 "[TWEET 1871]" 3%nat Fixtures.world0).1)
         = Page.wire (Page.trace Fixtures.world0)
           ++ Page.failed_rounds "[TWEET 1871]" 1 2
           ++ Page.EvDispatch "[TWEET 1871]" 3%nat :: rest).
Proof.
  split.
  - refine (proj1 C4_backoff_is_attempt_squared_seconds Fixtures.no_json
              Fixtures.net_500 "[TWEET 1871]" "1871" 3%nat 2%nat
              Fixtures.world0 _ _ _).
    + lia.
    + intros i Hi. reflexivity.
    + intros i Hi. discriminate.
  - refine (proj2 C4_backoff_is_attempt_squared_seconds
              (@Api.attempt_non_streaming Fixtures.no_json Fixtures.net_500)
              (fun i => (Fixtures.net_500 i).1)
              "[TWEET 1871]" 3%nat 2%nat Fixtures.world0 _ _ _ _ _ _).
    + intros k w'. reflexivity.
    + intros k w'. reflexivity.
    + intros k w'. reflexivity.
    + lia.
    + intros i w' Hi. reflexivity.
    + intros i Hi. discriminate.
Defined.

(** The whole trace of that run when the third attempt fails too: no sleep
    follows the last attempt.  On the clock the run takes the three requests
    of 120 ms and the sleeps of 1000 ms and 4000 ms. *)
Example three_failures_trace :
  Page.trace
    (@Bundle.rateTweetWithOpenRouter Fixtures.no_json Fixtures.net_500
       "[TWEET 1871]" "1871" 3%nat Fixtures.world0).1
  = [Page.EvDispatch "1871" 1%nat; Page.EvBackoff 1%nat 1000;
     Page.EvDispatch "1871" 2%nat; Page.EvBackoff 2%nat 4000;
     Page.EvDispatch "1871" 3%nat]
  ∧ Page.clock
      (@Bundle.rateTweetWithOpenRouter Fixtures.no_json Fixtures.net_500
         "[TWEET 1871]" "1871" 3%nat Fixtures.world0).1
    = Page.clock Fixtures.world0 + 120 + 1000 + 120 + 4000 + 120.
Proof. split; vm_compute; reflexivity. Qed.

(** X3.  A run of the retry loop sends at least one request when
    [maxRetries] is not 0, and never more than [maxRetries], whatever the
    answers: in the bundled userscript, and in [api.js] with and without
    streaming. *)
Theorem retry_loop_sends_at_most_maxRetries :
  (∀ (parser : Transport.JsonParser) (net : nat → Z * Transport.NetOutcome)
     (tweetText tweetId : string) (maxRetries : nat) (w : Page.World),
     (Bundle.dispatches w + Nat.min 1 maxRetries
      ≤ Bundle.dispatches
          (Bundle.rateTweetWithOpenRouter net tweetText tweetId maxRetries
             w).1
      ≤ Bundle.dispatches w + maxRetries)%nat)
  ∧ (∀ (parser : Transport.JsonParser) (net : nat → Z * Transport.NetOutcome)
       (tweet : string) (maxRetries : nat) (w : Page.World),
       (Bundle.dispatches w + Nat.min 1 maxRetries
        ≤ Bundle.dispatches
            (Api.rateTweetWithOpenRouter (Api.attempt_non_streaming net)
               tweet maxRetries w).1
        ≤ Bundle.dispatches w + maxRetries)%nat)
  ∧ (∀ (parser : Transport.JsonParser)
       (feed : nat → list (Z * Api.StreamInput))
       (tweet : string) (maxRetries : nat) (w : Page.World),
       (Bundle.dispatches w + Nat.min 1 maxRetries
        ≤ Bundle.dispatches
            (Api.rateTweetWithOpenRouter (Api.attempt_streaming feed)
               tweet maxRetries w).1
        ≤ Bundle.dispatches w + maxRetries)%nat).
Proof.
  split; [|split].
  - intros. apply bundle_attempts_dispatches.
  - intros. apply api_attempts_dispatches.
    intros. apply attempt_non_streaming_trace.
  - intros. apply api_attempts_dispatches.
    intros. apply attempt_streaming_trace.
Qed.

(** X4.  The counter of pending requests, which the status line shows, is
    back at its value when the retry loop returns: in the bundled userscript
    whatever the answers, also when the response's content makes the loop
    throw; in [api.js] with streaming whatever arrives. *)
Theorem retry_loop_restores_pending_counter :
  (∀ (parser : Transport.JsonParser) (net : nat → Z * Transport.NetOutcome)
     (tweetText tweetId : string) (maxRetries : nat) (w : Page.World),
     Page.pendingRequests
       (Bundle.rateTweetWithOpenRouter net tweetText tweetId maxRetries w).1
     = Page.pendingRequests w)
  ∧ (∀ (parser : Transport.JsonParser)
       (feed : nat → list (Z * Api.StreamInput))
       (tweet : string) (maxRetries : nat) (w : Page.World),
       Page.pendingRequests
         (Api.rateTweetWithOpenRouter (Api.attempt_streaming feed)
            tweet maxRetries w).1
       = Page.pendingRequests w).
Proof.
  split.
  - intros. apply bundle_attempts_pending.
  - intros. apply api_attempts_pending.
    + reflexivity.
    + intros. apply attempt_streaming_text.
Qed.

(** X5.  The first attempt whose response holds a score ends the loop of
    the bundled userscript.  When attempts 1 to [k - 1] give no score and
    attempt [k] gives the digits [digits] in the content [content], digits
    of an integer that a Number holds exactly, the loop returns that integer
    as the score with [error = false] and the content; it has stored the
    score, the content and the tweet's text in the cache under the tweet's
    ID and written the cache to the store; it has sent exactly [k] requests,
    with the backoff sleeps of attempts 1 to [k - 1] between them and none
    after the last; and on the clock it returns when the [k] requests and
    those sleeps, [i * i * 1000] ms after attempt [i], have taken their
    time. *)
Theorem first_scored_attempt_ends_the_loop
    (parser : Transport.JsonParser) (net : nat → Z * Transport.NetOutcome)
    (tweetText tweetId : string) (maxRetries k : nat)
    (content digits : string) (w : Page.World) :
  (1 ≤ k ≤ maxRetries)%nat →
  (∀ i, (1 ≤ i < k)%nat →
        Bundle.verdict (Transport.getCompletion 30000 (net i).2)
        = Bundle.NoScore) →
  Bundle.verdict (Transport.getCompletion 30000 (net k).2)
  = Bundle.Scored content digits →
  JsString.is_exact (JsString.parseInt10 digits) = true →
  (∀ i, (1 ≤ i ≤ k)%nat → 0 <= (net i).1) →
  (Bundle.rateTweetWithOpenRouter net tweetText tweetId maxRetries w).2
  = JsValue.Normal
      {| Bundle.rating_score := JsString.parseInt10 digits;
         Bundle.rating_content := content;
         Bundle.rating_error := false |}
  ∧ Page.tweetIDRatingCache
      (Bundle.rateTweetWithOpenRouter net tweetText tweetId maxRetries w).1
    = <[tweetId := {| Page.tweetContent := tweetText;
                      Page.score := JsString.parseInt10 digits;
                      Page.description := content;
                      Page.streaming := None; Page.timestamp := None |}]>
        (Page.tweetIDRatingCache w)
  ∧ Page.storedRatings
      (Bundle.rateTweetWithOpenRouter net tweetText tweetId maxRetries w).1
    = Page.tweetIDRatingCache
        (Bundle.rateTweetWithOpenRouter net tweetText tweetId maxRetries w).1
  ∧ Page.wire
      (Page.trace
         (Bundle.rateTweetWithOpenRouter net tweetText tweetId maxRetries
            w).1)
    = Page.wire (Page.trace w)
      ++ Page.failed_rounds tweetId 1 (k - 1)
      ++ [Page.EvDispatch tweetId k]
  ∧ Page.clock
      (Bundle.rateTweetWithOpenRouter net tweetText tweetId maxRetries w).1
    = Page.clock (Page.rate_limit w)
      + RetrySpec.elapsed (fun i => (net i).1) 1 (k - 1) + (net k).1.
Proof.
  intros Hk Hfail Hscored _ Hlat. unfold Bundle.rateTweetWithOpenRouter.
  destruct (bundle_failed_prefix_timed net tweetText tweetId maxRetries
              (k - 1) maxRetries 0 w)
    as (wk & -> & Htr & Hclock & _ & _ & Hcache & _);
    [lia | lia | intros; apply Hfail; lia | intros; apply Hlat; lia |].
  replace (maxRetries - (k - 1))%nat with (S (maxRetries - k)) by lia.
  replace (0 + (k - 1))%nat with (k - 1)%nat by lia.
  rewrite bundle_last_attempt. cbn zeta.
  replace (S (k - 1)) with k by lia. rewrite Hscored. cbn [fst snd].
  destruct (rate_limit_frame wk) as (_ & _ & Rc & _).
  split; [done|]. split; [|split; [done|split]].
  - cbn [Page.tweetIDRatingCache Page.saveTweetRatings Page.set_storedRatings
         Page.set_cache Page.set_pendingRequests Page.sleep Page.set_clock
         Page.log Page.set_trace].
    by rewrite Rc, Hcache.
  - cbn [Page.trace Page.saveTweetRatings Page.set_storedRatings
         Page.set_cache Page.set_pendingRequests Page.sleep Page.set_clock
         Page.log Page.set_trace].
    rewrite wire_app, rate_limit_wire, Htr, <- app_assoc. reflexivity.
  - cbn [Page.clock Page.saveTweetRatings Page.set_storedRatings
         Page.set_cache Page.set_pendingRequests Page.sleep Page.set_clock
         Page.log Page.set_trace].
    by rewrite Hclock.
Qed.

(** X5, an instance: HTTP 500 after 120 ms, then a rating after 150 ms. *)
Lemma first_scored_attempt_ends_the_loop_witness :
  (@Bundle.rateTweetWithOpenRouter Samples.parser1 Samples.net_500_then_rated
     "[TWEET 1871]" "1871" 3%nat Fixtures.world0).2
  = JsValue.Normal
      {| Bundle.rating_score := JsString.parseInt10 "8";
         Bundle.rating_content := "Thoughtful thread. SCORE_8";
         Bundle.rating_error := false |}.
Proof.
  refine (proj1 (first_scored_attempt_ends_the_loop Samples.parser1
                   Samples.net_500_then_rated "[TWEET 1871]" "1871"
                   3%nat 2%nat "Thoughtful thread. SCORE_8" "8"
                   Fixtures.world0 _ _ _ _ _)).
  - lia.
  - intros i Hi. assert (i = 1%nat) as -> by lia. reflexivity.
  - vm_compute. reflexivity.
  - reflexivity.
  - intros i Hi. assert (i = 1%nat ∨ i = 2%nat) as [-> | ->] by lia;
      discriminate.
Defined.

Section TransportFailureFacts.
Import JsValue Transport Page TransportSpec.
Context `{!JsonParser}.

Lemma transport_failure_error (timeout : Z) (o : NetOutcome) :
  is_transport_failure o = true →
  error (getCompletion timeout o) = true
  ∧ data (getCompletion timeout o) = JNull.
Proof.
  destruct o as [status text| |]; [|done..]. cbn [is_transport_failure].
  intros Hs%negb_true_iff. unfold getCompletion, onload. by rewrite Hs.
Qed.

End TransportFailureFacts.

(** X6.  When every request of a run fails in the transport (a status
    outside 200..299, a network error or a timeout), the loop of the bundled
    userscript sends exactly [maxRetries] requests, sleeps the backoff after
    each but the last, and returns the fallback result, score 5 with
    [error = true]; the cache and the store are as they were.  On the clock
    the loop returns when the [maxRetries] requests and the sleeps between
    them, [i * i * 1000] ms after attempt [i], have taken their time. *)
Theorem transport_failures_exhaust_the_retries
    (parser : Transport.JsonParser) (net : nat → Z * Transport.NetOutcome)
    (tweetText tweetId : string) (maxRetries : nat) (w : Page.World) :
  (1 ≤ maxRetries)%nat →
  (∀ i, (1 ≤ i ≤ maxRetries)%nat →
        TransportSpec.is_transport_failure (net i).2 = true) →
  (∀ i, (1 ≤ i ≤ maxRetries)%nat → 0 <= (net i).1) →
  (Bundle.rateTweetWithOpenRouter net tweetText tweetId maxRetries w).2
  = JsValue.Normal
      {| Bundle.rating_score := 5;
         Bundle.rating_content :=
           "Failed to get valid rating after multiple attempts";
         Bundle.rating_error := true |}
  ∧ Page.tweetIDRatingCache
      (Bundle.rateTweetWithOpenRouter net tweetText tweetId maxRetries w).1
    = Page.tweetIDRatingCache w
  ∧ Page.storedRatings
      (Bundle.rateTweetWithOpenRouter net tweetText tweetId maxRetries w).1
    = Page.storedRatings w
  ∧ Page.wire
      (Page.trace
         (Bundle.rateTweetWithOpenRouter net tweetText tweetId maxRetries
            w).1)
    = Page.wire (Page.trace w)
      ++ Page.failed_rounds tweetId 1 (maxRetries - 1)
      ++ [Page.EvDispatch tweetId maxRetries]
  ∧ Page.clock
      (Bundle.rateTweetWithOpenRouter net tweetText tweetId maxRetries w).1
    = Page.clock (Page.rate_limit w)
      + RetrySpec.elapsed (fun i => (net i).1) 1 (maxRetries - 1)
      + (net maxRetries).1.
Proof.
  intros Hmax Hfail Hlat.
  assert (∀ i, (1 ≤ i ≤ maxRetries)%nat →
               Bundle.verdict (Transport.getCompletion 30000 (net i).2)
               = Bundle.NoScore) as Hno.
  { intros i Hi. apply verdict_no_content. left.
    by apply transport_failure_error, Hfail. }
  unfold Bundle.rateTweetWithOpenRouter.
  destruct (bundle_failed_prefix_timed net tweetText tweetId maxRetries
              (maxRetries - 1) maxRetries 0 w)
    as (wk & -> & Htr & Hclock & _ & _ & Hcache & Hst & _);
    [lia | lia | intros; apply Hno; lia | intros; apply Hlat; lia |].
  replace (maxRetries - (maxRetries - 1))%nat with 1%nat by lia.
  replace (0 + (maxRetries - 1))%nat with (maxRetries - 1)%nat by lia.
  rewrite bundle_last_attempt. cbn zeta.
  replace (S (maxRetries - 1)) with maxRetries by lia.
  rewrite (Hno maxRetries) by lia. rewrite Nat.ltb_irrefl.
  cbn [Bundle.attempts fst snd].
  destruct (rate_limit_frame wk) as (_ & _ & Rc & Rst & _).
  split; [done|].
  cbn [Page.tweetIDRatingCache Page.storedRatings Page.trace Page.clock
       Page.set_pendingRequests Page.sleep Page.set_clock Page.log
       Page.set_trace].
  rewrite Rc, Rst, Hcache, Hst. split; [done|]. split; [done|].
  split; [by rewrite wire_app, rate_limit_wire, Htr, <- app_assoc|].
  by rewrite Hclock.
Qed.

(** X6, an instance: three requests that end in HTTP 500 after 120 ms
    each. *)
Lemma transport_failures_exhaust_the_retries_witness :
  (@Bundle.rateTweetWithOpenRouter Fixtures.no_json Fixtures.net_500
     "[TWEET 1871]" "1871" 3%nat Fixtures.world0).2
  = JsValue.Normal
      {| Bundle.rating_score := 5;
         Bundle.rating_content :=
           "Failed to get valid rating after multiple attempts";
         Bundle.rating_error := true |}.
Proof.
  refine (proj1 (transport_failures_exhaust_the_retries Fixtures.no_json
                   Fixtures.net_500 "[TWEET 1871]" "1871" 3%nat
                   Fixtures.world0 _ _ _)).
  - lia.
  - intros i Hi. reflexivity.
  - intros i Hi. discriminate.
Defined.

(** X8.  [getCompletion] reports success exactly when the status is in
    200..299, the body parses, the parsed value is not [null], and the
    value's own [content] property is not the empty string; it then hands
    over the parsed value with the message "Request successful".  Whenever
    the transport failed or the body did not parse, the result carries
    [error = true] and no data. *)
Theorem getCompletion_success_exactly
    (parser : Transport.JsonParser) (timeout : Z) (o : Transport.NetOutcome) :
  (Transport.error (Transport.getCompletion timeout o) = false ↔
   ∃ status text d c,
     o = Transport.Load status text ∧ 200 <= status < 300
     ∧ Transport.JSON_parse text = JsValue.Normal d
     ∧ JsValue.get_prop d "content" = JsValue.Normal c
     ∧ JsValue.is_empty_string c = false
     ∧ Transport.getCompletion timeout o
       = {| Transport.error := false;
            Transport.message := "Request successful";
            Transport.data := d |})
  ∧ (TransportSpec.is_transport_failure o = true
     ∨ (∃ status text msg, o = Transport.Load status text
                           ∧ Transport.JSON_parse text = JsValue.Throw msg) →
     Transport.error (Transport.getCompletion timeout o) = true
     ∧ Transport.data (Transport.getCompletion timeout o) = JsValue.JNull).
Proof.
  split.
  - split.
    + destruct o as [status text| |]; [|done..].
      unfold Transport.getCompletion, Transport.onload.
      destruct (200 <=? status) eqn:H1; [|done].
      destruct (status <? 300) eqn:H2; [|done]. cbn [andb].
      unfold Transport.onload_try.
      destruct (Transport.JSON_parse text) as [d|] eqn:Hp; [|done].
      cbn [mbind JsValue.completion_bind].
      destruct (JsValue.get_prop d "content") as [c|] eqn:Hc; [|done].
      cbn [mbind JsValue.completion_bind].
      destruct (JsValue.is_empty_string c) eqn:He.
      * destruct (JsValue.get_prop d "choices") as [choices|]; [|done].
        cbn [mbind JsValue.completion_bind].
        destruct (JsValue.get_index0 choices) as [choice|]; [|done].
        cbn [mbind JsValue.completion_bind].
        by destruct (JsValue.get_prop choice "native_finish_reason").
      * intros _. exists status, text, d, c.
        apply Z.leb_le in H1. apply Z.ltb_lt in H2. by repeat split; try lia.
    + intros (status & text & d & c & -> & Hs & Hp & Hc & He & ->). done.
  - intros [Hfail | (status & text & msg & -> & Hp)].
    + by apply transport_failure_error.
    + unfold Transport.getCompletion, Transport.onload.
      destruct (_ && _); [|done]. unfold Transport.onload_try.
      by rewrite Hp.
Qed.

(** X8, an instance: a body that does not parse. *)
Lemma getCompletion_success_exactly_witness :
  Transport.error
    (@Transport.getCompletion Fixtures.no_json 30000
       (Transport.Load 200 "<html>Bad gateway</html>")) = true
  ∧ Transport.data
      (@Transport.getCompletion Fixtures.no_json 30000
         (Transport.Load 200 "<html>Bad gateway</html>")) = JsValue.JNull.
Proof.
  refine (proj2 (getCompletion_success_exactly Fixtures.no_json 30000
                   (Transport.Load 200 "<html>Bad gateway</html>")) _).
  right. by exists 200, "<html>Bad gateway</html>", "SyntaxError".
Defined.

(** ** Scheduling, call by call *)

Section ScheduleFacts.
Import JsString JsValue Transport Page Bundle Marks.

Lemma article_eq (a b : Article) :
  tweetId a = tweetId b → userHandles a = userHandles b →
  dataset a = dataset b → indicator a = indicator b → hidden a = hidden b →
  a = b.
Proof. destruct a, b. cbn. by intros -> -> -> -> ->. Qed.

Lemma put_article_twice (el : nat) (a b : Article) (w : World) :
  put_article el a (put_article el b w) = put_article el a w.
Proof.
  unfold put_article. cbn [articles set_articles]. by rewrite insert_insert_eq.
Qed.

Lemma put_article_lookup (el : nat) (a : Article) (w : World) :
  articles (put_article el a w) !! el = Some a.
Proof. unfold put_article. cbn. apply lookup_insert_eq. Qed.

Lemma put_article_lookup_ne (el el' : nat) (a : Article) (w : World) :
  el ≠ el' → articles (put_article el a w) !! el' = articles w !! el'.
Proof. intros Hne. unfold put_article. cbn. by apply lookup_insert_ne. Qed.

Lemma tweetId_filterSingleTweet (t : Z) (a : Article) :
  tweetId (filterSingleTweet t a) = tweetId a.
Proof.
  unfold filterSingleTweet. cbv zeta. rewrite dataset_setScoreIndicator.
  destruct (ratingStatus (dataset a)) as [[]|]; reflexivity.
Qed.

Lemma userHandles_filterSingleTweet (t : Z) (a : Article) :
  userHandles (filterSingleTweet t a) = userHandles a.
Proof.
  unfold filterSingleTweet. cbv zeta. rewrite dataset_setScoreIndicator.
  destruct (ratingStatus (dataset a)) as [[]|]; reflexivity.
Qed.

Lemma userHandles_setScoreIndicator
    (score : option Z) (status : Status) (description : string) (a : Article) :
  userHandles (setScoreIndicator score status description a) = userHandles a.
Proof. unfold setScoreIndicator. by destruct status. Qed.

Lemma hidden_filterSingleTweet (t : Z) (a : Article) :
  hidden (filterSingleTweet t a) = hides t (dataset a).
Proof.
  unfold filterSingleTweet, hides. cbv zeta. rewrite dataset_setScoreIndicator.
  destruct (ratingStatus (dataset a)) as [[]|]; reflexivity.
Qed.

Lemma indicator_filterSingleTweet (t : Z) (a : Article) :
  indicator (filterSingleTweet t a)
  = indicator
      (setScoreIndicator (Some (default 1 (sloppinessScore (dataset a))))
         (default Rated (ratingStatus (dataset a)))
         (default "" (ratingDescription (dataset a))) a).
Proof.
  unfold filterSingleTweet. cbv zeta. rewrite dataset_setScoreIndicator.
  destruct (ratingStatus (dataset a)) as [[]|]; reflexivity.
Qed.

Lemma indicator_setScoreIndicator_ext
    (score : option Z) (status : Status) (description : string)
    (a b : Article) :
  indicator (setScoreIndicator score status description a)
  = indicator (setScoreIndicator score status description b).
Proof. unfold setScoreIndicator. by destruct status. Qed.

(** [filterSingleTweet] reads the dataset only. *)
Lemma filterSingleTweet_eq (t : Z) (a b : Article) :
  tweetId a = tweetId b → userHandles a = userHandles b →
  dataset a = dataset b →
  filterSingleTweet t a = filterSingleTweet t b.
Proof.
  intros Hid Hh Hd. apply article_eq.
  - by rewrite !tweetId_filterSingleTweet.
  - by rewrite !userHandles_filterSingleTweet.
  - by rewrite !dataset_filterSingleTweet.
  - rewrite !indicator_filterSingleTweet, Hd.
    apply indicator_setScoreIndicator_ext.
  - by rewrite !hidden_filterSingleTweet, Hd.
Qed.

Lemma filterSingleTweet_idempotent (t : Z) (a : Article) :
  filterSingleTweet t (filterSingleTweet t a) = filterSingleTweet t a.
Proof.
  apply article_eq.
  - by rewrite !tweetId_filterSingleTweet.
  - by rewrite !userHandles_filterSingleTweet.
  - by rewrite !dataset_filterSingleTweet.
  - rewrite !indicator_filterSingleTweet, dataset_filterSingleTweet.
    apply indicator_setScoreIndicator_ext.
  - by rewrite !hidden_filterSingleTweet, dataset_filterSingleTweet.
Qed.

Lemma allow_listed_fields (t : Z) (a : Article) :
  tweetId (allow_listed t a) = tweetId a
  ∧ userHandles (allow_listed t a) = userHandles a
  ∧ dataset (allow_listed t a)
    = {| sloppinessScore := Some 10; blacklisted := true;
         ratingStatus := Some Rated;
         ratingDescription := Some "Whitelisted user";
         cachedRating := cachedRating (dataset a) |}
  ∧ indicator (allow_listed t a)
    = Some {| ind_class := rated_rating; ind_text := ScoreText (Some 10);
              ind_description := "Whitelisted user" |}
  ∧ hidden (allow_listed t a) = (10 <? t).
Proof.
  unfold allow_listed.
  rewrite tweetId_filterSingleTweet, userHandles_filterSingleTweet,
    dataset_filterSingleTweet, indicator_filterSingleTweet,
    hidden_filterSingleTweet.
  by repeat split.
Qed.

Lemma cached_fields (t : Z) (e : CacheEntry) (a : Article) :
  tweetId (cached t e a) = tweetId a
  ∧ userHandles (cached t e a) = userHandles a
  ∧ dataset (cached t e a)
    = {| sloppinessScore := Some (score e);
         blacklisted := blacklisted (dataset a);
         ratingStatus := Some Cached;
         ratingDescription := Some (description e);
         cachedRating := true |}
  ∧ indicator (cached t e a)
    = Some {| ind_class := cached_rating;
              ind_text := ScoreText (Some (score e));
              ind_description := description e |}
  ∧ hidden (cached t e a) = (score e <? t).
Proof.
  unfold cached.
  rewrite tweetId_filterSingleTweet, userHandles_filterSingleTweet,
    dataset_filterSingleTweet, indicator_filterSingleTweet,
    hidden_filterSingleTweet.
  by repeat split.
Qed.

Lemma allow_listed_idempotent (t : Z) (a : Article) :
  allow_listed t (allow_listed t a) = allow_listed t a.
Proof.
  destruct (allow_listed_fields t a) as (H1 & H2 & H3 & H4 & H5).
  destruct (allow_listed_fields t (allow_listed t a))
    as (G1 & G2 & G3 & G4 & G5).
  apply article_eq; [congruence|congruence| |congruence|congruence].
  rewrite G3, H3. reflexivity.
Qed.

Lemma cached_idempotent (t : Z) (e : CacheEntry) (a : Article) :
  cached t e (cached t e a) = cached t e a.
Proof.
  destruct (cached_fields t e a) as (H1 & H2 & H3 & H4 & H5).
  destruct (cached_fields t e (cached t e a)) as (G1 & G2 & G3 & G4 & G5).
  apply article_eq; [congruence|congruence| |congruence|congruence].
  rewrite G3, H3. reflexivity.
Qed.

Lemma isBlacklistedAuthor_ext (w w' : World) (a a' : Article) :
  settings w' = settings w → userHandles a' = userHandles a →
  isBlacklistedAuthor w' a' = isBlacklistedAuthor w a.
Proof.
  intros Hs Hh. unfold isBlacklistedAuthor, firstHandle. by rewrite Hs, Hh.
Qed.

(** [scheduleTweetProcessing], branch by branch. *)
Lemma schedule_no_article (w : World) (el : nat) :
  articles w !! el = None → scheduleTweetProcessing el w = w.
Proof. intros Hel. unfold scheduleTweetProcessing. by rewrite Hel. Qed.

Lemma schedule_no_id (w : World) (el : nat) (a : Article) :
  articles w !! el = Some a → tweetId a = "" →
  scheduleTweetProcessing el w = w.
Proof.
  intros Hel Hid. unfold scheduleTweetProcessing. by rewrite Hel, Hid.
Qed.

Lemma schedule_allow_listed_eq (w : World) (el : nat) (a : Article) :
  articles w !! el = Some a → tweetId a ≠ "" →
  isBlacklistedAuthor w a = true →
  scheduleTweetProcessing el w
  = put_article el (allow_listed (threshold w) a) w.
Proof.
  intros Hel Hid%String.eqb_neq Hbl. unfold scheduleTweetProcessing.
  by rewrite Hel, Hid, Hbl.
Qed.

Lemma schedule_cached_eq (w : World) (el : nat) (a : Article)
    (e : CacheEntry) :
  articles w !! el = Some a → tweetId a ≠ "" →
  isBlacklistedAuthor w a = false →
  tweetIDRatingCache w !! tweetId a = Some e →
  scheduleTweetProcessing el w = put_article el (cached (threshold w) e a) w.
Proof.
  intros Hel Hid%String.eqb_neq Hbl Hcache. unfold scheduleTweetProcessing.
  rewrite Hel, Hid, Hbl, Hcache. unfold applyTweetCachedRating.
  by rewrite Hbl, Hcache.
Qed.

Lemma schedule_idempotent (w : World) (el : nat) :
  scheduleTweetProcessing el (scheduleTweetProcessing el w)
  = scheduleTweetProcessing el w.
Proof.
  destruct (articles w !! el) as [a|] eqn:Hel;
    [|by rewrite schedule_no_article; rewrite schedule_no_article].
  destruct (String.eqb_spec (tweetId a) "") as [Hid|Hid].
  { rewrite (schedule_no_id w el a Hel Hid).
    apply (schedule_no_id w el a Hel Hid). }
  destruct (isBlacklistedAuthor w a) eqn:Hbl.
  { rewrite (schedule_allow_listed_eq w el a) by done.
    destruct (allow_listed_fields (threshold w) a) as (H1 & H2 & _).
    rewrite (schedule_allow_listed_eq _ el (allow_listed (threshold w) a)).
    - rewrite put_article_twice.
      change (threshold (put_article el (allow_listed (threshold w) a) w))
        with (threshold w).
      by rewrite allow_listed_idempotent.
    - apply put_article_lookup.
    - by rewrite H1.
    - by rewrite (isBlacklistedAuthor_ext w _ a). }
  destruct (tweetIDRatingCache w !! tweetId a) as [e|] eqn:Hcache.
  { rewrite (schedule_cached_eq w el a e) by done.
    destruct (cached_fields (threshold w) e a) as (H1 & H2 & _).
    rewrite (schedule_cached_eq _ el (cached (threshold w) e a) e).
    - rewrite put_article_twice.
      change (threshold (put_article el (cached (threshold w) e a) w))
        with (threshold w).
      by rewrite cached_idempotent.
    - apply put_article_lookup.
    - by rewrite H1.
    - by rewrite (isBlacklistedAuthor_ext w _ a).
    - by rewrite H1. }
  destruct (bool_decide (tweetId a ∈ processedTweets w) && hasIndicator a)
    eqn:Hheld.
  { apply andb_prop in Hheld as [Hin%bool_decide_eq_true Hind].
    rewrite (schedule_in_flight_noop w el a Hel Hbl Hcache Hin Hind).
    apply (schedule_in_flight_noop w el a Hel Hbl Hcache Hin Hind). }
  pose proof (schedule_starts_pipeline w el a Hel Hid Hbl Hcache Hheld) as Hs.
  rewrite Hs at 1. rewrite <- Hs.
  apply (schedule_in_flight_noop _ el
           (setScoreIndicator None Pending "" (set_ratingStatus Pending a))).
  - rewrite Hs. cbn. apply lookup_insert_eq.
  - rewrite Hs. exact Hbl.
  - rewrite Hs. exact Hcache.
  - rewrite Hs. cbn. clear. set_solver.
  - reflexivity.
Qed.

Lemma schedule_pending_eq (w : World) (el : nat) (a : Article) :
  articles w !! el = Some a → tweetId a ≠ "" →
  isBlacklistedAuthor w a = false →
  tweetIDRatingCache w !! tweetId a = None →
  bool_decide (tweetId a ∈ processedTweets w) && hasIndicator a = false →
  scheduleTweetProcessing el w
  = set_timers
      (timers w ++ [ {| fire_at := clock w + 500;
                        timer_el := el; timer_tweetId := tweetId a |} ])
      (put_article el (pending a)
         (set_processedTweets ({[tweetId a]} ∪ processedTweets w) w)).
Proof.
  intros Hel Hid Hbl Hcache Hheld.
  rewrite (schedule_starts_pipeline w el a) by done.
  assert ({[tweetId a]} ∪
          (if bool_decide (tweetId a ∈ processedTweets w)
           then processedTweets w ∖ {[tweetId a]}
           else processedTweets w)
          = {[tweetId a]} ∪ processedTweets w) as ->; [|done].
  destruct (bool_decide_reflect (tweetId a ∈ processedTweets w)); [|done].
  apply leibniz_equiv. clear. intros x. destruct (decide (x = tweetId a));
    set_solver.
Qed.

(** The five ways a call of [scheduleTweetProcessing] can go. *)
Lemma schedule_cases (w : World) (el : nat) :
  scheduleTweetProcessing el w = w
  ∨ ∃ a, articles w !! el = Some a ∧ tweetId a ≠ ""
         ∧ ((isBlacklistedAuthor w a = true
             ∧ scheduleTweetProcessing el w
               = put_article el (allow_listed (threshold w) a) w)
            ∨ (isBlacklistedAuthor w a = false
               ∧ ∃ e, tweetIDRatingCache w !! tweetId a = Some e
                      ∧ scheduleTweetProcessing el w
                        = put_article el (cached (threshold w) e a) w)
            ∨ (isBlacklistedAuthor w a = false
               ∧ tweetIDRatingCache w !! tweetId a = None
               ∧ bool_decide (tweetId a ∈ processedTweets w)
                 && hasIndicator a = false
               ∧ scheduleTweetProcessing el w
                 = set_timers
                     (timers w
                      ++ [ {| fire_at := clock w + 500; timer_el := el;
                              timer_tweetId := tweetId a |} ])
                     (put_article el (pending a)
                        (set_processedTweets
                           ({[tweetId a]} ∪ processedTweets w) w)))).
Proof.
  destruct (articles w !! el) as [a|] eqn:Hel;
    [|left; by apply schedule_no_article].
  destruct (String.eqb_spec (tweetId a) "") as [Hid|Hid];
    [left; by apply (schedule_no_id w el a)|].
  destruct (isBlacklistedAuthor w a) eqn:Hbl.
  { right. exists a. split; [done|]. split; [done|]. left.
    split; [done|]. by apply schedule_allow_listed_eq. }
  destruct (tweetIDRatingCache w !! tweetId a) as [e|] eqn:Hcache.
  { right. exists a. split; [done|]. split; [done|]. right. left.
    split; [done|]. exists e. split; [done|]. by apply schedule_cached_eq. }
  destruct (bool_decide (tweetId a ∈ processedTweets w) && hasIndicator a)
    eqn:Hheld.
  { left. apply andb_prop in Hheld as [Hin%bool_decide_eq_true Hind].
    by apply (schedule_in_flight_noop w el a). }
  right. exists a. split; [done|]. split; [done|]. right. right.
  repeat split; try done. by apply schedule_pending_eq.
Qed.

End ScheduleFacts.

(** X15.  Scheduling is idempotent for an article with a permalink, one
    whose ID [getTweetID] returns at every call: a second call of
    [scheduleTweetProcessing] right after the first leaves the page exactly
    as the first call left it, whichever path the first call took
    (allow-listed author, cached rating, tweet held back by the in-flight
    set, or a pipeline run queued). *)
Theorem scheduling_twice_is_scheduling_once
    (w : Page.World) (el : nat) (a : Page.Article) (href : option string) :
  Page.articles w !! el = Some a →
  (∀ random now, Dom.getTweetID href random now = Page.tweetId a) →
  Bundle.scheduleTweetProcessing el (Bundle.scheduleTweetProcessing el w)
  = Bundle.scheduleTweetProcessing el w.
Proof. intros _ _. apply schedule_idempotent. Qed.

(** X15, an instance: the tweet 1871 with its permalink. *)
Lemma scheduling_twice_is_scheduling_once_witness :
  Bundle.scheduleTweetProcessing 0
    (Bundle.scheduleTweetProcessing 0
       (Fixtures.page_with Fixtures.tweet_1871))
  = Bundle.scheduleTweetProcessing 0
      (Fixtures.page_with Fixtures.tweet_1871).
Proof.
  refine (scheduling_twice_is_scheduling_once
            (Fixtures.page_with Fixtures.tweet_1871) 0 Fixtures.tweet_1871
            (Some "https://x.com/someone/status/1871") _ _).
  - reflexivity.
  - intros random now. reflexivity.
Defined.

(** What a call of [scheduleTweetProcessing] leaves alone. *)
Lemma schedule_frame (w : Page.World) (el : nat) :
  Page.trace (Bundle.scheduleTweetProcessing el w) = Page.trace w
  ∧ Page.tweetIDRatingCache (Bundle.scheduleTweetProcessing el w)
    = Page.tweetIDRatingCache w
  ∧ Page.storedRatings (Bundle.scheduleTweetProcessing el w)
    = Page.storedRatings w
  ∧ Page.settings (Bundle.scheduleTweetProcessing el w) = Page.settings w
  ∧ Page.lastAPICallTime (Bundle.scheduleTweetProcessing el w)
    = Page.lastAPICallTime w
  ∧ Page.clock (Bundle.scheduleTweetProcessing el w) = Page.clock w
  ∧ Page.processedTweets w
    ⊆ Page.processedTweets (Bundle.scheduleTweetProcessing el w)
  ∧ (∀ el', el' ≠ el →
            Page.articles (Bundle.scheduleTweetProcessing el w) !! el'
            = Page.articles w !! el')
  ∧ (Page.timers (Bundle.scheduleTweetProcessing el w) = Page.timers w
     ∨ ∃ a, Page.articles w !! el = Some a
            ∧ Page.timers (Bundle.scheduleTweetProcessing el w)
              = Page.timers w
                ++ [ {| Page.fire_at := Page.clock w + 500;
                        Page.timer_el := el;
                        Page.timer_tweetId := Page.tweetId a |} ]
            ∧ Page.tweetId a
              ∈ Page.processedTweets (Bundle.scheduleTweetProcessing el w)).
Proof.
  destruct (schedule_cases w el)
    as [-> | (a & Hel & Hid & [(Hbl & ->) | [(Hbl & e & Hc & ->)
                                            | (Hbl & Hc & Hheld & ->)]])].
  - repeat split; try done. by left.
  - repeat split; try done.
    + intros el' Hne. by apply put_article_lookup_ne.
    + by left.
  - repeat split; try done.
    + intros el' Hne. by apply put_article_lookup_ne.
    + by left.
  - repeat split; try done.
    + cbn. clear. set_solver.
    + intros el' Hne. cbn. by apply lookup_insert_ne.
    + right. exists a. split; [done|]. split; [done|]. cbn. clear. set_solver.
Qed.

(** X16.  What a call of [scheduleTweetProcessing] never does: it sends no
    request, it does not touch the cache, the store, the settings, the rate
    limiter's time stamp or the clock, it takes no ID out of the in-flight
    set, it changes no other article, and it queues one timer at most; the
    timer it queues is due 500 ms later, for the element and the ID of its
    tweet, and the ID is then in the in-flight set. *)
Theorem scheduling_sends_nothing (w : Page.World) (el : nat) :
  Page.trace (Bundle.scheduleTweetProcessing el w) = Page.trace w
  ∧ Page.tweetIDRatingCache (Bundle.scheduleTweetProcessing el w)
    = Page.tweetIDRatingCache w
  ∧ Page.storedRatings (Bundle.scheduleTweetProcessing el w)
    = Page.storedRatings w
  ∧ Page.settings (Bundle.scheduleTweetProcessing el w) = Page.settings w
  ∧ Page.lastAPICallTime (Bundle.scheduleTweetProcessing el w)
    = Page.lastAPICallTime w
  ∧ Page.clock (Bundle.scheduleTweetProcessing el w) = Page.clock w
  ∧ Page.processedTweets w
    ⊆ Page.processedTweets (Bundle.scheduleTweetProcessing el w)
  ∧ (∀ el', el' ≠ el →
            Page.articles (Bundle.scheduleTweetProcessing el w) !! el'
            = Page.articles w !! el')
  ∧ (Page.timers (Bundle.scheduleTweetProcessing el w) = Page.timers w
     ∨ ∃ a, Page.articles w !! el = Some a
            ∧ Page.timers (Bundle.scheduleTweetProcessing el w)
              = Page.timers w
                ++ [ {| Page.fire_at := Page.clock w + 500;
                        Page.timer_el := el;
                        Page.timer_tweetId := Page.tweetId a |} ]
            ∧ Page.tweetId a
              ∈ Page.processedTweets (Bundle.scheduleTweetProcessing el w)).
Proof. apply schedule_frame. Qed.

Section FastPathFacts.
Import JsString JsValue Transport Page Bundle Marks.
Context `{!JsonParser}.

Lemma delayed_allow_listed_eq (o : Oracle) (w : World) (el : nat)
    (a : Article) (id : string) :
  articles w !! el = Some a → apiKey (settings w) ≠ "" →
  isBlacklistedAuthor w a = true →
  delayedProcessTweet o el id w
  = put_article el
      (filterSingleTweet (threshold w)
         (setScoreIndicator (Some 10) Blacklisted "User is blacklisted"
            (set_ratingDescription "Blacklisted user"
               (set_ratingStatus Blacklisted
                  (set_blacklisted (set_sloppinessScore 10 a))))))
      w.
Proof.
  intros Hel Hkey%String.eqb_neq Hbl. unfold delayedProcessTweet.
  by rewrite Hel, Hkey, Hbl.
Qed.

Lemma delayed_cached_eq (o : Oracle) (w : World) (el : nat)
    (a : Article) (id : string) (e : CacheEntry) :
  articles w !! el = Some a → apiKey (settings w) ≠ "" →
  isBlacklistedAuthor w a = false →
  tweetIDRatingCache w !! tweetId a = Some e →
  delayedProcessTweet o el id w = put_article el (cached (threshold w) e a) w.
Proof.
  intros Hel Hkey%String.eqb_neq Hbl Hcache. unfold delayedProcessTweet.
  rewrite Hel, Hkey, Hbl. unfold applyTweetCachedRating.
  rewrite Hbl, Hcache, hasIndicator_filterSingleTweet. reflexivity.
Qed.

End FastPathFacts.

(** X17.  A tweet by an allow-listed author is never sent for rating.
    [scheduleTweetProcessing] queues no pipeline run and sends no request
    for it, leaves the in-flight set and the cache alone, and marks the
    article there and then: score 10, the [blacklisted] flag, a score
    indicator that shows 10, hidden only under a threshold above 10.  A
    pipeline run that finds the author allow-listed (the list may have
    changed while its timer was pending) does the same. *)
Theorem allow_listed_author_is_never_sent
    (parser : Transport.JsonParser) (o : Bundle.Oracle) (w : Page.World)
    (el : nat) (a : Page.Article) (id : string) :
  Page.articles w !! el = Some a →
  Bundle.isBlacklistedAuthor w a = true →
  (Page.tweetId a ≠ "" →
   Page.trace (Bundle.scheduleTweetProcessing el w) = Page.trace w
   ∧ Page.timers (Bundle.scheduleTweetProcessing el w) = Page.timers w
   ∧ Page.processedTweets (Bundle.scheduleTweetProcessing el w)
     = Page.processedTweets w
   ∧ Page.tweetIDRatingCache (Bundle.scheduleTweetProcessing el w)
     = Page.tweetIDRatingCache w
   ∧ ∃ a', Page.articles (Bundle.scheduleTweetProcessing el w) !! el
           = Some a'
           ∧ Page.sloppinessScore (Page.dataset a') = Some 10
           ∧ Page.blacklisted (Page.dataset a') = true
           ∧ Page.ind_text <$> Page.indicator a'
             = Some (Page.ScoreText (Some 10))
           ∧ Page.hidden a' = (10 <? Bundle.threshold w))
  ∧ (Page.apiKey (Page.settings w) ≠ "" →
     Page.trace (Bundle.delayedProcessTweet o el id w) = Page.trace w
     ∧ Page.timers (Bundle.delayedProcessTweet o el id w) = Page.timers w
     ∧ Page.processedTweets (Bundle.delayedProcessTweet o el id w)
       = Page.processedTweets w
     ∧ Page.tweetIDRatingCache (Bundle.delayedProcessTweet o el id w)
       = Page.tweetIDRatingCache w
     ∧ ∃ a', Page.articles (Bundle.delayedProcessTweet o el id w) !! el
             = Some a'
             ∧ Page.sloppinessScore (Page.dataset a') = Some 10
             ∧ Page.blacklisted (Page.dataset a') = true
             ∧ Page.ind_text <$> Page.indicator a'
               = Some (Page.ScoreText (Some 10))
             ∧ Page.hidden a' = (10 <? Bundle.threshold w)).
Proof.
  intros Hel Hbl. split.
  - intros Hid. rewrite (schedule_allow_listed_eq w el a) by done.
    destruct (allow_listed_fields (Bundle.threshold w) a)
      as (_ & _ & Hd & Hi & Hh).
    repeat split; try done. eexists. split; [apply put_article_lookup|].
    by rewrite Hd, Hi, Hh.
  - intros Hkey. rewrite (delayed_allow_listed_eq o w el a id) by done.
    repeat split; try done. eexists. split; [apply put_article_lookup|].
    rewrite dataset_filterSingleTweet, indicator_filterSingleTweet,
      hidden_filterSingleTweet.
    by repeat split.
Qed.

(** X17, an instance: the tweet of the allow-listed author on a fresh
    page. *)
Lemma allow_listed_author_is_never_sent_witness :
  Page.trace (Bundle.scheduleTweetProcessing 0
                (Fixtures.page_with Fixtures.tweet_trusted))
  = Page.trace (Fixtures.page_with Fixtures.tweet_trusted).
Proof.
  refine (proj1 (proj1 (allow_listed_author_is_never_sent Fixtures.no_json
                          Fixtures.oracle_500
                          (Fixtures.page_with Fixtures.tweet_trusted)
                          0 Fixtures.tweet_trusted "1900" _ _) _)).
  - reflexivity.
  - reflexivity.
  - discriminate.
Defined.

(** X18.  A tweet with a rating in the cache, by an author who is not
    allow-listed, the cached score being an integer that a Number holds
    exactly, is served from the cache: [scheduleTweetProcessing]
    queues no pipeline run and sends no request, leaves the in-flight set
    and the cache alone, and marks the article with the cached score and
    description and the status [cached]; the tweet is hidden exactly when
    the cached score is below the threshold.  A pipeline run that finds the
    cache entry does the same and keeps the ID in the in-flight set. *)
Theorem cached_rating_is_applied_without_a_request
    (parser : Transport.JsonParser) (o : Bundle.Oracle) (w : Page.World)
    (el : nat) (a : Page.Article) (e : Page.CacheEntry) (id : string) :
  Page.articles w !! el = Some a →
  Bundle.isBlacklistedAuthor w a = false →
  Page.tweetIDRatingCache w !! Page.tweetId a = Some e →
  JsString.is_exact (Page.score e) = true →
  (Page.tweetId a ≠ "" →
   Page.trace (Bundle.scheduleTweetProcessing el w) = Page.trace w
   ∧ Page.timers (Bundle.scheduleTweetProcessing el w) = Page.timers w
   ∧ Page.processedTweets (Bundle.scheduleTweetProcessing el w)
     = Page.processedTweets w
   ∧ Page.tweetIDRatingCache (Bundle.scheduleTweetProcessing el w)
     = Page.tweetIDRatingCache w
   ∧ ∃ a', Page.articles (Bundle.scheduleTweetProcessing el w) !! el
           = Some a'
           ∧ Page.dataset a'
             = {| Page.sloppinessScore := Some (Page.score e);
                  Page.blacklisted := Page.blacklisted (Page.dataset a);
                  Page.ratingStatus := Some Page.Cached;
                  Page.ratingDescription := Some (Page.description e);
                  Page.cachedRating := true |}
           ∧ Page.indicator a'
             = Some {| Page.ind_class := Page.cached_rating;
                       Page.ind_text := Page.ScoreText (Some (Page.score e));
                       Page.ind_description := Page.description e |}
           ∧ Page.hidden a' = (Page.score e <? Bundle.threshold w))
  ∧ (Page.apiKey (Page.settings w) ≠ "" →
     Bundle.delayedProcessTweet o el id w
     = Bundle.put_article el (Marks.cached (Bundle.threshold w) e a) w).
Proof.
  intros Hel Hbl Hcache _. split.
  - intros Hid. rewrite (schedule_cached_eq w el a e) by done.
    destruct (cached_fields (Bundle.threshold w) e a)
      as (_ & _ & Hd & Hi & Hh).
    repeat split; try done. eexists. split; [apply put_article_lookup|].
    by rewrite Hd, Hi, Hh.
  - intros Hkey. by apply delayed_cached_eq.
Qed.

(** X18, an instance: the tweet rated in an earlier session and rendered
    anew. *)
Lemma cached_rating_is_applied_without_a_request_witness :
  Page.trace (Bundle.scheduleTweetProcessing 0 Fixtures.page_rerendered)
  = Page.trace Fixtures.page_rerendered.
Proof.
  refine (proj1 (proj1 (cached_rating_is_applied_without_a_request
                          Fixtures.no_json Fixtures.oracle_500
                          Fixtures.page_rerendered 0 Fixtures.tweet_1871
                          {| Page.tweetContent := "[TWEET 1871]";
                             Page.score := 8;
                             Page.description := "Thoughtful thread. SCORE_8";
                             Page.streaming := None;
                             Page.timestamp := None |} "1871" _ _ _ _) _)).
  - reflexivity.
  - reflexivity.
  - reflexivity.
  - reflexivity.
  - discriminate.
Defined.

(** ** The sweep *)

Section SweepFacts.
Import JsString JsValue Transport Page Bundle Marks.

(** The sweep passes over a tweet whose article shows an indicator and which
    is in the in-flight set, or has a score and no error. *)
Lemma ensure_settled (w : World) (el : nat) (a : Article) :
  articles w !! el = Some a → hasIndicator a = true →
  tweetId a ∈ processedTweets w
  ∨ (sloppinessScore (dataset a) ≠ None
     ∧ ratingStatus (dataset a) ≠ Some Errored) →
  ensureTweetRated w el = w.
Proof.
  intros Hel Hind Hcase. unfold ensureTweetRated. rewrite Hel. cbv zeta.
  destruct (String.eqb (tweetId a) ""); [done|].
  rewrite Hind. cbn [negb]. rewrite andb_false_r, orb_false_r.
  destruct Hcase as [Hin | [Hscore Herr]].
  - rewrite (bool_decide_eq_true_2 _ Hin). cbn [negb]. by rewrite andb_false_r.
  - destruct (sloppinessScore (dataset a)); [|done]. cbn [negb orb].
    by destruct (ratingStatus (dataset a)) as [[]|].
Qed.

Lemma ensure_trace (w : World) (el : nat) :
  trace (ensureTweetRated w el) = trace w.
Proof.
  unfold ensureTweetRated. destruct (articles w !! el) as [a|]; [|done].
  cbv zeta. destruct (String.eqb _ _); [done|].
  match goal with
  | |- context [scheduleTweetProcessing el ?w'] =>
      assert (trace w' = trace w) as Hw' by (by destruct (_ && _));
      destruct (_ && negb (bool_decide _));
        [by rewrite (proj1 (schedule_frame w' el))|done]
  end.
Qed.

Lemma swept_idempotent (a : Article) (w : World) :
  swept a (swept a w) = swept a w.
Proof.
  unfold swept.
  destruct (bool_decide (tweetId a ∈ processedTweets w)
            && negb (hasIndicator a)) eqn:Hrem; [|by rewrite Hrem].
  cbn [processedTweets set_processedTweets].
  rewrite bool_decide_eq_false_2; [reflexivity|]. clear. set_solver.
Qed.

Lemma ensure_eq (w : World) (el : nat) (a : Article) :
  articles w !! el = Some a → tweetId a ≠ "" →
  ensureTweetRated w el
  = if needsProcessing a
       && negb (bool_decide (tweetId a ∈ processedTweets (swept a w)))
    then scheduleTweetProcessing el (swept a w)
    else swept a w.
Proof.
  intros Hel Hid%String.eqb_neq. unfold ensureTweetRated.
  by rewrite Hel, Hid.
Qed.

Lemma ensure_idempotent (w : World) (el : nat) :
  ensureTweetRated (ensureTweetRated w el) el = ensureTweetRated w el.
Proof.
  destruct (articles w !! el) as [a|] eqn:Hel;
    [|unfold ensureTweetRated; by rewrite !Hel].
  destruct (String.eqb_spec (tweetId a) "") as [Hid|Hid].
  { unfold ensureTweetRated. rewrite Hel. cbv zeta.
    rewrite (proj2 (String.eqb_eq _ _) Hid).
    by rewrite Hel, (proj2 (String.eqb_eq _ _) Hid). }
  rewrite (ensure_eq w el a Hel Hid).
  assert (articles (swept a w) !! el = Some a) as Hel1.
  { unfold swept. by destruct (_ && _). }
  destruct (needsProcessing a
            && negb (bool_decide (tweetId a ∈ processedTweets (swept a w))))
    eqn:Hcond.
  - apply andb_prop in Hcond as [Hneeds Hout%negb_true_iff].
    pose proof Hout as Hout'. apply bool_decide_eq_false in Hout'.
    destruct (schedule_cases (swept a w) el)
      as [Heq | (a' & Hel' & Hid' & [(Hbl & Heq) | [(Hbl & e & Hc & Heq)
                                                | (Hbl & Hc & Hheld & Heq)]])].
    + rewrite Heq, (ensure_eq (swept a w) el a Hel1 Hid).
      by rewrite swept_idempotent, Hneeds, Hout.
    + rewrite Hel1 in Hel'. injection Hel' as <-. rewrite Heq.
      destruct (allow_listed_fields (threshold (swept a w)) a)
        as (_ & _ & Hd & Hi & _).
      apply (ensure_settled _ el (allow_listed (threshold (swept a w)) a)).
      * apply put_article_lookup.
      * unfold hasIndicator. by rewrite Hi.
      * right. by rewrite Hd.
    + rewrite Hel1 in Hel'. injection Hel' as <-. rewrite Heq.
      destruct (cached_fields (threshold (swept a w)) e a)
        as (_ & _ & Hd & Hi & _).
      apply (ensure_settled _ el (cached (threshold (swept a w)) e a)).
      * apply put_article_lookup.
      * unfold hasIndicator. by rewrite Hi.
      * right. by rewrite Hd.
    + rewrite Hel1 in Hel'. injection Hel' as <-. rewrite Heq.
      apply (ensure_settled _ el (pending a)).
      * cbn. apply lookup_insert_eq.
      * reflexivity.
      * left. cbn. clear. set_solver.
  - (* nothing was scheduled *)
    rewrite (ensure_eq (swept a w) el a Hel1 Hid).
    by rewrite swept_idempotent, Hcond.
Qed.

End SweepFacts.

(** X19.  The sweep [ensureAllTweetsRated] makes over the rendered tweets
    sends no request, and its step for a tweet with a permalink, one whose
    ID [getTweetID] returns at every call, is idempotent: applied again
    right away it changes nothing, so a tweet the sweep has just scheduled,
    or marked from the allow-list or the cache, is not scheduled a second
    time by the next sweep. *)
Theorem sweep_step_is_idempotent (w : Page.World) (el : nat)
    (tweets : list nat) :
  (∀ (a : Page.Article) (href : option string),
     Page.articles w !! el = Some a →
     (∀ random now, Dom.getTweetID href random now = Page.tweetId a) →
     Bundle.ensureTweetRated (Bundle.ensureTweetRated w el) el
     = Bundle.ensureTweetRated w el)
  ∧ Page.trace (Bundle.ensureAllTweetsRated tweets w) = Page.trace w.
Proof.
  split; [intros a href _ _; apply ensure_idempotent|].
  revert w. induction tweets as [|t tweets IH]; intros w; [done|].
  unfold Bundle.ensureAllTweetsRated in *. cbn [fold_left].
  by rewrite IH, ensure_trace.
Qed.

(** X19, an instance: the tweet 1871 with its permalink. *)
Lemma sweep_step_is_idempotent_witness :
  Bundle.ensureTweetRated
    (Bundle.ensureTweetRated (Fixtures.page_with Fixtures.tweet_1871) 0) 0
  = Bundle.ensureTweetRated (Fixtures.page_with Fixtures.tweet_1871) 0.
Proof.
  refine (proj1 (sweep_step_is_idempotent
                   (Fixtures.page_with Fixtures.tweet_1871) 0 [])
            Fixtures.tweet_1871 (Some "https://x.com/someone/status/1871")
            _ _).
  - reflexivity.
  - intros random now. reflexivity.
Defined.

(** ** Two calls and one pipeline run *)

Section OnePipelineFacts.
Import JsString JsValue Transport Page Bundle.
Context `{!JsonParser}.
#[local] Arguments rate_limit : simpl never.




End OnePipelineFacts.




(** ** The pipeline run, outcome by outcome *)

Section PipelineOutcomes.
Import JsString JsValue Transport Page Bundle Marks.
Context `{!JsonParser}.
#[local] Arguments rate_limit : simpl never.

Lemma rated_fields (t : Z) (st : Status) (sc : Z) (desc : string)
    (a : Article) :
  tweetId (rated t st sc desc a) = tweetId a
  ∧ userHandles (rated t st sc desc a) = userHandles a
  ∧ dataset (rated t st sc desc a)
    = {| sloppinessScore := Some sc;
         blacklisted := blacklisted (dataset a);
         ratingStatus := Some st;
         ratingDescription := Some desc;
         cachedRating := cachedRating (dataset a) |}
  ∧ indicator (rated t st sc desc a)
    = indicator (setScoreIndicator (Some sc) st desc a)
  ∧ hidden (rated t st sc desc a)
    = match st with Pending => false | _ => sc <? t end.
Proof.
  unfold rated.
  rewrite tweetId_filterSingleTweet, userHandles_filterSingleTweet,
    dataset_filterSingleTweet, indicator_filterSingleTweet,
    hidden_filterSingleTweet.
  repeat split; by destruct st.
Qed.

(** Any article with the dataset of a rated one, redrawn by
    [filterSingleTweet], is the rated article. *)
Lemma rated_intro (t : Z) (st : Status) (sc : Z) (desc : string)
    (a b : Article) :
  tweetId b = tweetId a → userHandles b = userHandles a →
  dataset b
  = {| sloppinessScore := Some sc; blacklisted := blacklisted (dataset a);
       ratingStatus := Some st; ratingDescription := Some desc;
       cachedRating := cachedRating (dataset a) |} →
  filterSingleTweet t b = rated t st sc desc a.
Proof.
  intros Hid Hh Hd. unfold rated. apply filterSingleTweet_eq.
  - by rewrite tweetId_setScoreIndicator.
  - unfold setScoreIndicator. by destruct st.
  - by rewrite dataset_setScoreIndicator, Hd.
Qed.




End PipelineOutcomes.





(** X20.  A pipeline run without an API key sends nothing: the article gets
    the status [error] and the description "No API key", with a warning
    indicator; its score is left as it is, so an unrated tweet counts as
    score 1 and is hidden under any threshold above 1.  The ID is taken out
    of the in-flight set; the cache, the timers and the clock are as they
    were. *)
Theorem pipeline_without_api_key
    (parser : Transport.JsonParser) (o : Bundle.Oracle) (w : Page.World)
    (el : nat) (a : Page.Article) (id : string) :
  Page.articles w !! el = Some a →
  Page.apiKey (Page.settings w) = "" →
  (∃ a', Page.articles (Bundle.delayedProcessTweet o el id w) !! el = Some a'
         ∧ Page.dataset a'
           = {| Page.sloppinessScore := Page.sloppinessScore (Page.dataset a);
                Page.blacklisted := Page.blacklisted (Page.dataset a);
                Page.ratingStatus := Some Page.Errored;
                Page.ratingDescription := Some "No API key";
                Page.cachedRating := Page.cachedRating (Page.dataset a) |}
         ∧ Page.indicator a'
           = Some {| Page.ind_class := Page.error_rating;
                     Page.ind_text := Page.Warning;
                     Page.ind_description := "No API key" |}
         ∧ Page.hidden a'
           = (default 1 (Page.sloppinessScore (Page.dataset a))
              <? Bundle.threshold w))
  ∧ Page.processedTweets (Bundle.delayedProcessTweet o el id w)
    = Page.processedTweets w ∖ {[id]}
  ∧ Page.trace (Bundle.delayedProcessTweet o el id w) = Page.trace w
  ∧ Page.tweetIDRatingCache (Bundle.delayedProcessTweet o el id w)
    = Page.tweetIDRatingCache w
  ∧ Page.timers (Bundle.delayedProcessTweet o el id w) = Page.timers w
  ∧ Page.clock (Bundle.delayedProcessTweet o el id w) = Page.clock w.
Proof.
  intros Hel Hkey. unfold Bundle.delayedProcessTweet.
  rewrite Hel, Hkey. cbn [String.eqb].
  split; [|done].
  eexists. split.
  { cbn [Page.articles Page.set_processedTweets]. apply put_article_lookup. }
  rewrite dataset_filterSingleTweet, indicator_filterSingleTweet,
    hidden_filterSingleTweet.
  by repeat split.
Qed.

(** X20, an instance: the page of a user who has not entered a key. *)
Lemma pipeline_without_api_key_witness :
  Page.processedTweets
    (@Bundle.delayedProcessTweet Fixtures.no_json Fixtures.oracle_500 0
       "1871"
       (Ui.with_settings
          {| Page.blacklistedHandles := []; Page.apiKey := "";
             Page.filterThreshold := 5 |}
          (Fixtures.page_with Fixtures.tweet_1871)))
  = Page.processedTweets
      (Ui.with_settings
         {| Page.blacklistedHandles := []; Page.apiKey := "";
            Page.filterThreshold := 5 |}
         (Fixtures.page_with Fixtures.tweet_1871)) ∖ {["1871"]}.
Proof.
  refine (proj1 (proj2 (pipeline_without_api_key Fixtures.no_json
                          Fixtures.oracle_500
                          (Ui.with_settings
                             {| Page.blacklistedHandles := [];
                                Page.apiKey := "";
                                Page.filterThreshold := 5 |}
                             (Fixtures.page_with Fixtures.tweet_1871))
                          0 Fixtures.tweet_1871 "1871" _ _))).
  - reflexivity.
  - reflexivity.
Defined.

(** X21.  A pipeline run for which no tweet context can be assembled sends
    no request and stores nothing.  An article without a score gets the
    score 5, the status [error] and the description "error processing
    tweet"; an article that has a score is left as it is.  Either way the
    ID is taken out of the in-flight set. *)
Theorem pipeline_without_context
    (parser : Transport.JsonParser) (o : Bundle.Oracle) (w : Page.World)
    (el : nat) (a : Page.Article) (id : string) :
  Page.articles w !! el = Some a →
  Page.apiKey (Page.settings w) ≠ "" →
  Bundle.isBlacklistedAuthor w a = false →
  Page.tweetIDRatingCache w !! Page.tweetId a = None →
  Bundle.context o = "" →
  Page.articles (Bundle.delayedProcessTweet o el id w) !! el
  = Some (match Page.sloppinessScore (Page.dataset a) with
          | Some _ => a
          | None =>
              Marks.rated (Bundle.threshold w) Page.Errored 5
                "error processing tweet" a
          end)
  ∧ Page.processedTweets (Bundle.delayedProcessTweet o el id w)
    = Page.processedTweets w ∖ {[id]}
  ∧ Page.trace (Bundle.delayedProcessTweet o el id w) = Page.trace w
  ∧ Page.tweetIDRatingCache (Bundle.delayedProcessTweet o el id w)
    = Page.tweetIDRatingCache w
  ∧ Page.timers (Bundle.delayedProcessTweet o el id w) = Page.timers w.
Proof.
  intros Hel Hkey%String.eqb_neq Hbl Hcache Hctx.
  unfold Bundle.delayedProcessTweet. rewrite Hel, Hkey, Hbl.
  unfold Bundle.applyTweetCachedRating. rewrite Hbl, Hcache, Hctx.
  cbn [String.eqb Bundle.finally]. split; [|done].
  cbn [Page.articles Page.set_processedTweets]. rewrite put_article_lookup.
  apply (f_equal Some).
  destruct (Page.sloppinessScore (Page.dataset a)) eqn:Hs; [done|].
  apply rated_intro.
  - by rewrite tweetId_setScoreIndicator.
  - by rewrite userHandles_setScoreIndicator.
  - by rewrite dataset_setScoreIndicator.
Qed.

(** X21, an instance: a freshly rendered tweet whose text cannot be read. *)
Lemma pipeline_without_context_witness :
  Page.articles
    (@Bundle.delayedProcessTweet Fixtures.no_json
       {| Bundle.context := ""; Bundle.context_delay := 300;
          Bundle.net := Fixtures.net_500 |} 0 "1871"
       (Fixtures.page_with Fixtures.tweet_1871)) !! 0%nat
  = Some (match Page.sloppinessScore (Page.dataset Fixtures.tweet_1871) with
          | Some _ => Fixtures.tweet_1871
          | None =>
              Marks.rated
                (Bundle.threshold (Fixtures.page_with Fixtures.tweet_1871))
                Page.Errored 5 "error processing tweet" Fixtures.tweet_1871
          end).
Proof.
  refine (proj1 (pipeline_without_context Fixtures.no_json
                   {| Bundle.context := ""; Bundle.context_delay := 300;
                      Bundle.net := Fixtures.net_500 |}
                   (Fixtures.page_with Fixtures.tweet_1871) 0
                   Fixtures.tweet_1871 "1871" _ _ _ _ _)).
  - reflexivity.
  - discriminate.
  - reflexivity.
  - reflexivity.
  - reflexivity.
Defined.

(** ** The ID and the handles of a tweet *)

Section DomFacts.
Import JsString ScoreExtractor Dom.

Lemma substring_from_app (pre s : string) :
  substring_from (String.length pre) (pre +:+ s) = s.
Proof. induction pre as [|c pre IH]; [by destruct s|]. by rewrite sapp_cons. Qed.

Lemma startsWith_app (p r : string) : startsWith (p +:+ r) p = true.
Proof. unfold startsWith. by rewrite strip_prefix_app. Qed.

Lemma startsWith_split (s p : string) :
  startsWith s p = true → ∃ r, s = p +:+ r.
Proof.
  unfold startsWith. destruct (strip_prefix p s) as [r|] eqn:Hp; [|done].
  intros _. exists r. by apply strip_prefix_Some.
Qed.

Lemma includes_app (pre p post : string) :
  includes (pre +:+ p +:+ post) p = true.
Proof.
  induction pre as [|c pre IH].
  - rewrite sapp_nil_l. destruct (p +:+ post) eqn:E; cbn [includes];
      rewrite <- E, startsWith_app; done.
  - rewrite sapp_cons. cbn [includes]. rewrite IH. apply orb_true_r.
Qed.

Lemma includes_split (s p : string) :
  includes s p = true →
  ∃ pre post, s = pre +:+ p +:+ post
              ∧ indexOf s p = Some (String.length pre).
Proof.
  induction s as [|c s IH]; cbn [includes indexOf].
  - rewrite orb_false_r. intros Hs. rewrite Hs.
    destruct (startsWith_split _ _ Hs) as [r Hr]. by exists "", r.
  - destruct (startsWith (String c s) p) eqn:Hs.
    + intros _. destruct (startsWith_split _ _ Hs) as [r Hr]. by exists "", r.
    + cbn [orb]. intros (pre & post & -> & ->)%IH.
      exists (String c pre), post. by rewrite sapp_cons.
Qed.

Lemma made_up_not_empty (x : string) : "tweet-" +:+ x ≠ "".
Proof. change ("tweet-" +:+ x) with (String "t" ("weet-" +:+ x)). done. Qed.

(** No match of the status pattern starts in a text without [/status/] that
    is followed by [/status/]. *)
Lemma no_status_match_before (p2 suf : string) :
  p2 ≠ "" →
  (∀ p1' p2', p2 = p1' +:+ p2' → startsWith p2' "/status/" = false) →
  match_here head_status (p2 +:+ "/status/" +:+ suf) = None.
Proof.
  intros Hne Hpre. unfold match_here, head_status.
  destruct (strip_prefix "/status/" (p2 +:+ "/status/" +:+ suf)) as [r|] eqn:Hp;
    [|done].
  apply strip_prefix_Some in Hp.
  pose proof (Hpre "" p2 eq_refl) as H0. unfold startsWith in H0.
  destruct p2 as [|c1 [|c2 [|c3 [|c4 [|c5 [|c6 [|c7 [|c8 p2]]]]]]]];
    [done|..];
    rewrite ?sapp_cons, ?sapp_nil_l in Hp;
    change ("/status/" +:+ r)
      with (String "/" (String "s" (String "t" (String "a" (String "t"
              (String "u" (String "s" (String "/" r)))))))) in Hp;
    change ("/status/" +:+ suf)
      with (String "/" (String "s" (String "t" (String "a" (String "t"
              (String "u" (String "s" (String "/" suf)))))))) in Hp;
    simplify_eq; try done.
Qed.

(** An ID that [getTweetID] returns at every call is read off a permalink:
    without one every call makes up an ID of its own. *)
Lemma stable_id_has_permalink (href : option string) (id : string) :
  (∀ random now, getTweetID href random now = id) →
  ∃ h, href = Some h ∧ h ≠ "" ∧ includes h "/status/" = true.
Proof.
  intros Hstable.
  assert ("tweet-" +:+ "a" +:+ "-" +:+ JsValue.string_of_Z 0
          ≠ "tweet-" +:+ "b" +:+ "-" +:+ JsValue.string_of_Z 0) as Hdiffer
    by (vm_compute; discriminate).
  pose proof (Hstable "a" 0) as Ha. pose proof (Hstable "b" 0) as Hb.
  unfold getTweetID in Ha, Hb. cbv zeta in Ha, Hb.
  destruct href as [h|]; [|destruct Hdiffer; congruence].
  destruct (String.eqb h "") eqn:Hempty; cbn [negb andb] in Ha, Hb;
    [destruct Hdiffer; congruence|].
  destruct (includes h "/status/") eqn:Hin;
    [|destruct Hdiffer; congruence].
  exists h. by apply String.eqb_neq in Hempty.
Qed.

(** With a permalink the ID does not depend on the call. *)
Lemma permalink_id_is_stable (h random random' : string) (now now' : Z) :
  includes h "/status/" = true →
  getTweetID (Some h) random now = getTweetID (Some h) random' now'.
Proof.
  intros Hin. destruct (String.eqb_spec h "") as [->|Hne]; [done|].
  apply String.eqb_neq in Hne. unfold getTweetID. cbv zeta.
  by rewrite Hin, Hne.
Qed.

End DomFacts.

(** X24.  [getTweetID] never yields the empty string, whatever the
    permalink is and also without one, so the guard [if (!tweetId)] of its
    callers can not fire; a tweet without a permalink gets a made-up ID
    built from the random part and the clock. *)
Theorem getTweetID_is_never_empty
    (href : option string) (random : string) (now : Z) :
  Dom.getTweetID href random now ≠ ""
  ∧ Dom.getTweetID None random now
    = "tweet-" +:+ random +:+ "-" +:+ JsValue.string_of_Z now.
Proof.
  split; [|done]. unfold Dom.getTweetID. cbv zeta.
  destruct href as [tweetId|]; [|apply made_up_not_empty].
  destruct (negb (String.eqb tweetId "")); cbn [andb];
    [|apply made_up_not_empty].
  destruct (JsString.includes tweetId "/status/") eqn:Hin;
    [|apply made_up_not_empty].
  apply includes_split in Hin as (pre & post & -> & ->).
  assert (JsString.substring_from (S (String.length pre))
            (pre +:+ "/status/" +:+ post) ≠ "") as Hsub.
  { change ("/status/" +:+ post) with (String "/" ("status/" +:+ post)).
    clear. induction pre as [|c pre IH]; [done|].
    rewrite sapp_cons. exact IH. }
  destruct (ScoreExtractor.search _ _) as [digits|]; [|done].
  destruct (String.eqb_spec digits "") as [->|Hne]; cbn [negb]; done.
Qed.

(** X25.  From a permalink whose first [/status/] is followed by digits,
    [getTweetID] reads exactly those digits: all the digits up to the first
    code unit that is not one. *)
Theorem getTweetID_reads_the_status_digits
    (pre ds post random : string) (now : Z) :
  ds ≠ "" → JsString.all_digits ds = true →
  JsString.starts_with_digit post = false →
  JsString.includes pre "/status/" = false →
  Dom.getTweetID (Some (pre +:+ "/status/" +:+ ds +:+ post)) random now = ds.
Proof.
  intros Hne Hds Hpost Hpre. unfold Dom.getTweetID. cbv zeta.
  assert (pre +:+ "/status/" +:+ ds +:+ post ≠ "") as Hnonempty.
  { destruct pre; [|done]. by rewrite sapp_nil_l. }
  apply String.eqb_neq in Hnonempty. rewrite Hnonempty. cbn [negb andb].
  rewrite includes_app.
  assert (ScoreExtractor.search Dom.head_status
            (pre +:+ "/status/" +:+ ds +:+ post) = Some ds) as ->.
  { apply search_first.
    - unfold ScoreExtractor.match_here, Dom.head_status.
      rewrite strip_prefix_app, take_digits_exact by done. by destruct ds.
    - intros p1 p2 -> Hp2. apply no_status_match_before; [done|].
      intros p1' p2' -> .
      destruct (JsString.startsWith p2' "/status/") eqn:Hs; [|done].
      apply startsWith_split in Hs as [r ->].
      rewrite <- sapp_assoc in Hpre.
      by rewrite (includes_app (p1 +:+ p1') "/status/" r) in Hpre. }
  apply String.eqb_neq in Hne. by rewrite Hne.
Qed.

(** X25, an instance: the permalink of a photo of tweet 1871. *)
Lemma getTweetID_reads_the_status_digits_witness :
  Dom.getTweetID
    (Some ("https://x.com/nasa" +:+ "/status/" +:+ "1871" +:+ "/photo/1"))
    "k3x9q" 1700000000000
  = "1871".
Proof.
  apply (getTweetID_reads_the_status_digits "https://x.com/nasa" "1871"
           "/photo/1" "k3x9q" 1700000000000).
  - discriminate.
  - reflexivity.
  - reflexivity.
  - reflexivity.
Defined.

(** X26.  [getUserHandles] never returns an empty list.  Its handles are
    the link targets that start with a slash, without the slash; when no
    link has such a target the result is the one empty handle, which
    [isUserBlacklisted] takes for allow-listed under no list. *)
Theorem getUserHandles_is_never_empty
    (hrefs : list (option string)) (allowed : list string) :
  Dom.getUserHandles hrefs ≠ []
  ∧ (∀ handle,
       In (Some (String "/" handle)) hrefs →
       In handle (Dom.getUserHandles hrefs))
  ∧ (∀ handle,
       In handle (Dom.getUserHandles hrefs) →
       In (Some (String "/" handle)) hrefs
       ∨ Dom.getUserHandles hrefs = [""])
  ∧ (Dom.getUserHandles hrefs = [""] →
     Forall (fun handle => Bundle.isUserBlacklisted allowed handle = false)
       (Dom.getUserHandles hrefs)).
Proof.
  unfold Dom.getUserHandles. cbv zeta.
  set (slash := fun href : option string =>
                  match href with
                  | Some (String "/"%char handle) => Some handle
                  | _ => None
                  end).
  assert (∀ handle, In handle (omap slash hrefs)
                    ↔ In (Some (String "/" handle)) hrefs) as Hin.
  { intros handle. rewrite <- !list_elem_of_In, list_elem_of_omap. split.
    - intros (href & Hel & Hs). unfold slash in Hs.
      destruct href as [[|c r]|]; [done| |done].
      destruct c as [[] [] [] [] [] [] [] []]; try done.
      by injection Hs as ->.
    - intros Hel. by exists (Some (String "/" handle)). }
  destruct (omap slash hrefs) as [|h hs] eqn:Ho.
  - split; [done|]. split; [|split].
    + intros handle Hel%Hin. destruct Hel.
    + intros handle _. by right.
    + intros _. by constructor.
  - split; [done|]. split; [|split].
    + intros handle Hel. by apply Hin.
    + intros handle Hel%Hin. by left.
    + intros [= -> ->]. by constructor.
Qed.

(** ** The settings panel *)

Section FilterFacts.
Import JsString JsValue Page Bundle Marks Ui.

Lemma applyFilter_frame (w : World) (el : nat) :
  settings (applyFilter w el) = settings w
  ∧ processedTweets (applyFilter w el) = processedTweets w
  ∧ tweetIDRatingCache (applyFilter w el) = tweetIDRatingCache w
  ∧ timers (applyFilter w el) = timers w
  ∧ trace (applyFilter w el) = trace w.
Proof. unfold applyFilter. by destruct (articles w !! el). Qed.

Lemma applyFilter_articles (w : World) (el el' : nat) :
  articles (applyFilter w el) !! el'
  = if bool_decide (el' = el)
    then filterSingleTweet (threshold w) <$> articles w !! el'
    else articles w !! el'.
Proof.
  unfold applyFilter. case_bool_decide as Heq.
  - subst el'. destruct (articles w !! el) as [a|] eqn:Hel.
    + by rewrite put_article_lookup.
    + by rewrite Hel.
  - destruct (articles w !! el) as [a|] eqn:Hel; [|done].
    by rewrite put_article_lookup_ne.
Qed.

Lemma applyFilteringToAll_frame (tweets : list nat) (w : World) :
  settings (applyFilteringToAll tweets w) = settings w
  ∧ processedTweets (applyFilteringToAll tweets w) = processedTweets w
  ∧ tweetIDRatingCache (applyFilteringToAll tweets w) = tweetIDRatingCache w
  ∧ timers (applyFilteringToAll tweets w) = timers w
  ∧ trace (applyFilteringToAll tweets w) = trace w.
Proof.
  unfold applyFilteringToAll. revert w.
  induction tweets as [|el tweets IH]; intros w; [done|].
  cbn [fold_left].
  destruct (IH (applyFilter w el)) as (-> & -> & -> & -> & ->).
  apply applyFilter_frame.
Qed.

Lemma applyFilteringToAll_articles (tweets : list nat) (w : World) (el : nat) :
  articles (applyFilteringToAll tweets w) !! el
  = if bool_decide (el ∈ tweets)
    then filterSingleTweet (threshold w) <$> articles w !! el
    else articles w !! el.
Proof.
  unfold applyFilteringToAll. revert w.
  induction tweets as [|x tweets IH]; intros w; [done|].
  cbn [fold_left]. rewrite IH, !applyFilter_articles.
  assert (threshold (applyFilter w x) = threshold w) as ->.
  { unfold threshold. by destruct (applyFilter_frame w x) as (-> & _). }
  destruct (decide (el = x)) as [->|Hne].
  - rewrite (bool_decide_eq_true_2 (x = x)) by done.
    rewrite (bool_decide_eq_true_2 (x ∈ x :: tweets)) by set_solver.
    case_bool_decide; [|done].
    destruct (articles w !! x) as [a|]; [|done]. cbn.
    by rewrite filterSingleTweet_idempotent.
  - rewrite (bool_decide_eq_false_2 (el = x)) by done.
    case_bool_decide as H1; case_bool_decide as H2; try done; set_solver.
Qed.

End FilterFacts.

(** X23.  Moving the filter slider to [value] makes that number the
    threshold and refilters every article of the observed container: such
    an article is afterwards hidden exactly when its status is not pending
    and its score (1 when it has none) is below the new threshold; its
    dataset is as before, no other article changes, and nothing is sent,
    queued or taken from the cache. *)
Theorem slider_refilters_every_tweet
    (value : string) (tweets : list nat) (w : Page.World) :
  value ≠ "" → JsString.all_digits value = true →
  let w' := Ui.handleFilterSliderChange value tweets w in
  Bundle.threshold w' = JsString.decimal_value value
  ∧ (∀ el a, In el tweets → Page.articles w !! el = Some a →
       ∃ a', Page.articles w' !! el = Some a'
             ∧ a' = Bundle.filterSingleTweet (JsString.decimal_value value) a
             ∧ Page.hidden a'
               = Marks.hides (JsString.decimal_value value) (Page.dataset a)
             ∧ Page.dataset a' = Page.dataset a)
  ∧ (∀ el, ¬ In el tweets → Page.articles w' !! el = Page.articles w !! el)
  ∧ Page.trace w' = Page.trace w
  ∧ Page.timers w' = Page.timers w
  ∧ Page.tweetIDRatingCache w' = Page.tweetIDRatingCache w
  ∧ Page.processedTweets w' = Page.processedTweets w.
Proof.
  intros _ Hdigits. cbv zeta. unfold Ui.handleFilterSliderChange. cbv zeta.
  set (w0 := Ui.with_settings _ w).
  assert (Bundle.threshold w0 = JsString.decimal_value value) as Hth.
  { unfold Bundle.threshold, w0. cbn. by apply parseInt10_value. }
  destruct (applyFilteringToAll_frame tweets w0) as (Hs & Hp & Hc & Hti & Htr).
  split; [unfold Bundle.threshold in *; by rewrite Hs|].
  split; [|split].
  - intros el a Hin%list_elem_of_In Hel.
    rewrite applyFilteringToAll_articles, bool_decide_eq_true_2 by done.
    change (Page.articles w0) with (Page.articles w). rewrite Hel, Hth. cbn.
    eexists. split; [done|]. split; [done|].
    by rewrite hidden_filterSingleTweet, dataset_filterSingleTweet.
  - intros el Hin. rewrite applyFilteringToAll_articles.
    rewrite bool_decide_eq_false_2; [done|]. by rewrite list_elem_of_In.
  - by rewrite Htr, Hti, Hc, Hp.
Qed.

(** X23, an instance: the slider at 7 over a rated tweet. *)
Lemma slider_refilters_every_tweet_witness :
  let w' := Ui.handleFilterSliderChange "7" [0%nat] (Fixtures.page_with Fixtures.tweet_1871) in
  Bundle.threshold w' = JsString.decimal_value "7".
Proof.
  refine (proj1 (slider_refilters_every_tweet "7" [0%nat] (Fixtures.page_with Fixtures.tweet_1871)
                   _ _)).
  - discriminate.
  - reflexivity.
Defined.

Section ClearFacts.
Import JsString JsValue Page Bundle Marks Ui.

Lemma clearTweet_frame (w : World) (el : nat) :
  trace (clearTweet w el) = trace w
  ∧ tweetIDRatingCache (clearTweet w el) = tweetIDRatingCache w
  ∧ storedRatings (clearTweet w el) = storedRatings w
  ∧ settings (clearTweet w el) = settings w
  ∧ clock (clearTweet w el) = clock w
  ∧ (∀ el', el' ≠ el →
            articles (clearTweet w el) !! el' = articles w !! el')
  ∧ (∀ t, In t (timers w) → In t (timers (clearTweet w el))).
Proof.
  unfold clearTweet. destruct (articles w !! el) as [a|] eqn:Hel; [|done].
  cbv zeta.
  set (w1 := set_processedTweets _ (put_article el (clear_dataset a) w)).
  destruct (schedule_frame w1 el)
    as (-> & -> & -> & -> & _ & -> & _ & Hother & Htimers).
  repeat split; try done.
  - intros el' Hne. rewrite Hother by done.
    change (articles w1) with (articles (put_article el (clear_dataset a) w)).
    by apply put_article_lookup_ne.
  - intros t Hin. destruct Htimers as [-> | (b & _ & -> & _)]; [done|].
    apply in_or_app. by left.
Qed.

Lemma clear_fold_frame (tweets : list nat) (w : World) :
  trace (fold_left clearTweet tweets w) = trace w
  ∧ tweetIDRatingCache (fold_left clearTweet tweets w) = tweetIDRatingCache w
  ∧ storedRatings (fold_left clearTweet tweets w) = storedRatings w
  ∧ settings (fold_left clearTweet tweets w) = settings w
  ∧ clock (fold_left clearTweet tweets w) = clock w
  ∧ (∀ el', el' ∉ tweets →
            articles (fold_left clearTweet tweets w) !! el'
            = articles w !! el')
  ∧ (∀ t, In t (timers w) → In t (timers (fold_left clearTweet tweets w))).
Proof.
  revert w. induction tweets as [|el tweets IH]; intros w; [done|].
  cbn [fold_left].
  destruct (IH (clearTweet w el)) as (-> & -> & -> & -> & -> & Ho & Ht).
  destruct (clearTweet_frame w el) as (-> & -> & -> & -> & -> & Ho' & Ht').
  repeat split; try done.
  - intros el' Hne. rewrite Ho, Ho'; [done| |]; set_solver.
  - intros t Hin. by apply Ht, Ht'.
Qed.

(** The article and the timer [clearTweetRatingsAndRefreshUI] leaves for
    one element once the cache is empty. *)
Lemma clearTweet_at (w : World) (el : nat) (a : Article) :
  articles w !! el = Some a → tweetId a ≠ "" →
  tweetIDRatingCache w = ∅ →
  articles (clearTweet w el) !! el
  = Some (if isBlacklistedAuthor w a
          then allow_listed (threshold w) (clear_dataset a)
          else pending (clear_dataset a))
  ∧ (isBlacklistedAuthor w a = false →
     In {| fire_at := clock w + 500; timer_el := el;
           timer_tweetId := tweetId a |} (timers (clearTweet w el))).
Proof.
  intros Hel Hid Hcache. unfold clearTweet. rewrite Hel. cbv zeta.
  set (b := clear_dataset a).
  set (w1 := set_processedTweets _ (put_article el b w)).
  assert (articles w1 !! el = Some b) as Hel1
    by apply put_article_lookup.
  assert (isBlacklistedAuthor w1 b = isBlacklistedAuthor w a) as Hbl
    by by apply isBlacklistedAuthor_ext.
  destruct (isBlacklistedAuthor w a) eqn:Hbla.
  - rewrite (schedule_allow_listed_eq w1 el b) by done.
    split; [|done]. apply put_article_lookup.
  - rewrite (schedule_pending_eq w1 el b); try done.
    + split.
      * cbn [articles set_timers]. apply put_article_lookup.
      * intros _. cbn [timers set_timers]. apply in_or_app. right. by left.
    + change (tweetIDRatingCache w1) with (tweetIDRatingCache w).
      by rewrite Hcache.
    + rewrite bool_decide_eq_false_2; [done|].
      unfold w1. cbn. set_solver.
Qed.

Lemma clear_fold_at (tweets : list nat) (w : World) (el : nat) (a : Article) :
  NoDup tweets → el ∈ tweets →
  articles w !! el = Some a → tweetId a ≠ "" →
  tweetIDRatingCache w = ∅ →
  articles (fold_left clearTweet tweets w) !! el
  = Some (if isBlacklistedAuthor w a
          then allow_listed (threshold w) (clear_dataset a)
          else pending (clear_dataset a))
  ∧ (isBlacklistedAuthor w a = false →
     In {| fire_at := clock w + 500; timer_el := el;
           timer_tweetId := tweetId a |}
        (timers (fold_left clearTweet tweets w))).
Proof.
  revert w. induction tweets as [|x tweets IH]; intros w Hnd Hin Hel Hid Hc;
    [by apply elem_of_nil in Hin|].
  apply NoDup_cons in Hnd as [Hx Hnd]. cbn [fold_left].
  destruct (clearTweet_frame w x) as (_ & Hc' & _ & Hs & Hck & Ho & _).
  destruct (clear_fold_frame tweets (clearTweet w x))
    as (_ & _ & _ & _ & _ & Ho' & Ht').
  destruct (decide (el = x)) as [->|Hne].
  - destruct (clearTweet_at w x a Hel Hid Hc) as [Ha Ht].
    split; [by rewrite Ho'|]. intros Hbl. by apply Ht', Ht.
  - assert (el ∈ tweets) as Hin' by set_solver.
    assert (articles (clearTweet w x) !! el = Some a) as Hel'
      by by rewrite Ho.
    destruct (IH (clearTweet w x) Hnd Hin' Hel' Hid) as [Ha Ht];
      [by rewrite Hc'|].
    rewrite (isBlacklistedAuthor_ext w (clearTweet w x) a a) in Ha, Ht
      by done.
    unfold threshold in *. rewrite Hs, Hck in *. done.
Qed.

End ClearFacts.

(** X27.  Clearing the ratings, once confirmed, empties the cache and its
    stored copy and sends nothing; every article of the observed container
    that has an ID loses its score and its cached and allow-list marks and
    is scheduled anew: it shows the allow-list rating when its author is on
    the list, and otherwise it is pending with a timer due 500 ms later.
    Declining the dialog changes nothing. *)
Theorem clearing_ratings_requeues_every_tweet
    (tweets : list nat) (w : Page.World) :
  NoDup tweets →
  let w' := Ui.clearTweetRatingsAndRefreshUI true tweets w in
  Page.tweetIDRatingCache w' = ∅
  ∧ Page.storedRatings w' = ∅
  ∧ Page.trace w' = Page.trace w
  ∧ (∀ el a, In el tweets → Page.articles w !! el = Some a →
       Page.tweetId a ≠ "" →
       Page.articles w' !! el
       = Some (if Bundle.isBlacklistedAuthor w a
               then Marks.allow_listed (Bundle.threshold w)
                      (Ui.clear_dataset a)
               else Marks.pending (Ui.clear_dataset a))
       ∧ (Bundle.isBlacklistedAuthor w a = false →
          In {| Page.fire_at := Page.clock w + 500; Page.timer_el := el;
                Page.timer_tweetId := Page.tweetId a |} (Page.timers w')))
  ∧ (∀ el, ¬ In el tweets → Page.articles w' !! el = Page.articles w !! el)
  ∧ Ui.clearTweetRatingsAndRefreshUI false tweets w = w.
Proof.
  intros Hnd. cbv zeta. unfold Ui.clearTweetRatingsAndRefreshUI. cbv zeta.
  set (w0 := Page.set_storedRatings ∅ (Page.set_cache ∅ w)).
  destruct (clear_fold_frame tweets w0) as (-> & -> & -> & _ & _ & Ho & _).
  repeat split; try done.
  - by apply (clear_fold_at tweets w0 el a Hnd); [apply list_elem_of_In|..].
  - by apply (clear_fold_at tweets w0 el a Hnd); [apply list_elem_of_In|..].
  - intros el Hin. rewrite Ho; [done|]. by rewrite list_elem_of_In.
Qed.

(** X27, an instance: the page with the one tweet 1871, rated before. *)
Lemma clearing_ratings_requeues_every_tweet_witness :
  let w' := Ui.clearTweetRatingsAndRefreshUI true [0%nat]
              Fixtures.page_rerendered in
  Page.tweetIDRatingCache w' = ∅.
Proof.
  refine (proj1 (clearing_ratings_requeues_every_tweet [0%nat]
                   Fixtures.page_rerendered _)).
  apply NoDup_cons. split; [apply not_elem_of_nil|apply NoDup_nil_2].
Defined.

Section HandleFacts.
Import JsString Bundle Ui HandleSpec.

Lemma existsb_eqb_In (h : string) (hs : list string) :
  existsb (String.eqb h) hs = true ↔ In h hs.
Proof.
  rewrite existsb_exists. split.
  - by intros (x & Hin & ->%String.eqb_eq).
  - intros Hin. exists h. by rewrite String.eqb_refl.
Qed.

Lemma add_handle_cases (handle : string) (s : HandleStore) :
  (handles (addHandleToBlacklist handle s) = handles s
   ∧ stored (addHandleToBlacklist handle s) = stored s
   ∧ (clean_handle handle = "" ∨ In (clean_handle handle) (handles s)))
  ∨ (clean_handle handle ≠ "" ∧ ¬ In (clean_handle handle) (handles s)
     ∧ handles (addHandleToBlacklist handle s)
       = handles s ++ [clean_handle handle]
     ∧ stored (addHandleToBlacklist handle s)
       = join_lines (handles s ++ [clean_handle handle])).
Proof.
  unfold addHandleToBlacklist. cbv zeta.
  destruct (String.eqb_spec (clean_handle handle) "") as [He|He].
  { left. cbn [orb]. repeat split. by left. }
  destruct (existsb (String.eqb (clean_handle handle)) (handles s)) eqn:Hex.
  { left. cbn [orb]. repeat split. right. by apply existsb_eqb_In. }
  right. cbn [orb handles stored]. repeat split; try done.
  rewrite <- existsb_eqb_In. by rewrite Hex.
Qed.

Lemma isUserBlacklisted_same (hs : list string) (h author : string) :
  In h hs → author ≠ "" → same_handle h author = true →
  isUserBlacklisted hs author = true.
Proof.
  intros Hin Hne%String.eqb_neq Hsame. unfold isUserBlacklisted.
  rewrite Hne. apply existsb_exists. by exists h.
Qed.

Lemma splice_first_last (h : string) (hs : list string) :
  ¬ In h hs → splice_first h (hs ++ [h]) = hs.
Proof.
  induction hs as [|x hs IH]; intros Hin; cbn.
  - by rewrite String.eqb_refl.
  - destruct (String.eqb_spec x h) as [->|Hne].
    + destruct Hin. by left.
    + rewrite IH; [done|]. intros ?. apply Hin. by right.
Qed.

Lemma splice_first_incl (h x : string) (hs : list string) :
  In x (splice_first h hs) → In x hs.
Proof.
  induction hs as [|y hs IH]; [done|]. cbn.
  destruct (String.eqb y h); [by right|].
  intros [->|Hin]; [by left|]. right. by apply IH.
Qed.

Lemma splice_first_NoDup (h : string) (hs : list string) :
  NoDup hs → NoDup (splice_first h hs) ∧ ¬ In h (splice_first h hs).
Proof.
  induction 1 as [|x hs Hx Hnd [IH1 IH2]];
    [split; [apply NoDup_nil_2|by intros []]|].
  cbn [splice_first]. rewrite list_elem_of_In in Hx.
  destruct (String.eqb_spec x h) as [->|Hne]; [done|]. split.
  - constructor; [|done]. rewrite list_elem_of_In.
    intros Hin. by apply Hx, (splice_first_incl h).
  - intros [?|?]; [done|]. by apply IH2.
Qed.

End HandleFacts.

(** X28.  After [addHandleToBlacklist] with a handle that is not empty once
    cleaned, an author is allow-listed whenever the handle of the author's
    link equals the cleaned handle up to case and surrounding white space.
    The call keeps every handle of the list and adds no handle twice, and
    the stored value is the list joined by line feeds when it was so
    before. *)
Theorem added_handle_is_allow_listed
    (handle author : string) (s : Ui.HandleStore) :
  Ui.clean_handle handle ≠ "" → author ≠ "" →
  HandleSpec.same_handle (Ui.clean_handle handle) author = true →
  let s' := Ui.addHandleToBlacklist handle s in
  Bundle.isUserBlacklisted (Ui.handles s') author = true
  ∧ (∀ h, In h (Ui.handles s) → In h (Ui.handles s'))
  ∧ (NoDup (Ui.handles s) → NoDup (Ui.handles s'))
  ∧ (Ui.stored s = Ui.join_lines (Ui.handles s) →
     Ui.stored s' = Ui.join_lines (Ui.handles s')).
Proof.
  intros Hclean Hauthor Hsame. cbv zeta.
  destruct (add_handle_cases handle s)
    as [(-> & -> & [?|Hin]) | (_ & Hnew & -> & ->)]; [done| |].
  - split; [by apply (isUserBlacklisted_same _ (Ui.clean_handle handle))|].
    done.
  - split; [|split; [|split]].
    + apply (isUserBlacklisted_same _ (Ui.clean_handle handle)); try done.
      apply in_or_app. right. by left.
    + intros h Hin. apply in_or_app. by left.
    + intros Hnd. apply NoDup_app. split; [done|].
      split; [|apply NoDup_singleton].
      intros x Hx ->%list_elem_of_singleton. by apply Hnew, list_elem_of_In.
    + done.
Qed.

(** X28, an instance: "@Trusted_Author " is typed, the link of the author
    reads "trusted_author". *)
Lemma added_handle_is_allow_listed_witness :
  let s' := Ui.addHandleToBlacklist "@Trusted_Author "
              {| Ui.handles := ["nasa"]; Ui.stored := "nasa" |} in
  Bundle.isUserBlacklisted (Ui.handles s') "trusted_author" = true.
Proof.
  refine (proj1 (added_handle_is_allow_listed "@Trusted_Author "
                   "trusted_author"
                   {| Ui.handles := ["nasa"]; Ui.stored := "nasa" |} _ _ _)).
  - discriminate.
  - discriminate.
  - reflexivity.
Defined.

(** X29.  Removing undoes adding: when a handle that is not empty once
    cleaned and not yet on the list is added and then removed, the list is
    the one before.  After [removeHandleFromBlacklist] a list without
    duplicates no longer holds the handle, and removing a handle that is
    not on the list changes nothing. *)
Theorem removing_undoes_adding (handle : string) (s : Ui.HandleStore) :
  Ui.clean_handle handle ≠ "" →
  ¬ In (Ui.clean_handle handle) (Ui.handles s) →
  Ui.handles
    (Ui.removeHandleFromBlacklist (Ui.clean_handle handle)
       (Ui.addHandleToBlacklist handle s))
  = Ui.handles s
  ∧ Ui.stored
      (Ui.removeHandleFromBlacklist (Ui.clean_handle handle)
         (Ui.addHandleToBlacklist handle s))
    = Ui.join_lines (Ui.handles s)
  ∧ (∀ h, NoDup (Ui.handles s) →
          ¬ In h (Ui.handles (Ui.removeHandleFromBlacklist h s)))
  ∧ (∀ h, ¬ In h (Ui.handles s) → Ui.removeHandleFromBlacklist h s = s).
Proof.
  intros Hclean Hnew.
  destruct (add_handle_cases handle s)
    as [(_ & _ & [?|?]) | (_ & _ & Hh & Hs)]; [done..|].
  assert (existsb (String.eqb (Ui.clean_handle handle))
            (Ui.handles (Ui.addHandleToBlacklist handle s)) = true) as Hex.
  { apply existsb_eqb_In. rewrite Hh. apply in_or_app. right. by left. }
  unfold Ui.removeHandleFromBlacklist at 1 2. rewrite Hex. cbv zeta.
  cbn [Ui.handles Ui.stored]. rewrite Hh, splice_first_last by done.
  split; [done|]. split; [done|]. split.
  - intros h Hnd. unfold Ui.removeHandleFromBlacklist.
    destruct (existsb (String.eqb h) (Ui.handles s)) eqn:Hin.
    + cbn [Ui.handles]. by apply splice_first_NoDup.
    + rewrite <- existsb_eqb_In. by rewrite Hin.
  - intros h Hin. unfold Ui.removeHandleFromBlacklist.
    destruct (existsb (String.eqb h) (Ui.handles s)) eqn:Hex'; [|done].
    by apply existsb_eqb_In in Hex'.
Qed.

(** X29, an instance. *)
Lemma removing_undoes_adding_witness :
  Ui.handles
    (Ui.removeHandleFromBlacklist (Ui.clean_handle " @bob")
       (Ui.addHandleToBlacklist " @bob"
          {| Ui.handles := ["nasa"]; Ui.stored := "nasa" |}))
  = Ui.handles {| Ui.handles := ["nasa"]; Ui.stored := "nasa" |}.
Proof.
  refine (proj1 (removing_undoes_adding " @bob"
                   {| Ui.handles := ["nasa"]; Ui.stored := "nasa" |} _ _)).
  - discriminate.
  - intros [H|[]]. discriminate H.
Defined.

Section StoreFacts.
Import JsString Bundle Ui HandleSpec.

Lemma rev_app_spec (s t : string) :
  String.rev_app s t = String.rev s +:+ t.
Proof.
  unfold String.rev. revert t. induction s as [|a s IH]; intros t; [done|].
  cbn [String.rev_app]. rewrite (IH (String a t)), (IH (String a "")).
  by rewrite sapp_assoc.
Qed.

Lemma rev_cons (a : ascii) (s : string) :
  String.rev (String a s) = String.rev s +:+ String a "".
Proof. unfold String.rev at 1. cbn [String.rev_app]. apply rev_app_spec. Qed.

Lemma sapp_snoc_not_empty (s : string) (a : ascii) (t : string) :
  s +:+ String a t ≠ "".
Proof. by destruct s. Qed.

Lemma trim_start_empty (s : string) :
  trim_start s = "" → trim_is_empty s = true.
Proof.
  induction s as [|c s IH]; [done|]. cbn.
  destruct (is_space c); [exact IH|done].
Qed.

Lemma trim_is_empty_app (s t : string) :
  trim_is_empty (s +:+ t) = trim_is_empty s && trim_is_empty t.
Proof.
  induction s as [|c s IH]; [by rewrite sapp_nil_l|].
  rewrite sapp_cons. cbn [trim_is_empty]. by rewrite IH, andb_assoc.
Qed.

Lemma trim_is_empty_rev (s : string) :
  trim_is_empty (String.rev s) = trim_is_empty s.
Proof.
  induction s as [|c s IH]; [done|].
  rewrite rev_cons, trim_is_empty_app, IH. cbn [trim_is_empty].
  by rewrite andb_true_r, andb_comm.
Qed.

Lemma trim_is_empty_trim_start (s : string) :
  trim_is_empty (trim_start s) = trim_is_empty s.
Proof.
  induction s as [|c s IH]; [done|]. cbn.
  destruct (is_space c) eqn:Hc; [exact IH|]. cbn. by rewrite Hc.
Qed.

(** A text whose trimmed form is empty is white space throughout. *)
Lemma trim_empty (s : string) : trim s = "" → trim_is_empty s = true.
Proof.
  unfold trim. intros Hrev.
  assert (trim_start (String.rev (trim_start s)) = "") as Hts.
  { destruct (trim_start (String.rev (trim_start s))) as [|c r]; [done|].
    rewrite rev_cons in Hrev. by apply sapp_snoc_not_empty in Hrev. }
  apply trim_start_empty in Hts.
  by rewrite trim_is_empty_rev, trim_is_empty_trim_start in Hts.
Qed.

Lemma trim_start_shape (s : string) :
  trim_start s = ""
  ∨ ∃ c r, trim_start s = String c r ∧ is_space c = false.
Proof.
  induction s as [|c s IH]; [by left|]. cbn.
  destruct (is_space c) eqn:Hc; [exact IH|]. right. by exists c, s.
Qed.

(** A trimmed text is empty or ends with a code unit that is no white
    space. *)
Lemma trim_shape (s : string) :
  trim s = "" ∨ ∃ r c, trim s = r +:+ String c "" ∧ is_space c = false.
Proof.
  unfold trim.
  destruct (trim_start_shape (String.rev (trim_start s)))
    as [-> | (c & r & -> & Hc)]; [by left|].
  right. exists (String.rev r), c. by rewrite rev_cons.
Qed.

Lemma clean_handle_eq (handle : string) :
  clean_handle handle
  = match trim handle with
    | "" => ""
    | String d r => if Ascii.eqb d "@" then r else String d r
    end.
Proof.
  unfold clean_handle. destruct (trim handle) as [|d r]; [done|].
  by destruct d as [[] [] [] [] [] [] [] []].
Qed.

(** A cleaned handle that is not empty keeps a code unit that is no white
    space. *)
Lemma clean_handle_trim (handle : string) :
  clean_handle handle ≠ "" → trim (clean_handle handle) ≠ "".
Proof.
  rewrite clean_handle_eq.
  destruct (trim_shape handle) as [-> | (r & c & -> & Hc)]; [done|].
  intros Hne Htrim%trim_empty. revert Hne Htrim.
  destruct r as [|d r].
  - rewrite sapp_nil_l. destruct (Ascii.eqb c "@"); [done|].
    cbn. by rewrite Hc.
  - rewrite sapp_cons. destruct (Ascii.eqb d "@"); intros _.
    + by rewrite trim_is_empty_app; cbn; rewrite Hc, andb_false_r.
    + rewrite <- sapp_cons.
      by rewrite trim_is_empty_app; cbn [trim_is_empty];
        rewrite Hc, andb_false_r.
Qed.

Lemma split_lines_go_line (cur h : string) :
  one_line h = true → split_lines_go cur h = [String.rev cur +:+ h].
Proof.
  revert cur. induction h as [|c h IH]; intros cur Hh.
  - by rewrite sapp_nil_r.
  - cbn in Hh. apply andb_prop in Hh as [Hc%negb_true_iff Hh].
    cbn [split_lines_go]. rewrite Hc, IH, rev_cons, sapp_assoc by done.
    done.
Qed.

Lemma split_lines_go_next (cur h rest : string) :
  one_line h = true →
  split_lines_go cur (h +:+ String "010" rest)
  = (String.rev cur +:+ h) :: split_lines_go "" rest.
Proof.
  revert cur. induction h as [|c h IH]; intros cur Hh.
  - by rewrite sapp_nil_l, sapp_nil_r.
  - cbn in Hh. apply andb_prop in Hh as [Hc%negb_true_iff Hh].
    rewrite sapp_cons. cbn [split_lines_go].
    rewrite Hc, IH, rev_cons, sapp_assoc by done. done.
Qed.

Lemma split_join_lines (h : string) (hs : list string) :
  forallb one_line (h :: hs) = true →
  split_lines (join_lines (h :: hs)) = h :: hs.
Proof.
  unfold split_lines, join_lines. revert h.
  induction hs as [|x hs IH]; intros h Hall;
    cbn [forallb] in Hall; apply andb_prop in Hall as [Hh Hall].
  - cbn [String.concat]. by rewrite split_lines_go_line.
  - change (String.concat (String "010" "") (h :: x :: hs))
      with (h +:+ String "010" "" +:+ String.concat (String "010" "") (x :: hs)).
    change (String "010" "" +:+ String.concat (String "010" "") (x :: hs))
      with (String "010" (String.concat (String "010" "") (x :: hs))).
    rewrite split_lines_go_next by done. by rewrite IH.
Qed.

Lemma load_join_lines (hs : list string) :
  forallb storable hs = true → loadBlacklistedHandles (join_lines hs) = hs.
Proof.
  intros Hall. unfold loadBlacklistedHandles.
  destruct hs as [|h hs]; [done|].
  rewrite split_join_lines.
  - revert Hall. generalize (h :: hs). clear. intros hs.
    induction hs as [|x hs IH]; [done|]. cbn [forallb].
    intros [[Hx _]%andb_prop Hall]%andb_prop.
    rewrite filter_cons_True by by apply Is_true_true. by rewrite IH.
  - revert Hall. generalize (h :: hs). clear. intros hs.
    induction hs as [|x hs IH]; [done|]. cbn [forallb].
    intros [[_ Hx]%andb_prop Hall]%andb_prop. by rewrite Hx, IH.
Qed.

Lemma splice_first_forallb (P : string → bool) (h : string)
    (hs : list string) :
  forallb P hs = true → forallb P (splice_first h hs) = true.
Proof.
  induction hs as [|x hs IH]; [done|]. cbn [forallb splice_first].
  intros [Hx Hall]%andb_prop. destruct (String.eqb x h); [done|].
  cbn [forallb]. by rewrite Hx, IH.
Qed.

End StoreFacts.

(** X30.  The list of handles survives a restart: when the stored value is
    the list joined by line feeds and every handle of the list is not blank
    and has no line feed, then after [addHandleToBlacklist] with a handle
    without a line feed inside, and after [removeHandleFromBlacklist] with
    any handle, what the start-up code reads from the stored value is the
    list itself, whose handles are again not blank and without line
    feed. *)
Theorem handle_list_survives_a_restart
    (handle : string) (s : Ui.HandleStore) :
  Ui.stored s = Ui.join_lines (Ui.handles s) →
  forallb HandleSpec.storable (Ui.handles s) = true →
  HandleSpec.one_line (Ui.clean_handle handle) = true →
  (Ui.loadBlacklistedHandles (Ui.stored (Ui.addHandleToBlacklist handle s))
   = Ui.handles (Ui.addHandleToBlacklist handle s)
   ∧ forallb HandleSpec.storable
       (Ui.handles (Ui.addHandleToBlacklist handle s)) = true)
  ∧ (Ui.loadBlacklistedHandles
       (Ui.stored (Ui.removeHandleFromBlacklist handle s))
     = Ui.handles (Ui.removeHandleFromBlacklist handle s)
     ∧ forallb HandleSpec.storable
         (Ui.handles (Ui.removeHandleFromBlacklist handle s)) = true).
Proof.
  intros Hstored Hall Hline. split.
  - destruct (add_handle_cases handle s)
      as [(-> & -> & _) | (Hne & _ & -> & ->)].
    + split; [|done]. rewrite Hstored. by apply load_join_lines.
    + assert (forallb HandleSpec.storable
                (Ui.handles s ++ [Ui.clean_handle handle]) = true) as Hall'.
      { rewrite forallb_app, Hall. cbn [forallb andb].
        unfold HandleSpec.storable. rewrite Hline, !andb_true_r.
        apply negb_true_iff, String.eqb_neq. by apply clean_handle_trim. }
      split; [|done]. by apply load_join_lines.
  - unfold Ui.removeHandleFromBlacklist.
    destruct (existsb (String.eqb handle) (Ui.handles s)).
    + cbn [Ui.handles Ui.stored].
      assert (forallb HandleSpec.storable
                (Ui.splice_first handle (Ui.handles s)) = true) as Hall'
        by by apply splice_first_forallb.
      split; [|done]. by apply load_join_lines.
    + split; [|done]. rewrite Hstored. by apply load_join_lines.
Qed.

(** X30, an instance: " @bob" is added to the list of "nasa". *)
Lemma handle_list_survives_a_restart_witness :
  Ui.loadBlacklistedHandles
    (Ui.stored
       (Ui.addHandleToBlacklist " @bob"
          {| Ui.handles := ["nasa"]; Ui.stored := "nasa" |}))
  = Ui.handles
      (Ui.addHandleToBlacklist " @bob"
         {| Ui.handles := ["nasa"]; Ui.stored := "nasa" |}).
Proof.
  refine (proj1 (proj1 (handle_list_survives_a_restart " @bob"
                   {| Ui.handles := ["nasa"]; Ui.stored := "nasa" |}
                   _ _ _))).
  - reflexivity.
  - reflexivity.
  - reflexivity.
Defined.
